(** * Neuroglancer chunked-graph mesh streaming: a shallow embedding

    The development follows three source files:
    - [neuroglancer/chunked_graph/frontend.ts]   (module [ChunkedGraph]),
    - [neuroglancer/datasource/precomputed/backend.ts] (module [Precomputed]),
    - [neuroglancer/mesh/backend.ts]             (modules [Mesh], [Scheduler]).

    Definitions come first, one module per source file; the theorems about
    them follow in the second half of the file. *)

From Stdlib Require Import ZArith NArith Floats Strings.Byte DecimalString DecimalN.
From stdpp Require Import gmap strings list.

Set Default Proof Using "Type".
Set Warnings "-register-all,-clear-no-such-hyp".

Local Open Scope string_scope.
Local Open Scope list_scope.

(* ===================================================================== *)
(** * Part I: definitions                                                 *)
(* ===================================================================== *)

(** ** 64-bit identifiers ([neuroglancer/util/uint64]) *)

(** A [Uint64] is a value of two 32-bit halves.  It is represented by the
    number [low + high * 2^32]; objects of the class are used by value
    everywhere in the modelled code (they are cloned before being captured),
    so [clone] is the identity on this representation. *)
Abbreviation Uint64 := N.

Module Uint64.

Definition make (low high : N) : Uint64 := (low + high * 2 ^ 32)%N.

Definition low (x : Uint64) : N := (x mod 2 ^ 32)%N.
Definition high (x : Uint64) : N := (x / 2 ^ 32)%N.

Definition clone (x : Uint64) : Uint64 := x.

(** [toString()]: the decimal rendering. *)
Definition toString (x : Uint64) : string :=
  NilZero.string_of_uint (N.to_uint x).

(** [Uint64.parseString(s)]: the inverse reading; [None] stands for the
    exception thrown on a string that is not a decimal number. *)
Definition parseString (s : string) : option Uint64 :=
  N.of_uint <$> NilZero.uint_of_string s.

End Uint64.

(** ** Array buffers and typed-array views *)

(** The byte order of a wire format, and of the host ([ENDIANNESS] in
    [neuroglancer/util/endian]). *)
Inductive Endianness : Type := LITTLE | BIG.

#[global] Instance Endianness_eq_dec : EqDecision Endianness.
Proof. solve_decision. Defined.

(** The host the code runs on. *)
Class Host : Type := { ENDIANNESS : Endianness }.

Module TypedArray.

(** A view is a window of an [ArrayBuffer]: its bytes are the buffer's, so
    writing through the view writes the buffer. *)
Record view : Type := mkView { byteOffset : N; byteLength : N }.

Definition bufferLength (data : list byte) : N := N.of_nat (length data).

(** [new T(data, byteOffset, length)] for an element type of
    [bytesPerElement] bytes; [length = None] is the two-argument form.
    [None] is the [RangeError] of the constructor: a misaligned offset, a
    buffer whose length is not a multiple of the element size (two-argument
    form), or a window that does not fit. *)
Definition create (bytesPerElement : N) (data : list byte) (byteOffset : N)
    (length : option N) : option view :=
  if negb (byteOffset mod bytesPerElement =? 0)%N then None
  else match length with
       | None =>
           if negb (bufferLength data mod bytesPerElement =? 0)%N then None
           else if (bufferLength data <? byteOffset)%N then None
           else Some (mkView byteOffset (bufferLength data - byteOffset))
       | Some n =>
           if (bufferLength data <? byteOffset + n * bytesPerElement)%N then None
           else Some (mkView byteOffset (n * bytesPerElement))
       end.

(** The bytes seen through a view. *)
Definition contents (data : list byte) (v : view) : list byte :=
  take (N.to_nat (byteLength v)) (drop (N.to_nat (byteOffset v)) data).

(** Writing [f] of the window's bytes back through the view. *)
Definition modify (f : list byte -> list byte) (v : view) (data : list byte)
  : list byte :=
  take (N.to_nat (byteOffset v)) data
    ++ f (contents data v)
    ++ drop (N.to_nat (byteOffset v + byteLength v)) data.

(** Number of elements of a view of 4-byte elements ([.length]). *)
Definition length32 (v : view) : N := (byteLength v / 4)%N.

(** The value of four bytes as an unsigned 32-bit word. *)
Definition word_le (b0 b1 b2 b3 : byte) : N :=
  (Byte.to_N b0 + 2 ^ 8 * Byte.to_N b1 + 2 ^ 16 * Byte.to_N b2
   + 2 ^ 24 * Byte.to_N b3)%N.

Definition word_of (e : Endianness) (b0 b1 b2 b3 : byte) : N :=
  match e with
  | LITTLE => word_le b0 b1 b2 b3
  | BIG => word_le b3 b2 b1 b0
  end.

(** The elements of a [Uint32Array] window, read in byte order [e]. *)
Fixpoint words (e : Endianness) (l : list byte) : list N :=
  match l with
  | b0 :: b1 :: b2 :: b3 :: rest => word_of e b0 b1 b2 b3 :: words e rest
  | _ => []
  end.

(** [new DataView(data).getUint32(byteOffset, littleEndian)]; [None] is its
    [RangeError]. *)
Definition getUint32 (data : list byte) (byteOffset : N) (littleEndian : bool)
  : option N :=
  match drop (N.to_nat byteOffset) data with
  | b0 :: b1 :: b2 :: b3 :: _ =>
      Some (word_of (if littleEndian then LITTLE else BIG) b0 b1 b2 b3)
  | _ => None
  end.

End TypedArray.

(** ** Promises and HTTP requests *)

(** A JSON value: the body of a POST request. *)
Inductive Json : Type :=
| JString (s : string)
| JNumber (x : float)
| JArray (l : list Json)
| JObject (fields : list (string * Json)).

(** A request opened by [openHttpRequest] and sent by
    [sendHttpJsonPostRequest]. *)
Record HttpRequest : Type := mkRequest {
  req_url : string;
  req_method : string;
  req_body : option Json;
  req_responseType : string;
}.

(** What a promise can be rejected with. *)
Inductive Rejection : Type :=
| GRAPH_SERVER_NOT_SPECIFIED
| HttpError (status : Z)
| ThrownError (message : string).

Inductive Outcome (A : Type) : Type :=
| Fulfilled (a : A)
| Rejected (e : Rejection).
Arguments Fulfilled {A} a.
Arguments Rejected {A} e.

(** The [ArrayBuffer] of a response, or the transport failure. *)
Definition HttpResult : Type := Outcome (list byte).

(** The promise a method returns: already settled when it is returned
    ([Promise.resolve], [Promise.reject]), or waiting for the answer to one
    request, with the [then]/[catch] chain as a function of that answer. *)
Inductive Async (A : Type) : Type :=
| Settled (o : Outcome A)
| Await (req : HttpRequest) (k : HttpResult -> Outcome A).
Arguments Settled {A} o.
Arguments Await {A} req k.

(** The network requests issued by the call that returned the promise. *)
Definition requests_issued {A} (p : Async A) : list HttpRequest :=
  match p with
  | Settled _ => []
  | Await req _ => [req]
  end.

(** ** [chunked_graph/frontend.ts] *)

Module ChunkedGraph.

(** The selection object handed to the graph operations.  The interface
    declared at the top of the file names the fields [segment], [root] and
    [position]; every method reads the properties [segmentId] and
    [position], as the selection type imported from the display state has
    them, and the record follows the reads. *)
Record SegmentSelection : Type := {
  segmentId : Uint64;
  rootId : Uint64;
  position : list float;
}.

(** The layer object; of its fields the graph operations read [graphurl]. *)
Record ChunkedGraphLayer : Type := { graphurl : string }.

Definition url (this : ChunkedGraphLayer) : string := graphurl this.

(** [[String(selection.segmentId), ...selection.position]] *)
Definition selectionJson (x : SegmentSelection) : Json :=
  JArray (JString (Uint64.toString (segmentId x)) :: (JNumber <$> position x)).

(** [new Uint32Array(response)]: the words of the whole buffer, in host
    order; [None] is the [RangeError] for a length that is not a multiple
    of four. *)
Definition Uint32Array_of `{Host} (response : list byte) : option (list N) :=
  v ← TypedArray.create 4 response 0 None;
  Some (TypedArray.words ENDIANNESS (TypedArray.contents response v)).

(** [uint32[i]]; out of range it is [undefined], which the [Uint64]
    constructor replaces by its default 0. *)
Definition word (uint32 : list N) (i : nat) : N := default 0%N (uint32 !! i).

(** The [then] handler of [getRoot] and [mergeSegments], followed by their
    [catch] handler, which logs and rejects with the same error. *)
Definition decodeRoot `{Host} (response : HttpResult) : Outcome Uint64 :=
  match response with
  | Fulfilled buffer =>
      match Uint32Array_of buffer with
      | Some uint32 => Fulfilled (Uint64.make (word uint32 0) (word uint32 1))
      | None => Rejected (ThrownError "RangeError")
      end
  | Rejected e => Rejected e
  end.

(** The handlers of [splitSegments]: [new Array(uint32.length / 2)] throws
    for an odd number of words. *)
Definition decodeRoots `{Host} (response : HttpResult) : Outcome (list Uint64) :=
  match response with
  | Fulfilled buffer =>
      match Uint32Array_of buffer with
      | Some uint32 =>
          if Nat.even (length uint32) then
            Fulfilled
              ((fun i => Uint64.make (word uint32 (2 * i)) (word uint32 (2 * i + 1)))
                 <$> seq 0 (length uint32 / 2))
          else Rejected (ThrownError "RangeError")
      | None => Rejected (ThrownError "RangeError")
      end
  | Rejected e => Rejected e
  end.

Definition getRoot `{Host} (this : ChunkedGraphLayer)
    (selection : SegmentSelection) : Async Uint64 :=
  if decide (url this = "") then
    Settled (Fulfilled (segmentId selection))
  else
    Await
      (mkRequest (url this +:+ "/1.0/graph/root") "POST"
                 (Some (selectionJson selection)) "arraybuffer")
      decodeRoot.

Definition mergeSegments `{Host} (this : ChunkedGraphLayer)
    (first second : SegmentSelection) : Async Uint64 :=
  if decide (url this = "") then
    Settled (Rejected GRAPH_SERVER_NOT_SPECIFIED)
  else
    Await
      (mkRequest (url this +:+ "/1.0/graph/merge") "POST"
                 (Some (JArray [selectionJson first; selectionJson second]))
                 "arraybuffer")
      decodeRoot.

Definition splitSegments `{Host} (this : ChunkedGraphLayer)
    (first second : list SegmentSelection) : Async (list Uint64) :=
  if decide (url this = "") then
    Settled (Rejected GRAPH_SERVER_NOT_SPECIFIED)
  else
    Await
      (mkRequest (url this +:+ "/1.0/graph/split") "POST"
                 (Some (JObject [("sources", JArray (selectionJson <$> first));
                                 ("sinks", JArray (selectionJson <$> second))]))
                 "arraybuffer")
      decodeRoots.

End ChunkedGraph.

(** ** Endianness conversion ([neuroglancer/util/endian]) *)

Module Endian.

(** Modelled from the spec: [swapEndian16] and [swapEndian32] of
    [neuroglancer/util/endian], which is not among the sources.  The
    conversion is in place on the bytes of a view, group by group: a 16-bit
    swap exchanges the two bytes of each pair, a 32-bit swap reverses the
    four bytes of each group.  A trailing incomplete group reads its missing
    bytes as [undefined] (stored as 0) and drops the writes past the end. *)
Fixpoint swapEndian16 (l : list byte) : list byte :=
  match l with
  | b0 :: b1 :: rest => b1 :: b0 :: swapEndian16 rest
  | [_] => [x00]
  | [] => []
  end.

Fixpoint swapEndian32 (l : list byte) : list byte :=
  match l with
  | b0 :: b1 :: b2 :: b3 :: rest => b3 :: b2 :: b1 :: b0 :: swapEndian32 rest
  | [_; b1; b2] => [x00; b2; b1]
  | [_; _] => [x00; x00]
  | [_] => [x00]
  | [] => []
  end.

(** Modelled from the spec: [convertEndian16(array, source)] and
    [convertEndian32(array, source)], with the host's byte order as the
    target: the view is swapped in place when the two orders differ. *)
Definition convertEndian16 `{Host} (array : TypedArray.view)
    (source : Endianness) (data : list byte) : list byte :=
  if decide (source = ENDIANNESS) then data
  else TypedArray.modify swapEndian16 array data.

Definition convertEndian32 `{Host} (array : TypedArray.view)
    (source : Endianness) (data : list byte) : list byte :=
  if decide (source = ENDIANNESS) then data
  else TypedArray.modify swapEndian32 array data.

End Endian.

(** ** Exceptions *)

Inductive Exception : Type :=
| RangeError
| TypeError
| Error (message : string).

(** How a call ends: normally with a value, or by throwing. *)
Inductive Completion (A : Type) : Type :=
| Normal (a : A)
| Throw (e : Exception).
Arguments Normal {A} a.
Arguments Throw {A} e.

(** [`${n}`] for a non-negative integer. *)
Definition decimal (n : N) : string := NilZero.string_of_uint (N.to_uint n).

(** ** [mesh/backend.ts]: decoders *)

Module Mesh.

Local Open Scope N_scope.

(** The fields [decodeVertexPositionsAndIndices] assigns to the chunk: two
    views of the same buffer [data]. *)
Record Geometry : Type := {
  vertexPositions : TypedArray.view;
  indices : TypedArray.view;
}.

(** [decodeVertexPositionsAndIndices].  The buffer [data] is converted in
    place, so the function returns the buffer as the call leaves it together
    with the way the call ends: the assignment to the chunk, or the
    exception. *)
Definition decodeVertexPositionsAndIndices `{Host}
    (verticesPerPrimitive : N) (data : list byte) (endianness : Endianness)
    (vertexByteOffset numVertices : N)
    (indexByteOffset numPrimitives : option N)
  : list byte * Completion Geometry :=
  match TypedArray.create 4 data vertexByteOffset (Some (numVertices * 3)) with
  | None => (data, Throw RangeError)
  | Some vertexPositions =>
      let data := Endian.convertEndian32 vertexPositions endianness data in
      let indexByteOffset :=
        match indexByteOffset with
        | None => vertexByteOffset + 12 * numVertices
        | Some o => o
        end in
      let numIndices :=
        match numPrimitives with
        | Some n => Some (n * verticesPerPrimitive)
        | None => None
        end in
      match TypedArray.create 4 data indexByteOffset numIndices with
      | None => (data, Throw RangeError)
      | Some indices =>
          (* [x % 0] is NaN, which differs from 0 *)
          if (verticesPerPrimitive =? 0)
             || negb (TypedArray.length32 indices mod verticesPerPrimitive =? 0)
          then
            (data,
             Throw (Error ("Number of indices is not a multiple of "
                           +:+ decimal verticesPerPrimitive +:+ ": "
                           +:+ decimal (TypedArray.length32 indices) +:+ ".")))
          else
            let data := Endian.convertEndian32 indices endianness data in
            (data, Normal {| vertexPositions := vertexPositions;
                             indices := indices |})
      end
  end.

(** *** Vertex normals *)

Local Open Scope float_scope.

(** A store into a [Float32Array] rounds the number to single precision
    ([Math.fround]). *)
Definition fround (x : float) : float :=
  match Prim2SF x with
  | S754_finite s m e =>
      SF2Prim (SpecFloat.binary_normalize 24 128
                 (if s then Z.neg m else Z.pos m) e s)
  | _ => x
  end.

(** gl-matrix's [vec3]: three single-precision numbers. *)
Definition vec3 : Type := float * float * float.

(** [vec3.cross(out, a, b)] *)
Definition vec3_cross (a b : vec3) : vec3 :=
  let '(ax, ay, az) := a in
  let '(bx, by', bz) := b in
  (fround (ay * bz - az * by'),
   fround (az * bx - ax * bz),
   fround (ax * by' - ay * bx)).

(** gl-matrix's [vec3.normalize(out, a)], with [out] and [a] the same
    vector as in both calls of the source: the vector is rescaled only when
    its squared length is greater than 0. *)
Definition vec3_normalize (a : vec3) : vec3 :=
  let '(x, y, z) := a in
  let len := x * x + y * y + z * z in
  if 0 <? len then
    let len := 1 / sqrt len in
    (fround (x * len), fround (y * len), fround (z * len))
  else a.

(** [positions[i]] for [i = index * 3 + j]; an index past the end (or an
    [undefined] index, [None]) reads [undefined], which the subtraction it
    goes into turns into NaN. *)
Definition element (positions : list float) (index : option N) (j : N) : float :=
  match index with
  | Some index =>
      if (index * 3 + j <? N.of_nat (length positions))%N
      then default nan (positions !! N.to_nat (index * 3 + j))
      else nan
  | None => nan
  end.

(** The face normal of the triangle with vertex indices [i0 i1 i2]. *)
Definition faceNormal (positions : list float) (i0 i1 i2 : option N) : vec3 :=
  let d a b j := fround (element positions a j - element positions b j) in
  let v1v0 := (d i1 i0 0%N, d i1 i0 1%N, d i1 i0 2%N) in
  let v2v1 := (d i2 i1 0%N, d i2 i1 1%N, d i2 i1 2%N) in
  vec3_normalize (vec3_cross v1v0 v2v1).

(** [vertexNormals[offset + j] += x]; a store past the end is dropped. *)
Definition addAt (vertexNormals : list float) (i : N) (x : float) : list float :=
  if (i <? N.of_nat (length vertexNormals))%N
  then alter (fun old => fround (old + x)) (N.to_nat i) vertexNormals
  else vertexNormals.

(** The three stores of one corner of a triangle. *)
Definition addNormal (vertexNormals : list float) (index : option N) (n : vec3)
  : list float :=
  match index with
  | Some index =>
      let '(n0, n1, n2) := n in
      let offset := (index * 3)%N in
      addAt (addAt (addAt vertexNormals offset n0) (offset + 1)%N n1)
            (offset + 2)%N n2
  | None => vertexNormals
  end.

(** One iteration of the loop over triangles. *)
Definition addTriangle (positions : list float) (i0 i1 i2 : option N)
    (vertexNormals : list float) : list float :=
  let n := faceNormal positions i0 i1 i2 in
  addNormal (addNormal (addNormal vertexNormals i0 n) i1 n) i2 n.

(** The loop [for (let i = 0; i < numIndices; i += 3)]; in a last
    incomplete group the missing indices are [undefined]. *)
Fixpoint accumulate (positions : list float) (indices : list N)
    (vertexNormals : list float) : list float :=
  match indices with
  | i0 :: i1 :: i2 :: rest =>
      accumulate positions rest
        (addTriangle positions (Some i0) (Some i1) (Some i2) vertexNormals)
  | [i0; i1] => addTriangle positions (Some i0) (Some i1) None vertexNormals
  | [i0] => addTriangle positions (Some i0) None None vertexNormals
  | [] => vertexNormals
  end.

(** The loop normalizing [vertexNormals.subarray(i, i + 3)] for each
    [i += 3]; a last window shorter than three has an [undefined]
    component, a NaN squared length, and is left as it is. *)
Fixpoint normalizeAll (vertexNormals : list float) : list float :=
  match vertexNormals with
  | x :: y :: z :: rest =>
      let '(x', y', z') := vec3_normalize (x, y, z) in
      x' :: y' :: z' :: normalizeAll rest
  | short => short
  end.

Definition computeVertexNormals (positions : list float) (indices : list N)
  : list float :=
  normalizeAll
    (accumulate positions indices (replicate (length positions) 0)).

End Mesh.

(** ** [Promise.all] *)

Module PromiseAll.

(** The aggregate promise of [Promise.all(promises)]: what each element has
    settled to so far ([None]: still pending) and the aggregate's own state
    ([None]: still pending).  A promise settles once; settling again
    changes nothing. *)
Record state (A : Type) : Type := mkState {
  elements : list (option (Outcome A));
  aggregate : option (Outcome (list A));
}.
Arguments mkState {A} elements aggregate.
Arguments elements {A} s.
Arguments aggregate {A} s.

(** The values of the elements when every one of them is fulfilled. *)
Fixpoint values {A} (l : list (option (Outcome A))) : option (list A) :=
  match l with
  | [] => Some []
  | Some (Fulfilled a) :: rest => cons a <$> values rest
  | _ => None
  end.

(** [Promise.all] of [n] pending promises; of none, it is fulfilled at
    once with the empty array. *)
Definition init {A} (n : nat) : state A :=
  mkState (replicate n None) (if n is O then Some (Fulfilled []) else None).

(** Element [i] settles to [o].  The first rejection rejects the aggregate;
    the fulfilment that leaves no element pending fulfils it. *)
Definition settle {A} (i : nat) (o : Outcome A) (s : state A) : state A :=
  match elements s !! i with
  | Some None =>
      let elements' := <[i := Some o]> (elements s) in
      mkState elements'
        (match aggregate s with
         | Some r => Some r
         | None =>
             match o with
             | Rejected e => Some (Rejected e)
             | Fulfilled _ => Fulfilled <$> values elements'
             end
         end)
  | _ => s
  end.

(** [p.then(f)] for a handler that cannot throw. *)
Definition then_ {A B} (f : A -> B) (r : option (Outcome A)) : option (Outcome B) :=
  match r with
  | Some (Fulfilled a) => Some (Fulfilled (f a))
  | Some (Rejected e) => Some (Rejected e)
  | None => None
  end.

End PromiseAll.

(** ** [datasource/precomputed/backend.ts] *)

(** The scalar types of a dataset and their sizes in bytes
    ([neuroglancer/util/data_type]); the table is not among the sources and
    is a parameter of the decoder. *)
Class DataTypes : Type := {
  DataType : Type;
  DATA_TYPE_BYTES : DataType -> N;
}.

Module Precomputed.

Local Open Scope N_scope.

(** [openShardedHttpRequest(baseUrls, path)] sent with a response type. *)
Record ShardedRequest : Type := {
  baseUrls : list string;
  path : string;
  responseType : string;
}.

Record Parameters : Type := {
  parameters_baseUrls : list string;
  parameters_path : string;
}.

(** A chunk of the chunked graph: [mappings] has, for every root segment
    key, the supervoxels of the root in this chunk, or [null] while they
    are not known.  The map is iterated in insertion order. *)
Record ChunkedGraphChunk : Type := {
  chunkDataSize : Z * Z * Z;
  mappings : list (string * option (list Uint64));
}.

(** [`${n}`] for an integer coordinate. *)
Definition showZ (z : Z) : string :=
  match z with
  | Zneg p => "-" +:+ decimal (Npos p)
  | _ => decimal (Z.to_N z)
  end.

(** The [bounds] string of a chunk at [chunkPosition]. *)
Definition boundsString (chunkPosition chunkDataSize : Z * Z * Z) : string :=
  let '(p0, p1, p2) := chunkPosition in
  let '(s0, s1, s2) := chunkDataSize in
  showZ p0 +:+ "-" +:+ showZ (p0 + s0) +:+ "_" +:+
  showZ p1 +:+ "-" +:+ showZ (p1 + s1) +:+ "_" +:+
  showZ p2 +:+ "-" +:+ showZ (p2 + s2).

(** The requests [PrecomputedChunkedGraphSource.download] sends before it
    returns, each with the root key its [then] handler decodes for.
    [chunkPosition] is the result of [computeChunkBounds(chunk)]. *)
Definition download_requests (parameters : Parameters)
    (chunkPosition : Z * Z * Z) (chunk : ChunkedGraphChunk)
  : list (string * ShardedRequest) :=
  let bounds := boundsString chunkPosition (chunkDataSize chunk) in
  omap (fun '(key, val) =>
          match val with
          | None =>
              Some (key,
                    {| baseUrls := parameters_baseUrls parameters;
                       path := parameters_path parameters +:+ "/" +:+ key
                               +:+ "/leaves?bounds=" +:+ bounds;
                       responseType := "arraybuffer" |})
          | Some _ => None
          end)
       (mappings chunk).

Section download.
(** [decodeSupervoxelArray] of [chunked_graph/backend], which is not
    among the sources: the supervoxels it stores in the chunk's mapping
    for the key, or the exception it throws. *)
Variable decodeSupervoxelArray : list byte -> Completion (list Uint64).

(** The promise pushed for one request:
    [sendHttpRequest(...).then(response => decodeChunkedGraphChunk(chunk, key, response))]
    as a function of the answer to the request. *)
Definition subrequest_outcome (answer : HttpResult) : Outcome (list Uint64) :=
  match answer with
  | Fulfilled response =>
      match decodeSupervoxelArray response with
      | Normal supervoxels => Fulfilled supervoxels
      | Throw RangeError => Rejected (ThrownError "RangeError")
      | Throw TypeError => Rejected (ThrownError "TypeError")
      | Throw (Error m) => Rejected (ThrownError m)
      end
  | Rejected e => Rejected e
  end.

(** The download in flight: the chunk as the handlers have updated it so
    far and the state of [Promise.all(promises)]. *)
Record Download : Type := {
  chunk_now : ChunkedGraphChunk;
  keys : list string;
  all : PromiseAll.state (list Uint64);
}.

Definition download (parameters : Parameters) (chunkPosition : Z * Z * Z)
    (chunk : ChunkedGraphChunk) : Download :=
  let requests := download_requests parameters chunkPosition chunk in
  {| chunk_now := chunk;
     keys := fst <$> requests;
     all := PromiseAll.init (length requests) |}.

(** [chunk.mappings.set(key, supervoxels)] *)
Definition setMapping (key : string) (supervoxels : list Uint64)
    (chunk : ChunkedGraphChunk) : ChunkedGraphChunk :=
  {| chunkDataSize := chunkDataSize chunk;
     mappings := (fun '(k, v) => if decide (k = key) then (k, Some supervoxels)
                                 else (k, v)) <$> mappings chunk |}.

(** The answer to request [i] arrives. *)
Definition answer (i : nat) (a : HttpResult) (d : Download) : Download :=
  match PromiseAll.elements (all d) !! i, keys d !! i with
  | Some None, Some key =>
      let o := subrequest_outcome a in
      {| chunk_now := match o with
                      | Fulfilled supervoxels =>
                          setMapping key supervoxels (chunk_now d)
                      | Rejected _ => chunk_now d
                      end;
         keys := keys d;
         all := PromiseAll.settle i o (all d) |}
  | _, _ => d
  end.

(** The promise [download] returns:
    [Promise.all(promises).then(() => {return;})]. *)
Definition returned (d : Download) : option (Outcome unit) :=
  PromiseAll.then_ (fun _ => tt) (PromiseAll.aggregate (all d)).

(** The download after the answers of a list, in their order of arrival. *)
Definition after (answers : list (nat * HttpResult)) (d : Download) : Download :=
  foldl (fun d '(i, a) => answer i a d) d answers.

End download.

(** *** Skeleton chunks *)

Record VertexAttributeInfo `{DataTypes} : Type := {
  dataType : DataType;
  numComponents : N;
}.

(** Modelled from the spec: [decodeSkeletonVertexPositionsAndIndices] of
    [neuroglancer/skeleton/backend], which is not among the sources.  Mesh
    and skeleton share the geometry decoder; a skeleton's primitives are
    edges, of 2 vertices each. *)
Definition decodeSkeletonVertexPositionsAndIndices `{Host}
    (data : list byte) (endianness : Endianness)
    (vertexByteOffset numVertices : N)
    (indexByteOffset numEdges : option N)
  : list byte * Completion Mesh.Geometry :=
  Mesh.decodeVertexPositionsAndIndices 2 data endianness vertexByteOffset
    numVertices indexByteOffset numEdges.

(** The fields [decodeSkeletonChunk] assigns to the chunk: views of the
    response buffer. *)
Record SkeletonChunk : Type := {
  vertexAttributes : list TypedArray.view;
  geometry : Mesh.Geometry;
}.

(** The [switch (bytesPerVertex)] of the attribute loop: [case 2], then
    [case 4] and [case 8] together, and no [default]. *)
Definition convertAttribute `{Host} (bytesPerVertex : N)
    (attribute : TypedArray.view) (response : list byte) : list byte :=
  if bytesPerVertex =? 2 then
    Endian.convertEndian16 attribute LITTLE response
  else if (bytesPerVertex =? 4) || (bytesPerVertex =? 8) then
    Endian.convertEndian32 attribute LITTLE response
  else response.

(** The loop [for (let info of vertexAttributes.values())], from the
    attribute [infos] still to read: the buffer, the views pushed and the
    offset reached, or the [RangeError] of a view that does not fit. *)
Fixpoint decodeAttributes `{Host} `{DataTypes} (numVertices : N)
    (infos : list VertexAttributeInfo) (curOffset : N)
    (attributes : list TypedArray.view) (response : list byte)
  : list byte * Completion (list TypedArray.view * N) :=
  match infos with
  | [] => (response, Normal (attributes, curOffset))
  | info :: infos =>
      let bytesPerVertex := DATA_TYPE_BYTES (dataType info) * numComponents info in
      let totalBytes := bytesPerVertex * numVertices in
      match TypedArray.create 1 response curOffset (Some totalBytes) with
      | None => (response, Throw RangeError)
      | Some attribute =>
          decodeAttributes numVertices infos (curOffset + totalBytes)
            (attributes ++ [attribute])
            (convertAttribute bytesPerVertex attribute response)
      end
  end.

(** [decodeSkeletonChunk(chunk, response, vertexAttributes)], with the
    values of the attribute map in its iteration order. *)
Definition decodeSkeletonChunk `{Host} `{DataTypes} (response : list byte)
    (vertexAttributes : list VertexAttributeInfo)
  : list byte * Completion SkeletonChunk :=
  match TypedArray.getUint32 response 0 true with
  | None => (response, Throw RangeError)
  | Some numVertices =>
      match TypedArray.getUint32 response 4 true with
      | None => (response, Throw RangeError)
      | Some numEdges =>
          let vertexPositionsStartOffset := 8 in
          let curOffset := 8 + numVertices * 4 * 3 in
          match decodeAttributes numVertices vertexAttributes curOffset [] response with
          | (response, Throw e) => (response, Throw e)
          | (response, Normal (attributes, curOffset)) =>
              match decodeSkeletonVertexPositionsAndIndices response LITTLE
                      vertexPositionsStartOffset numVertices
                      (Some curOffset) (Some numEdges) with
              | (response, Throw e) => (response, Throw e)
              | (response, Normal g) =>
                  (response, Normal {| vertexAttributes := attributes;
                                       geometry := g |})
              end
          end
      end
  end.

End Precomputed.

(** ** [mesh/backend.ts]: the mesh layer *)

(** The visibility of a layer: a number, or one of the two infinities. *)
Inductive Visibility : Type :=
| NEGATIVE_INFINITY
| finite (v : Z)
| POSITIVE_INFINITY.

#[global] Instance Visibility_eq_dec : EqDecision Visibility.
Proof. solve_decision. Defined.

(** What the mesh layer takes from modules that are not among the sources:
    the clip bounds and their part in a chunk key ([getObjectKey] of
    [segmentation_display_state/base]), the priority of a visibility
    ([visibility_priority/backend]), and the root a segment resolves to in
    the equivalence structure, which [forEachVisibleSegment3D] hands to its
    callback.  The numbers of the scheduler (visibilities, priorities) are
    taken to be integers, with the two infinities of a visibility apart. *)
Class Collaborators : Type := {
  Bounds : Type;
  ChunkPriorityTier : Type;
  getObjectKey : Uint64 -> option Bounds -> string;
  getPriorityTier : Visibility -> ChunkPriorityTier;
  getBasePriority : Visibility -> Z;
  resolveRoot : list (Uint64 * Uint64) -> Uint64 -> Uint64;
}.

Module Scheduler.

Definition MESH_OBJECT_MANIFEST_CHUNK_PRIORITY : Z := 100.
Definition MESH_OBJECT_FRAGMENT_CHUNK_PRIORITY : Z := 50.

Definition DEBUG : bool := false.

(** The lifecycle states of a chunk ([chunk_manager/base]). *)
Inductive ChunkState : Type :=
| QUEUED
| DOWNLOADING
| SYSTEM_MEMORY_WORKER
| SYSTEM_MEMORY
| GPU_MEMORY
| FAILED
| REQUESTING_CHILDREN.

#[global] Instance ChunkState_eq_dec : EqDecision ChunkState.
Proof. solve_decision. Defined.

(** The three states in which the manifest has been downloaded. *)
Definition loaded (s : ChunkState) : bool :=
  match s with
  | SYSTEM_MEMORY_WORKER | SYSTEM_MEMORY | GPU_MEMORY => true
  | _ => false
  end.

Definition FragmentId : Type := string.

Section layer.
Context `{Collaborators}.

(** A manifest chunk.  Its [key] is the key the source's map holds it
    under ([addChunk] stores a chunk under its own key), so the record does
    not repeat it. *)
Record ManifestChunk : Type := {
  objectId : Uint64;
  clipBounds : option Bounds;
  fragmentIds : option (list FragmentId);
  state : ChunkState;
}.

Definition setState (s : ChunkState) (chunk : ManifestChunk) : ManifestChunk :=
  {| objectId := objectId chunk; clipBounds := clipBounds chunk;
     fragmentIds := fragmentIds chunk; state := s |}.

(** A fragment chunk, as [initializeFragmentChunk] fills it: the key of
    its manifest chunk and its fragment id. *)
Record FragmentChunk : Type := mkFragmentChunk {
  manifestChunk : string;
  fragmentId : FragmentId;
}.

(** A chunk handed to [chunkManager.requestChunk], by its key. *)
Inductive ChunkRef : Type :=
| Manifest (key : string)
| Fragment (key : string).

Record ChunkRequest : Type := {
  chunk : ChunkRef;
  priorityTier : ChunkPriorityTier;
  priority : Z;
}.

(** What the [then] handler of a [getChildren] call has captured: the
    manifest chunk (by its key) and the two clones [segmentID] and
    [rootID] taken when the call was made. *)
Record Query : Type := {
  manifest : string;
  segmentID : Uint64;
  rootID : Uint64;
}.

Record Batch : Type := { add : list Uint64; delete : list Uint64 }.

Record MeshLayer : Type := mkLayer {
  (** [source.chunks]: the manifest chunks by key *)
  chunks : gmap string ManifestChunk;
  (** [source.fragmentSource.chunks] *)
  fragmentChunks : gmap string FragmentChunk;
  (** whether [chunkedGraph] is an object ([true]) or [null] *)
  chunkedGraph : bool;
  (** the root-segment set of the display state *)
  rootSegments : gset Uint64;
  (** the segments shown in 3D *)
  visibleSegments3D : gset Uint64;
  (** the pairs linked so far, oldest first *)
  segmentEquivalences : list (Uint64 * Uint64);
  (** the pending batch, in insertion order *)
  requestedChildChunks : list (string * Batch);
  (** the [getChildren] promises not settled yet, each with what
      its handler captured *)
  outstanding : list Query;
  (** the clock, in milliseconds *)
  now : N;
  (** the debounced flush: the time of the last call while a flush
      is pending *)
  lastCallTime : option N;
  (** how many times [handleChildChunks] has run *)
  flushes : nat;
}.

Definition set_chunks (f : gmap string ManifestChunk -> gmap string ManifestChunk)
    (this : MeshLayer) : MeshLayer :=
  mkLayer
    (f (chunks this)) (fragmentChunks this) (chunkedGraph this)
    (rootSegments this) (visibleSegments3D this) (segmentEquivalences this)
    (requestedChildChunks this) (outstanding this) (now this)
    (lastCallTime this) (flushes this).

Definition set_fragmentChunks (f : gmap string FragmentChunk -> gmap string FragmentChunk)
    (this : MeshLayer) : MeshLayer :=
  mkLayer
    (chunks this) (f (fragmentChunks this)) (chunkedGraph this)
    (rootSegments this) (visibleSegments3D this) (segmentEquivalences this)
    (requestedChildChunks this) (outstanding this) (now this)
    (lastCallTime this) (flushes this).

Definition set_rootSegments (f : gset Uint64 -> gset Uint64)
    (this : MeshLayer) : MeshLayer :=
  mkLayer
    (chunks this) (fragmentChunks this) (chunkedGraph this)
    (f (rootSegments this)) (visibleSegments3D this)
    (segmentEquivalences this) (requestedChildChunks this)
    (outstanding this) (now this) (lastCallTime this) (flushes this).

Definition set_visibleSegments3D (f : gset Uint64 -> gset Uint64)
    (this : MeshLayer) : MeshLayer :=
  mkLayer
    (chunks this) (fragmentChunks this) (chunkedGraph this)
    (rootSegments this) (f (visibleSegments3D this))
    (segmentEquivalences this) (requestedChildChunks this)
    (outstanding this) (now this) (lastCallTime this) (flushes this).

Definition set_segmentEquivalences (f : list (Uint64 * Uint64) -> list (Uint64 * Uint64))
    (this : MeshLayer) : MeshLayer :=
  mkLayer
    (chunks this) (fragmentChunks this) (chunkedGraph this)
    (rootSegments this) (visibleSegments3D this)
    (f (segmentEquivalences this)) (requestedChildChunks this)
    (outstanding this) (now this) (lastCallTime this) (flushes this).

Definition set_requestedChildChunks (f : list (string * Batch) -> list (string * Batch))
    (this : MeshLayer) : MeshLayer :=
  mkLayer
    (chunks this) (fragmentChunks this) (chunkedGraph this)
    (rootSegments this) (visibleSegments3D this) (segmentEquivalences this)
    (f (requestedChildChunks this)) (outstanding this) (now this)
    (lastCallTime this) (flushes this).

Definition set_outstanding (f : list Query -> list Query)
    (this : MeshLayer) : MeshLayer :=
  mkLayer
    (chunks this) (fragmentChunks this) (chunkedGraph this)
    (rootSegments this) (visibleSegments3D this) (segmentEquivalences this)
    (requestedChildChunks this) (f (outstanding this)) (now this)
    (lastCallTime this) (flushes this).

Definition set_now (f : N -> N)
    (this : MeshLayer) : MeshLayer :=
  mkLayer
    (chunks this) (fragmentChunks this) (chunkedGraph this)
    (rootSegments this) (visibleSegments3D this) (segmentEquivalences this)
    (requestedChildChunks this) (outstanding this) (f (now this))
    (lastCallTime this) (flushes this).

Definition set_lastCallTime (f : option N -> option N)
    (this : MeshLayer) : MeshLayer :=
  mkLayer
    (chunks this) (fragmentChunks this) (chunkedGraph this)
    (rootSegments this) (visibleSegments3D this) (segmentEquivalences this)
    (requestedChildChunks this) (outstanding this) (now this)
    (f (lastCallTime this)) (flushes this).

Definition set_flushes (f : nat -> nat)
    (this : MeshLayer) : MeshLayer :=
  mkLayer
    (chunks this) (fragmentChunks this) (chunkedGraph this)
    (rootSegments this) (visibleSegments3D this) (segmentEquivalences this)
    (requestedChildChunks this) (outstanding this) (now this)
    (lastCallTime this) (f (flushes this)).

(** *** The source's chunks *)

(** [source.getChunk(objectId, clipBounds)]: the key and the chunk of the
    key, created (in the first state of the lifecycle) when the source does
    not have it. *)
Definition getChunk (objectId : Uint64) (clipBounds : option Bounds)
    (this : MeshLayer) : string * ManifestChunk * MeshLayer :=
  let key := getObjectKey objectId clipBounds in
  match chunks this !! key with
  | Some chunk => (key, chunk, this)
  | None =>
      let chunk := {| objectId := objectId; clipBounds := clipBounds;
                      fragmentIds := None; state := QUEUED |} in
      (key, chunk, set_chunks (insert key chunk) this)
  end.

(** [`${manifestChunk.key}/${fragmentId}`] *)
Definition fragmentKey (key : string) (fragmentId : FragmentId) : string :=
  key +:+ "/" +:+ fragmentId.

(** [source.getFragmentChunk(manifestChunk, fragmentId)], for its effect on
    the fragment source. *)
Definition getFragmentChunk (key : string) (fragmentId : FragmentId)
    (this : MeshLayer) : MeshLayer :=
  let key' := fragmentKey key fragmentId in
  match fragmentChunks this !! key' with
  | Some _ => this
  | None =>
      set_fragmentChunks (insert key' (mkFragmentChunk key fragmentId)) this
  end.

(** *** The pending batch, a [Map] in insertion order *)

Definition batch_has (k : string) (m : list (string * Batch)) : bool :=
  bool_decide (k ∈ m.*1).

(** [m.set(k, v)]: a new key goes last, a known key keeps its place. *)
Definition batch_set (k : string) (v : Batch) (m : list (string * Batch))
  : list (string * Batch) :=
  if batch_has k m
  then (fun e => if decide (e.1 = k) then (k, v) else e) <$> m
  else m ++ [(k, v)].

(** [f] applied to the object [m.get(k)]. *)
Definition batch_update (k : string) (f : Batch -> Batch)
    (m : list (string * Batch)) : list (string * Batch) :=
  (fun e => if decide (e.1 = k) then (e.1, f e.2) else e) <$> m.

(** *** [updateChunkPriorities] *)

(** How a pass ends: the layer after it, the calls of
    [chunkManager.requestChunk] it made, in order, and the exception that
    ended it early, if any. *)
Record Pass : Type := {
  after : MeshLayer;
  requested : list ChunkRequest;
  thrown : option Exception;
}.

(** The callback given to [forEachVisibleSegment3D], for one segment. *)
Definition visit (priorityTier : ChunkPriorityTier) (basePriority : Z)
    (clipBounds : option Bounds) (objectId rootObjectId : Uint64)
    (this : MeshLayer) : Pass :=
  let '(key, manifestChunk, this) := getChunk objectId clipBounds this in
  let request :=
    {| chunk := Manifest key;
       priorityTier := priorityTier;
       priority := basePriority + MESH_OBJECT_MANIFEST_CHUNK_PRIORITY |} in
  match state manifestChunk with
  | SYSTEM_MEMORY_WORKER | SYSTEM_MEMORY | GPU_MEMORY =>
      match fragmentIds manifestChunk with
      | None =>
          (* iterating [null] *)
          {| after := this; requested := [request]; thrown := Some TypeError |}
      | Some ids =>
          {| after := foldl (fun this fragmentId =>
                               getFragmentChunk key fragmentId this)
                            this ids;
             requested :=
               request ::
               ((fun fragmentId =>
                   {| chunk := Fragment (fragmentKey key fragmentId);
                      priorityTier := priorityTier;
                      priority := basePriority
                                  + MESH_OBJECT_FRAGMENT_CHUNK_PRIORITY |})
                  <$> ids);
             thrown := None |}
      end
  | FAILED =>
      if chunkedGraph this then
        let this :=
          set_chunks (alter (setState REQUESTING_CHILDREN) key) this in
        let segmentID := Uint64.clone objectId in
        let rootID := Uint64.clone rootObjectId in
        {| after := set_outstanding
                      (fun l => l ++ [{| manifest := key;
                                         segmentID := segmentID;
                                         rootID := rootID |}])
                      this;
           requested := [request];
           thrown := None |}
      else {| after := this; requested := [request]; thrown := None |}
  | _ => {| after := this; requested := [request]; thrown := None |}
  end.

(** Modelled from the spec: [forEachVisibleSegment3D] of
    [segmentation_display_state/base], which is not among the sources: the
    callback is called for every currently visible 3D segment, with the
    root the segment resolves to. *)
Definition forEachVisibleSegment3D (this : MeshLayer) : list (Uint64 * Uint64) :=
  (fun objectId => (objectId, resolveRoot (segmentEquivalences this) objectId))
    <$> elements (visibleSegments3D this).

(** The iteration: an exception ends it. *)
Fixpoint visitAll (priorityTier : ChunkPriorityTier) (basePriority : Z)
    (clipBounds : option Bounds) (segments : list (Uint64 * Uint64))
    (this : MeshLayer) : Pass :=
  match segments with
  | [] => {| after := this; requested := []; thrown := None |}
  | (objectId, rootObjectId) :: segments =>
      let p := visit priorityTier basePriority clipBounds objectId rootObjectId
                     this in
      match thrown p with
      | Some e => p
      | None =>
          let p' := visitAll priorityTier basePriority clipBounds segments
                             (after p) in
          {| after := after p';
             requested := requested p ++ requested p';
             thrown := thrown p' |}
      end
  end.

(** [updateChunkPriorities()], with [this.visibility.value] and
    [this.clipBounds.value] as they are when it runs. *)
Definition updateChunkPriorities (visibility : Visibility)
    (clipBounds : option Bounds) (this : MeshLayer) : Pass :=
  if decide (visibility = NEGATIVE_INFINITY) then
    {| after := this; requested := []; thrown := None |}
  else
    let priorityTier := getPriorityTier visibility in
    let basePriority := getBasePriority visibility in
    visitAll priorityTier basePriority clipBounds
             (forEachVisibleSegment3D this) this.

(** *** The answer of [getChildren] and the debounced flush *)

(** The delay of [debounce(..., 100)], in milliseconds. *)
Definition DEBOUNCE_WAIT : N := 100.

(** [this.debouncedHandleChildChunks()]: the flush becomes (or stays)
    pending, counted from now. *)
Definition debouncedHandleChildChunks (this : MeshLayer) : MeshLayer :=
  set_lastCallTime (fun _ => Some (now this)) this.

(** The [then] handler of [getChildren], with what it captured ([DEBUG] is
    [false], and its block only logs). *)
Definition onChildren (q : Query) (children : list Uint64) (this : MeshLayer)
  : MeshLayer :=
  let this := set_chunks (alter (setState FAILED) (manifest q)) this in
  if negb (bool_decide (rootID q ∈ rootSegments this)) then this
  else
    let k := Uint64.toString (rootID q) in
    let this :=
      if negb (batch_has k (requestedChildChunks this))
      then set_requestedChildChunks
             (batch_set k {| add := []; delete := [] |}) this
      else this in
    let this :=
      set_requestedChildChunks
        (batch_update k (fun b => {| add := add b ++ children;
                                     delete := delete b |}))
        this in
    let this :=
      set_requestedChildChunks
        (batch_update k (fun b => {| add := add b;
                                     delete := delete b ++ [segmentID q] |}))
        this in
    debouncedHandleChildChunks this.

(** The body of the loop of [handleChildChunks] for a root that is still
    in the root set. *)
Definition applyBatch (rootTmp : Uint64) (elements : Batch) (this : MeshLayer)
  : MeshLayer :=
  let this :=
    foldl (fun this e =>
             set_segmentEquivalences (fun l => l ++ [(rootTmp, e)])
               (set_visibleSegments3D (fun s => {[e]} ∪ s) this))
          this (add elements) in
  foldl (fun this e => set_visibleSegments3D (fun s => s ∖ {[e]}) this)
        this (delete elements).

(** The loop over the entries of the batch; [Throw] when a key does not
    parse, with the layer as the loop leaves it. *)
Fixpoint handleEntries (entries : list (string * Batch)) (this : MeshLayer)
  : MeshLayer * Completion unit :=
  match entries with
  | [] => (this, Normal tt)
  | (rootId, elements) :: entries =>
      match Uint64.parseString rootId with
      | None => (this, Throw (Error "Failed to parse string as uint64 value"))
      | Some rootTmp =>
          if negb (bool_decide (rootTmp ∈ rootSegments this))
          then handleEntries entries this
          else handleEntries entries (applyBatch rootTmp elements this)
      end
  end.

(** [handleChildChunks()]: the batch is cleared when the loop is over. *)
Definition handleChildChunks (this : MeshLayer) : MeshLayer :=
  let this := set_flushes S this in
  match handleEntries (requestedChildChunks this) this with
  | (this, Normal _) => set_requestedChildChunks (fun _ => []) this
  | (this, Throw _) => this
  end.

(** The timer of the debounced function expires: the flush runs when the
    delay has passed since the last call, and the timer is set again
    otherwise. *)
Definition timerExpired (this : MeshLayer) : MeshLayer :=
  match lastCallTime this with
  | Some t =>
      if (t + DEBOUNCE_WAIT <=? now this)%N
      then handleChildChunks (set_lastCallTime (fun _ => None) this)
      else this
  | None => this
  end.

(** *** The layer in its environment *)

(** What happens to a layer, one event at a time: a priority pass; the
    answer to (or failure of) the [i]-th outstanding [getChildren] call;
    time passing; the debounce timer expiring; the chunk manager moving a
    manifest chunk along its lifecycle; the display layer changing the
    root set or the visible set. *)
Inductive Event : Type :=
| Recompute (visibility : Visibility) (clipBounds : option Bounds)
| Children (i : nat) (children : list Uint64)
| ChildrenFailed (i : nat)
| Elapse (dt : N)
| TimerExpired
| ChunkMoved (key : string) (s : ChunkState) (fragmentIds : option (list FragmentId))
| RootsChanged (roots : gset Uint64)
| VisibleChanged (visible : gset Uint64).

(** Modelled from the spec: the chunk manager, which is not among the
    sources, moves a chunk between the states of its lifecycle and stores
    the fragment ids of a manifest, which are absent until a download has
    succeeded and present in the loaded states; it neither puts a chunk into
    [REQUESTING_CHILDREN] nor takes it out of it, which only the mesh layer
    does, and the chunk stays in the source meanwhile. *)
Definition chunkMoved (k : string) (s : ChunkState)
    (ids : option (list FragmentId)) (this : MeshLayer) : MeshLayer :=
  match chunks this !! k with
  | Some c =>
      if decide (state c = REQUESTING_CHILDREN) then this
      else if decide (s = REQUESTING_CHILDREN) then this
      else if loaded s && bool_decide (ids = None) then this
      else set_chunks
             (insert k {| objectId := objectId c; clipBounds := clipBounds c;
                          fragmentIds := ids; state := s |})
             this
  | None => this
  end.

Definition exec (e : Event) (this : MeshLayer) : MeshLayer :=
  match e with
  | Recompute visibility clipBounds =>
      after (updateChunkPriorities visibility clipBounds this)
  | Children i children =>
      match outstanding this !! i with
      | Some q => onChildren q children (set_outstanding (base.delete i) this)
      | None => this
      end
  | ChildrenFailed i => set_outstanding (base.delete i) this
  | Elapse dt => set_now (fun t => (t + dt)%N) this
  | TimerExpired => timerExpired this
  | ChunkMoved k s ids => chunkMoved k s ids this
  | RootsChanged roots => set_rootSegments (fun _ => roots) this
  | VisibleChanged visible => set_visibleSegments3D (fun _ => visible) this
  end.

Definition run (events : list Event) (this : MeshLayer) : MeshLayer :=
  foldl (fun this e => exec e this) this events.

(** A layer as its constructor leaves it. *)
Definition create (chunkedGraph : bool) (roots visible : gset Uint64) : MeshLayer :=
  mkLayer ∅ ∅ chunkedGraph roots visible [] [] [] 0%N None 0.

End layer.

End Scheduler.

(** ** [mesh/backend.ts]: fragment chunks *)

Module MeshChunk.

Local Open Scope N_scope.

(** The number a 32-bit word stands for in a [Float32Array] (IEEE 754
    binary32): sign, eight bits of exponent, 23 bits of fraction. *)
Definition float32_of_bits (w : N) : float :=
  let sign := N.testbit w 31 in
  let exponent := (w / 2 ^ 23) mod 2 ^ 8 in
  let fraction := w mod 2 ^ 23 in
  let magnitude :=
    if exponent =? 255 then (if fraction =? 0 then infinity else nan)
    else if exponent =? 0 then
      Z.ldexp (of_uint63 (Uint63.of_Z (Z.of_N fraction))) (-149)
    else
      Z.ldexp (of_uint63 (Uint63.of_Z (Z.of_N (fraction + 2 ^ 23))))
              (Z.of_N exponent - 150) in
  if sign then (- magnitude)%float else magnitude.

(** The elements seen through a [Uint32Array] and through a
    [Float32Array] view: the words of the window in the host's byte
    order. *)
Definition Uint32Array_elements `{Host} (data : list byte) (v : TypedArray.view)
  : list N :=
  TypedArray.words ENDIANNESS (TypedArray.contents data v).

Definition Float32Array_elements `{Host} (data : list byte) (v : TypedArray.view)
  : list float :=
  float32_of_bits <$> Uint32Array_elements data v.

(** What [decodeTriangleVertexPositionsAndIndices] assigns to the chunk:
    the two views of [data] and the array of normals, which is a new
    array. *)
Record Triangles : Type := {
  geometry : Mesh.Geometry;
  normals : list float;
}.

Definition decodeTriangleVertexPositionsAndIndices `{Host}
    (data : list byte) (endianness : Endianness)
    (vertexByteOffset numVertices : N)
    (indexByteOffset numTriangles : option N)
  : list byte * Completion Triangles :=
  match Mesh.decodeVertexPositionsAndIndices 3 data endianness vertexByteOffset
          numVertices indexByteOffset numTriangles with
  | (data, Throw e) => (data, Throw e)
  | (data, Normal g) =>
      (data,
       Normal {| geometry := g;
                 normals :=
                   Mesh.computeVertexNormals
                     (Float32Array_elements data (Mesh.vertexPositions g))
                     (Uint32Array_elements data (Mesh.indices g)) |})
  end.

(** A typed array held by a chunk: the buffer it is a view of (buffers are
    told apart by a number) and its length in bytes. *)
Record ArrayRef : Type := { buffer : nat; byteLength : N }.

(** The fields of a [FragmentChunk] that its own methods read and write;
    [manifestChunk] is the manifest chunk by its key. *)
Record FragmentChunk : Type := mkFragmentChunk {
  manifestChunk : option string;
  fragmentId : option string;
  vertexPositions : option ArrayRef;
  indices : option ArrayRef;
  vertexNormals : option ArrayRef;
  systemMemoryBytes : N;
  gpuMemoryBytes : N;
}.

(** A chunk as the constructor leaves it. *)
Definition create : FragmentChunk :=
  mkFragmentChunk None None None None None 0 0.

Definition initializeFragmentChunk (manifestChunk : string) (fragmentId : string)
    (this : FragmentChunk) : FragmentChunk :=
  mkFragmentChunk (Some manifestChunk) (Some fragmentId)
    (vertexPositions this) (indices this) (vertexNormals this)
    (systemMemoryBytes this) (gpuMemoryBytes this).

Definition freeSystemMemory (this : FragmentChunk) : FragmentChunk :=
  mkFragmentChunk None None None None None
    (systemMemoryBytes this) (gpuMemoryBytes this).

(** The chunk once the decoder has assigned its three arrays: the views of
    the response, whose buffer is [response], and the normals, whose buffer
    is [own]. *)
Definition assign (response own : nat) (t : Triangles) (this : FragmentChunk)
  : FragmentChunk :=
  mkFragmentChunk (manifestChunk this) (fragmentId this)
    (Some {| buffer := response;
             byteLength := TypedArray.byteLength (Mesh.vertexPositions (geometry t)) |})
    (Some {| buffer := response;
             byteLength := TypedArray.byteLength (Mesh.indices (geometry t)) |})
    (Some {| buffer := own; byteLength := 4 * N.of_nat (length (normals t)) |})
    (systemMemoryBytes this) (gpuMemoryBytes this).

(** A value assigned to a property of the message. *)
Inductive MessageValue : Type :=
| MKey (key : string)
| MArray (array : option ArrayRef).

(** How [serialize(msg, transfers)] leaves its two arguments and the chunk,
    and the exception that ended it, if any.  [msg] is the list of the
    assignments made to it, [transfers] the list of the buffers pushed. *)
Record Serialized : Type := {
  msg : list (string * MessageValue);
  transfers : list nat;
  after : FragmentChunk;
  thrown : option Exception;
}.

(** [serialize], from the call of the superclass on. *)
Definition serialize (msg : list (string * MessageValue)) (transfers : list nat)
    (this : FragmentChunk) : Serialized :=
  match manifestChunk this with
  | None => {| msg := msg; transfers := transfers; after := this;
               thrown := Some TypeError |}
  | Some key =>
      let msg :=
        msg ++ [("objectKey", MKey key);
                ("vertexPositions", MArray (vertexPositions this));
                ("indices", MArray (indices this));
                ("vertexNormals", MArray (vertexNormals this))] in
      match vertexPositions this with
      | None => {| msg := msg; transfers := transfers; after := this;
                   thrown := Some TypeError |}
      | Some vertexPositions =>
          let vertexPositionsBuffer := buffer vertexPositions in
          let transfers := transfers ++ [vertexPositionsBuffer] in
          match indices this with
          | None => {| msg := msg; transfers := transfers; after := this;
                       thrown := Some TypeError |}
          | Some indices =>
              let indicesBuffer := buffer indices in
              let transfers :=
                if decide (indicesBuffer <> vertexPositionsBuffer)
                then transfers ++ [indicesBuffer] else transfers in
              match vertexNormals this with
              | None => {| msg := msg; transfers := transfers; after := this;
                           thrown := Some TypeError |}
              | Some vertexNormals =>
                  let vertexNormalsBuffer := buffer vertexNormals in
                  let transfers :=
                    if decide (vertexNormalsBuffer <> vertexPositionsBuffer
                               /\ vertexNormalsBuffer <> indicesBuffer)
                    then transfers ++ [vertexNormalsBuffer] else transfers in
                  {| msg := msg; transfers := transfers;
                     after := mkFragmentChunk
                                (manifestChunk this) (fragmentId this)
                                None None None
                                (systemMemoryBytes this) (gpuMemoryBytes this);
                     thrown := None |}
              end
          end
      end
  end.

(** [downloadSucceeded], up to the call of the superclass. *)
Definition downloadSucceeded (this : FragmentChunk) : Completion FragmentChunk :=
  match vertexPositions this, indices this, vertexNormals this with
  | Some vertexPositions, Some indices, Some vertexNormals =>
      let bytes := byteLength vertexPositions + byteLength indices
                   + byteLength vertexNormals in
      Normal (mkFragmentChunk (manifestChunk this) (fragmentId this)
                (Some vertexPositions) (Some indices) (Some vertexNormals)
                bytes bytes)
  | _, _, _ => Throw TypeError
  end.

End MeshChunk.

(** ** [datasource/precomputed/backend.ts]: meshes *)

Module PrecomputedMesh.

(** [decodeFragmentChunk(chunk, response)]: the number of vertices is the
    first word of the response, little-endian; the vertex positions follow
    it, and the indices go on to the end. *)
Definition decodeFragmentChunk `{Host} (response : list byte)
  : list byte * Completion MeshChunk.Triangles :=
  match TypedArray.getUint32 response 0 true with
  | None => (response, Throw RangeError)
  | Some numVertices =>
      MeshChunk.decodeTriangleVertexPositionsAndIndices response LITTLE 4
        numVertices None None
  end.

End PrecomputedMesh.

(** ** [datasource/precomputed/backend.ts]: the requests of the sources *)

Module PrecomputedRequests.

(** [PrecomputedVolumeChunkSource.download]: the request of a volume chunk
    at [chunkPosition], the result of [computeChunkBounds(chunk)]. *)
Definition volumeChunk (parameters : Precomputed.Parameters)
    (chunkPosition chunkDataSize : Z * Z * Z) : Precomputed.ShardedRequest :=
  {| Precomputed.baseUrls := Precomputed.parameters_baseUrls parameters;
     Precomputed.path :=
       Precomputed.parameters_path parameters +:+ "/"
       +:+ Precomputed.boundsString chunkPosition chunkDataSize;
     Precomputed.responseType := "arraybuffer" |}.

(** [PrecomputedMeshSource.download]: the request of the manifest of an
    object at the level of detail [lod] of the source's parameters. *)
Definition manifest (parameters : Precomputed.Parameters) (lod : N)
    (objectId : Uint64) : Precomputed.ShardedRequest :=
  {| Precomputed.baseUrls := Precomputed.parameters_baseUrls parameters;
     Precomputed.path :=
       Precomputed.parameters_path parameters +:+ "/"
       +:+ Uint64.toString objectId +:+ ":" +:+ decimal lod;
     Precomputed.responseType := "json" |}.



End PrecomputedRequests.

(* ===================================================================== *)
(** * Part II: theorems                                                   *)
(* ===================================================================== *)

(** ** Graph operations without a graph server *)

(** The layer of a dataset that names no graph server. *)
Definition no_server : ChunkedGraph.ChunkedGraphLayer :=
  {| ChunkedGraph.graphurl := "" |}.

(** C4: with the url equal to the empty string, [getRoot] returns a promise
    already resolved to the selection's own segment id, whatever the
    selection, and issues no request. *)
Theorem getRoot_no_server_identity `{Host}
    (this : ChunkedGraph.ChunkedGraphLayer)
    (selection : ChunkedGraph.SegmentSelection) :
  ChunkedGraph.url this = "" ->
  ChunkedGraph.getRoot this selection
    = Settled (Fulfilled (ChunkedGraph.segmentId selection))
  /\ requests_issued (ChunkedGraph.getRoot this selection) = [].
Proof.
  intros Hurl. unfold ChunkedGraph.getRoot.
  destruct (decide (ChunkedGraph.url this = "")) as [_|Hne]; [|contradiction].
  split; reflexivity.
Qed.

Lemma getRoot_no_server_identity_witness :
  let selection := {| ChunkedGraph.segmentId := 42%N;
                      ChunkedGraph.rootId := 7%N;
                      ChunkedGraph.position := [1%float; 2%float; 3%float] |} in
  ChunkedGraph.getRoot (H := {| ENDIANNESS := LITTLE |}) no_server selection
    = Settled (Fulfilled 42%N)
  /\ requests_issued
       (ChunkedGraph.getRoot (H := {| ENDIANNESS := LITTLE |}) no_server selection)
     = [].
Proof.
  intros selection.
  apply (getRoot_no_server_identity (H := {| ENDIANNESS := LITTLE |})
           no_server selection).
  reflexivity.
Defined.

(** C5: with the url equal to the empty string, [mergeSegments] and
    [splitSegments] return a promise already rejected with
    [GRAPH_SERVER_NOT_SPECIFIED], whatever their arguments, and issue no
    request. *)
Theorem merge_split_no_server_reject `{Host}
    (this : ChunkedGraph.ChunkedGraphLayer) :
  ChunkedGraph.url this = "" ->
  (forall first second,
      ChunkedGraph.mergeSegments this first second
        = Settled (Rejected GRAPH_SERVER_NOT_SPECIFIED)
      /\ requests_issued (ChunkedGraph.mergeSegments this first second) = [])
  /\ (forall sources sinks,
      ChunkedGraph.splitSegments this sources sinks
        = Settled (Rejected GRAPH_SERVER_NOT_SPECIFIED)
      /\ requests_issued (ChunkedGraph.splitSegments this sources sinks) = []).
Proof.
  intros Hurl.
  unfold ChunkedGraph.mergeSegments, ChunkedGraph.splitSegments.
  destruct (decide (ChunkedGraph.url this = "")) as [_|Hne]; [|contradiction].
  split; intros; split; reflexivity.
Qed.

Lemma merge_split_no_server_reject_witness :
  (forall first second,
      ChunkedGraph.mergeSegments (H := {| ENDIANNESS := LITTLE |})
          no_server first second
        = Settled (Rejected GRAPH_SERVER_NOT_SPECIFIED)
      /\ requests_issued
           (ChunkedGraph.mergeSegments (H := {| ENDIANNESS := LITTLE |})
              no_server first second) = [])
  /\ (forall sources sinks,
      ChunkedGraph.splitSegments (H := {| ENDIANNESS := LITTLE |})
          no_server sources sinks
        = Settled (Rejected GRAPH_SERVER_NOT_SPECIFIED)
      /\ requests_issued
           (ChunkedGraph.splitSegments (H := {| ENDIANNESS := LITTLE |})
              no_server sources sinks) = []).
Proof.
  apply (merge_split_no_server_reject (H := {| ENDIANNESS := LITTLE |}) no_server).
  reflexivity.
Defined.


(** ** Geometry decoding *)

(** C7: whenever the two views can be made and the number of indices is not
    a multiple of [verticesPerPrimitive], [decodeVertexPositionsAndIndices]
    throws its [Error] (it neither assigns the chunk nor ends otherwise). *)
Theorem decode_indices_not_multiple `{Host}
    (verticesPerPrimitive : N) (data : list byte) (endianness : Endianness)
    (vertexByteOffset numVertices : N) (indexByteOffset numPrimitives : option N)
    (vertexPositions indices : TypedArray.view) :
  TypedArray.create 4 data vertexByteOffset (Some (numVertices * 3)%N)
    = Some vertexPositions ->
  TypedArray.create 4
      (Endian.convertEndian32 vertexPositions endianness data)
      (default (vertexByteOffset + 12 * numVertices)%N indexByteOffset)
      ((fun n => n * verticesPerPrimitive)%N <$> numPrimitives)
    = Some indices ->
  ~ (verticesPerPrimitive | TypedArray.length32 indices)%N ->
  (Mesh.decodeVertexPositionsAndIndices verticesPerPrimitive data endianness
     vertexByteOffset numVertices indexByteOffset numPrimitives).2
  = Throw (Error ("Number of indices is not a multiple of "
                  +:+ decimal verticesPerPrimitive +:+ ": "
                  +:+ decimal (TypedArray.length32 indices) +:+ ".")).
Proof.
  intros Hpos Hidx Hmul. unfold Mesh.decodeVertexPositionsAndIndices.
  rewrite Hpos.
  replace (match indexByteOffset with
           | Some o => o
           | None => (vertexByteOffset + 12 * numVertices)%N
           end)
    with (default (vertexByteOffset + 12 * numVertices)%N indexByteOffset)
    by (destruct indexByteOffset; reflexivity).
  replace (match numPrimitives with
           | Some n => Some (n * verticesPerPrimitive)%N
           | None => None
           end)
    with ((fun n => n * verticesPerPrimitive)%N <$> numPrimitives)
    by (destruct numPrimitives; reflexivity).
  rewrite Hidx.
  destruct (N.eqb_spec verticesPerPrimitive 0) as [->|Hnz]; [reflexivity|].
  destruct (N.eqb_spec (TypedArray.length32 indices mod verticesPerPrimitive) 0)
    as [Hz|Hnz']; [|reflexivity].
  exfalso. apply Hmul. apply N.Lcm0.mod_divide. exact Hz.
Qed.

(** The example of the claim: ten indices for triangles. *)
Lemma decode_indices_not_multiple_witness :
  (Mesh.decodeVertexPositionsAndIndices (H := {| ENDIANNESS := LITTLE |})
     3 (replicate 44 x00) LITTLE 4 0 None None).2
  = Throw (Error "Number of indices is not a multiple of 3: 10.").
Proof.
  apply (decode_indices_not_multiple (H := {| ENDIANNESS := LITTLE |})
           3 (replicate 44 x00) LITTLE 4 0 None None
           (TypedArray.mkView 4 0) (TypedArray.mkView 4 40)).
  - reflexivity.
  - reflexivity.
  - intros [k Hk]. change (TypedArray.length32 _) with 10%N in Hk. lia.
Defined.

(** ** [Promise.all] and the chunked-graph download *)

Section promise_all.
Context {A : Type}.
Implicit Types (l : list (option (Outcome A))) (s : PromiseAll.state A).





Lemma values_replicate_None n :
  PromiseAll.values (replicate (S n) (@None (Outcome A))) = None.
Proof. reflexivity. Qed.





End promise_all.

Section download.
Variable decodeSupervoxelArray : list byte -> Completion (list Uint64).
Implicit Types (d : Precomputed.Download).

Abbreviation answer := (Precomputed.answer decodeSupervoxelArray).
Abbreviation after := (Precomputed.after decodeSupervoxelArray).

Lemma settle_length {A} i (o : Outcome A) s :
  length (PromiseAll.elements (PromiseAll.settle i o s))
  = length (PromiseAll.elements s).
Proof.
  unfold PromiseAll.settle.
  destruct (PromiseAll.elements s !! i) as [[x|]|]; simpl; try reflexivity.
  apply length_insert.
Qed.


Lemma answer_length i a d :
  length (PromiseAll.elements (Precomputed.all (answer i a d)))
  = length (PromiseAll.elements (Precomputed.all d)).
Proof.
  unfold Precomputed.answer.
  destruct (PromiseAll.elements (Precomputed.all d) !! i) as [[x|]|];
    try reflexivity.
  destruct (Precomputed.keys d !! i); [|reflexivity].
  simpl. apply settle_length.
Qed.


Lemma download_requests_spec parameters chunkPosition chunk :
  Precomputed.download_requests parameters chunkPosition chunk
  = (fun kv =>
       (kv.1,
        {| Precomputed.baseUrls := Precomputed.parameters_baseUrls parameters;
           Precomputed.path :=
             Precomputed.parameters_path parameters +:+ "/" +:+ kv.1
             +:+ "/leaves?bounds="
             +:+ Precomputed.boundsString chunkPosition
                   (Precomputed.chunkDataSize chunk);
           Precomputed.responseType := "arraybuffer" |}))
    <$> filter (fun kv => kv.2 = None) (Precomputed.mappings chunk).
Proof.
  unfold Precomputed.download_requests.
  induction (Precomputed.mappings chunk) as [|[k [v|]] l IH].
  - reflexivity.
  - rewrite filter_cons_False by (simpl; discriminate). simpl. exact IH.
  - rewrite filter_cons_True by reflexivity. simpl. f_equal. exact IH.
Qed.


End download.

(** ** The mesh layer: the batch of child segments *)

Lemma parseString_toString (x : Uint64) :
  Uint64.parseString (Uint64.toString x) = Some x.
Proof.
  unfold Uint64.parseString, Uint64.toString.
  rewrite NilZero.usu.
  - simpl. f_equal. apply DecimalN.Unsigned.of_to.
  - destruct x as [|p]; [discriminate|].
    apply DecimalPos.Unsigned.to_uint_nonnil.
Qed.

Lemma toString_inj (x y : Uint64) :
  Uint64.toString x = Uint64.toString y -> x = y.
Proof.
  intros Heq. apply (f_equal Uint64.parseString) in Heq.
  rewrite !parseString_toString in Heq. congruence.
Qed.

Lemma foldl_add_set (l : list Uint64) (V : gset Uint64) :
  foldl (fun s e => {[e]} ∪ s) V l = list_to_set l ∪ V.
Proof.
  revert V. induction l as [|e l IH]; intros V; simpl.
  - set_solver.
  - rewrite IH. set_solver.
Qed.

Lemma foldl_delete_set (l : list Uint64) (V : gset Uint64) :
  foldl (fun s e => s ∖ {[e]}) V l = V ∖ list_to_set l.
Proof.
  revert V. induction l as [|e l IH]; intros V; simpl.
  - set_solver.
  - rewrite IH. set_solver.
Qed.

Section scheduler.
Context `{Collaborators}.
Implicit Types (this : Scheduler.MeshLayer) (b : Scheduler.Batch).

(** The visible set and the links after the batch of one root has been
    applied. *)
Definition visible_after b (V : gset Uint64) : gset Uint64 :=
  (list_to_set (Scheduler.add b) ∪ V) ∖ list_to_set (Scheduler.delete b).

Definition links_after (root : Uint64) b (E : list (Uint64 * Uint64))
  : list (Uint64 * Uint64) :=
  E ++ (pair root <$> Scheduler.add b).

(** [applyBatch] changes the visible set and the links, and nothing else. *)
Lemma applyBatch_spec root b this :
  Scheduler.applyBatch root b this
  = Scheduler.mkLayer
      (Scheduler.chunks this) (Scheduler.fragmentChunks this)
      (Scheduler.chunkedGraph this) (Scheduler.rootSegments this)
      (visible_after b (Scheduler.visibleSegments3D this))
      (links_after root b (Scheduler.segmentEquivalences this))
      (Scheduler.requestedChildChunks this) (Scheduler.outstanding this)
      (Scheduler.now this) (Scheduler.lastCallTime this)
      (Scheduler.flushes this).
Proof.
  unfold Scheduler.applyBatch, visible_after, links_after.
  destruct b as [adds dels]. destruct this as [c f g r V E q o n t k]. simpl.
  assert (Hadd : forall V E,
    foldl (fun this e =>
             Scheduler.set_segmentEquivalences (fun l => l ++ [(root, e)])
               (Scheduler.set_visibleSegments3D (fun s => {[e]} ∪ s) this))
          (Scheduler.mkLayer c f g r V E q o n t k) adds
    = Scheduler.mkLayer c f g r (list_to_set adds ∪ V)
        (E ++ (pair root <$> adds)) q o n t k).
  { induction adds as [|e adds IH]; intros V' E'; simpl.
    - rewrite app_nil_r. f_equal. set_solver.
    - unfold Scheduler.set_segmentEquivalences, Scheduler.set_visibleSegments3D.
      simpl. rewrite IH. rewrite <- app_assoc. simpl. f_equal. set_solver. }
  rewrite Hadd. generalize (list_to_set adds ∪ V) as V'.
  generalize (E ++ (pair root <$> adds)) as E'.
  induction dels as [|e dels IH]; intros E' V'; simpl.
  - f_equal. set_solver.
  - unfold Scheduler.set_visibleSegments3D at 2. simpl. rewrite IH.
    f_equal. set_solver.
Qed.

(** The fields of the layer that the flush neither reads nor writes, apart
    from the batch itself. *)
Definition display this : gset Uint64 * gset Uint64 * list (Uint64 * Uint64) :=
  (Scheduler.rootSegments this, Scheduler.visibleSegments3D this,
   Scheduler.segmentEquivalences this).

Lemma handleEntries_rootSegments entries this :
  Scheduler.rootSegments (Scheduler.handleEntries entries this).1
  = Scheduler.rootSegments this.
Proof.
  revert this. induction entries as [|[k b] entries IH]; intros this; simpl.
  - reflexivity.
  - destruct (Uint64.parseString k) as [root|]; [|reflexivity].
    destruct (bool_decide (root ∈ Scheduler.rootSegments this)); simpl.
    + rewrite IH, applyBatch_spec. reflexivity.
    + apply IH.
Qed.

(** The loop reads the layer only through the root set, the visible set
    and the links. *)
Lemma handleEntries_display entries this this' :
  display this = display this' ->
  display (Scheduler.handleEntries entries this).1
  = display (Scheduler.handleEntries entries this').1
  /\ (Scheduler.handleEntries entries this).2
     = (Scheduler.handleEntries entries this').2.
Proof.
  revert this this'. induction entries as [|[k b] entries IH];
    intros this this' Hd; simpl.
  - split; [exact Hd | reflexivity].
  - destruct (Uint64.parseString k) as [root|]; [|split; [exact Hd|reflexivity]].
    assert (HR : Scheduler.rootSegments this = Scheduler.rootSegments this')
      by (unfold display in Hd; congruence).
    rewrite HR.
    destruct (bool_decide (root ∈ Scheduler.rootSegments this')); simpl.
    + apply IH. rewrite !applyBatch_spec. unfold display in *. simpl.
      congruence.
    + apply IH, Hd.
Qed.

(** An entry whose root is not in the root set is passed over. *)
Lemma handleEntries_skip root entries this :
  root ∉ Scheduler.rootSegments this ->
  Scheduler.handleEntries entries this
  = Scheduler.handleEntries
      (filter (fun e => e.1 <> Uint64.toString root) entries) this.
Proof.
  revert this. induction entries as [|[k b] entries IH]; intros this Hroot.
  - reflexivity.
  - destruct (decide (k = Uint64.toString root)) as [->|Hne].
    + rewrite filter_cons_False by (simpl; intros Hk; apply Hk; reflexivity).
      simpl. rewrite parseString_toString.
      rewrite bool_decide_eq_false_2 by exact Hroot. simpl.
      apply IH, Hroot.
    + rewrite filter_cons_True by exact Hne.
      simpl. destruct (Uint64.parseString k) as [root'|]; [|reflexivity].
      destruct (bool_decide (root' ∈ Scheduler.rootSegments this)); simpl.
      * apply IH. rewrite applyBatch_spec. exact Hroot.
      * apply IH, Hroot.
Qed.

End scheduler.

Section root_recheck.
Context `{Collaborators}.
Implicit Types (this : Scheduler.MeshLayer) (b : Scheduler.Batch).

Lemma handleChildChunks_display this :
  display (Scheduler.handleChildChunks this)
  = display (Scheduler.handleEntries (Scheduler.requestedChildChunks this)
               this).1.
Proof.
  unfold Scheduler.handleChildChunks.
  destruct (handleEntries_display (Scheduler.requestedChildChunks this)
              (Scheduler.set_flushes S this) this eq_refl) as [Hd Hc].
  simpl. rewrite <- Hd.
  destruct (Scheduler.handleEntries (Scheduler.requestedChildChunks this)
              (Scheduler.set_flushes S this)) as [this' [[]|e]];
    reflexivity.
Qed.

(** C2: a root that is not in the root set when the answer of
    [getChildren] arrives gets nothing accumulated and no flush scheduled;
    a root that is not in the root set when the flush runs has its entry of
    the batch passed over: the flush leaves the visible set and the links as
    it would without that entry, and unchanged when the batch holds no
    other root. *)
Theorem removed_root_not_applied this (root : Uint64) :
  root ∉ Scheduler.rootSegments this ->
  (forall q children,
      Scheduler.rootID q = root ->
      let this' := Scheduler.onChildren q children this in
      Scheduler.visibleSegments3D this' = Scheduler.visibleSegments3D this
      /\ Scheduler.segmentEquivalences this' = Scheduler.segmentEquivalences this
      /\ Scheduler.requestedChildChunks this' = Scheduler.requestedChildChunks this
      /\ Scheduler.lastCallTime this' = Scheduler.lastCallTime this)
  /\ (let others :=
        filter (fun e => e.1 <> Uint64.toString root)
               (Scheduler.requestedChildChunks this) in
      let flushed := Scheduler.handleChildChunks this in
      let without :=
        Scheduler.handleChildChunks
          (Scheduler.set_requestedChildChunks (fun _ => others) this) in
      Scheduler.visibleSegments3D flushed = Scheduler.visibleSegments3D without
      /\ Scheduler.segmentEquivalences flushed
         = Scheduler.segmentEquivalences without
      /\ (others = [] ->
          Scheduler.visibleSegments3D flushed = Scheduler.visibleSegments3D this
          /\ Scheduler.segmentEquivalences flushed
             = Scheduler.segmentEquivalences this)).
Proof.
  intros Hroot. split.
  - intros q children <-. unfold Scheduler.onChildren. simpl.
    rewrite bool_decide_eq_false_2 by exact Hroot. simpl. done.
  - intros others flushed without.
    assert (Hd : display flushed = display without).
    { unfold flushed, without. rewrite !handleChildChunks_display. simpl.
      rewrite (handleEntries_skip root _ this Hroot). fold others.
      apply handleEntries_display. reflexivity. }
    assert (Hd' : others = [] -> display flushed = display this).
    { intros Hnil. unfold flushed. rewrite handleChildChunks_display.
      rewrite (handleEntries_skip root _ this Hroot). fold others.
      rewrite Hnil. reflexivity. }
    unfold display in Hd, Hd'.
    split; [congruence|]. split; [congruence|].
    intros Hnil. specialize (Hd' Hnil). split; congruence.
Qed.

End root_recheck.

(** The collaborators of the examples: no clip bounds, a key that is the
    decimal id, every segment its own root, the visibility as base
    priority. *)
Definition example_collaborators : Collaborators := {|
  Bounds := unit;
  ChunkPriorityTier := bool;
  getObjectKey := fun objectId _ => Uint64.toString objectId;
  getPriorityTier := fun v => bool_decide (v = POSITIVE_INFINITY);
  getBasePriority := fun v => match v with finite z => z | _ => 0%Z end;
  resolveRoot := fun _ objectId => objectId;
|}.

(** A layer in which segment 5 awaits its children under the root 5, which
    has left the root set. *)
Definition example_removed_root : Scheduler.MeshLayer (H := example_collaborators) :=
  Scheduler.mkLayer (H := example_collaborators)
    ∅ ∅ true ∅ {[5%N]} []
    [("5", {| Scheduler.add := [6%N; 7%N]; Scheduler.delete := [5%N] |})]
    [] 0%N None 0.

Lemma removed_root_not_applied_witness :
  (forall q children,
      Scheduler.rootID q = 5%N ->
      let this' := Scheduler.onChildren q children example_removed_root in
      Scheduler.visibleSegments3D this' = {[5%N]}
      /\ Scheduler.segmentEquivalences this' = []
      /\ Scheduler.requestedChildChunks this'
         = Scheduler.requestedChildChunks example_removed_root
      /\ Scheduler.lastCallTime this' = None)
  /\ Scheduler.visibleSegments3D (Scheduler.handleChildChunks example_removed_root)
     = {[5%N]}
  /\ Scheduler.segmentEquivalences (Scheduler.handleChildChunks example_removed_root)
     = [].
Proof.
  destruct (removed_root_not_applied (H := example_collaborators)
              example_removed_root 5%N) as [Hresponse Hflush].
  - vm_compute. discriminate.
  - split; [exact Hresponse|].
    destruct Hflush as (_ & _ & Hnone).
    destruct Hnone as [Hv He]; [reflexivity|].
    split; [exact Hv | exact He].
Defined.

(** ** The mesh layer: answers within one debounce window *)

Section debounce.
Context `{Collaborators}.
Implicit Types (this : Scheduler.MeshLayer) (b : Scheduler.Batch).

(** An answer of [getChildren] arrives (its handler runs with what it
    captured), [dt] milliseconds pass, and the debounce timer is checked. *)
Definition arrive this (r : Scheduler.Query * list Uint64 * N)
  : Scheduler.MeshLayer :=
  Scheduler.timerExpired
    (Scheduler.set_now (fun t => (t + r.2)%N)
       (Scheduler.onChildren r.1.1 r.1.2 this)).

(** The entry that the answers of a list add up to. *)
Definition coalesced (b : Scheduler.Batch)
    (responses : list (Scheduler.Query * list Uint64 * N)) : Scheduler.Batch :=
  {| Scheduler.add :=
       Scheduler.add b ++ concat ((fun r => r.1.2) <$> responses);
     Scheduler.delete :=
       Scheduler.delete b ++ ((fun r => Scheduler.segmentID r.1.1) <$> responses) |}.

(** The layer is waiting for the flush of the one entry [(k, b)]. *)
Record waiting (k : string) b this0 this : Prop := {
  w_batch : Scheduler.requestedChildChunks this = [(k, b)];
  w_flushes : Scheduler.flushes this = Scheduler.flushes this0;
  w_display : display this = display this0;
  w_timer : exists t, Scheduler.lastCallTime this = Some t
                      /\ (t <= Scheduler.now this < t + Scheduler.DEBOUNCE_WAIT)%N;
}.

Lemma batch_has_nil k : Scheduler.batch_has k [] = false.
Proof. reflexivity. Qed.

Lemma batch_set_nil k b : Scheduler.batch_set k b [] = [(k, b)].
Proof. reflexivity. Qed.

Lemma batch_has_single k b : Scheduler.batch_has k [(k, b)] = true.
Proof. apply bool_decide_eq_true_2. simpl. set_solver. Qed.

Lemma batch_update_single k f b :
  Scheduler.batch_update k f [(k, b)] = [(k, f b)].
Proof.
  unfold Scheduler.batch_update. simpl. rewrite decide_True by reflexivity.
  reflexivity.
Qed.

Lemma timer_not_due this t :
  Scheduler.lastCallTime this = Some t ->
  (Scheduler.now this < t + Scheduler.DEBOUNCE_WAIT)%N ->
  Scheduler.timerExpired this = this.
Proof.
  intros Ht Hlt. unfold Scheduler.timerExpired. rewrite Ht.
  destruct (N.leb_spec (t + Scheduler.DEBOUNCE_WAIT) (Scheduler.now this));
    [lia | reflexivity].
Qed.

(** The handler for a root that is in the root set, in one step. *)
Lemma onChildren_present q children this :
  Scheduler.rootID q ∈ Scheduler.rootSegments this ->
  Scheduler.onChildren q children this
  = Scheduler.set_lastCallTime (fun _ => Some (Scheduler.now this))
      (Scheduler.set_requestedChildChunks
         (fun m =>
            let k := Uint64.toString (Scheduler.rootID q) in
            Scheduler.batch_update k
              (fun b => {| Scheduler.add := Scheduler.add b;
                           Scheduler.delete :=
                             Scheduler.delete b ++ [Scheduler.segmentID q] |})
              (Scheduler.batch_update k
                 (fun b => {| Scheduler.add := Scheduler.add b ++ children;
                              Scheduler.delete := Scheduler.delete b |})
                 (if Scheduler.batch_has k m then m
                  else Scheduler.batch_set k
                         {| Scheduler.add := []; Scheduler.delete := [] |} m)))
         (Scheduler.set_chunks
            (alter (Scheduler.setState Scheduler.FAILED) (Scheduler.manifest q))
            this)).
Proof.
  intros Hroot. unfold Scheduler.onChildren. simpl.
  rewrite bool_decide_eq_true_2 by exact Hroot.
  unfold Scheduler.debouncedHandleChildChunks, Scheduler.set_lastCallTime,
    Scheduler.set_requestedChildChunks.
  simpl.
  destruct (Scheduler.batch_has _ (Scheduler.requestedChildChunks this));
    reflexivity.
Qed.

(** An answer for the root of the entry (or the first answer, which makes
    the entry) extends it; no flush runs meanwhile. *)
Lemma arrive_waiting this0 this r (entry : option Scheduler.Batch) :
  let k := Uint64.toString (Scheduler.rootID r.1.1) in
  Scheduler.requestedChildChunks this
    = match entry with Some b => [(k, b)] | None => [] end ->
  Scheduler.flushes this = Scheduler.flushes this0 ->
  display this = display this0 ->
  Scheduler.rootID r.1.1 ∈ Scheduler.rootSegments this0 ->
  (r.2 < Scheduler.DEBOUNCE_WAIT)%N ->
  waiting k
    (coalesced (default {| Scheduler.add := []; Scheduler.delete := [] |} entry)
               [r])
    this0 (arrive this r).
Proof.
  destruct r as [[q children] dt]. simpl. intros Hb Hf Hd Hroot Hdt.
  assert (Hroot' : Scheduler.rootID q ∈ Scheduler.rootSegments this)
    by (unfold display in Hd; congruence).
  unfold arrive. simpl. rewrite (onChildren_present _ _ _ Hroot').
  set (this' := Scheduler.set_now _ _).
  rewrite (timer_not_due this' (Scheduler.now this)); [|reflexivity|simpl; lia].
  split.
  - unfold this'.
    cbn -[Scheduler.batch_update Scheduler.batch_has Scheduler.batch_set].
    rewrite Hb. destruct entry as [b|].
    + rewrite batch_has_single, !batch_update_single.
      unfold coalesced. simpl. rewrite ?app_nil_r. reflexivity.
    + rewrite batch_has_nil, batch_set_nil, !batch_update_single.
      unfold coalesced. simpl. rewrite ?app_nil_r. reflexivity.
  - rewrite <- Hf. reflexivity.
  - rewrite <- Hd. reflexivity.
  - exists (Scheduler.now this). simpl. split; [reflexivity|lia].
Qed.

Lemma coalesced_app b rs1 rs2 :
  coalesced (coalesced b rs1) rs2 = coalesced b (rs1 ++ rs2).
Proof.
  unfold coalesced. simpl.
  rewrite !fmap_app, concat_app, !app_assoc. reflexivity.
Qed.

(** Every further answer for the root within the window extends the
    entry. *)
Lemma arrive_all k b this0 responses this :
  waiting k b this0 this ->
  Forall (fun r => Uint64.toString (Scheduler.rootID r.1.1) = k
                   /\ Scheduler.rootID r.1.1 ∈ Scheduler.rootSegments this0
                   /\ (r.2 < Scheduler.DEBOUNCE_WAIT)%N) responses ->
  waiting k (coalesced b responses) this0 (foldl arrive this responses).
Proof.
  intros Hw Hall. revert b this Hw.
  induction Hall as [|r responses (Hk & Hroot & Hdt) _ IH]; intros b this Hw.
  - simpl. unfold coalesced. simpl. rewrite !app_nil_r.
    destruct b; exact Hw.
  - simpl. change (r :: responses) with ([r] ++ responses).
    rewrite <- coalesced_app. apply IH. subst k.
    destruct Hw as [Hb Hf Hd _].
    exact (arrive_waiting this0 this r (Some b) Hb Hf Hd Hroot Hdt).
Qed.

(** The flush that runs once the delay has passed since the last answer,
    with the root set as it is then. *)
Definition flush_after_wait (roots : gset Uint64) this : Scheduler.MeshLayer :=
  Scheduler.timerExpired
    (Scheduler.set_now (fun t => (t + Scheduler.DEBOUNCE_WAIT)%N)
       (Scheduler.set_rootSegments (fun _ => roots) this)).

Lemma flush_waiting k b this0 this roots root :
  waiting k b this0 this ->
  k = Uint64.toString root ->
  let this2 := flush_after_wait roots this in
  Scheduler.flushes this2 = S (Scheduler.flushes this0)
  /\ Scheduler.requestedChildChunks this2 = []
  /\ Scheduler.visibleSegments3D this2
     = (if decide (root ∈ roots)
        then visible_after b (Scheduler.visibleSegments3D this0)
        else Scheduler.visibleSegments3D this0)
  /\ Scheduler.segmentEquivalences this2
     = (if decide (root ∈ roots)
        then links_after root b (Scheduler.segmentEquivalences this0)
        else Scheduler.segmentEquivalences this0).
Proof.
  intros [Hb Hf Hd (t & Ht & Hnow)] -> this2. unfold display in Hd.
  injection Hd as HR HV HE.
  unfold this2, flush_after_wait, Scheduler.timerExpired. simpl. rewrite Ht.
  destruct (N.leb_spec (t + Scheduler.DEBOUNCE_WAIT)
              (Scheduler.now this + Scheduler.DEBOUNCE_WAIT)) as [_|Hlt];
    [|lia].
  unfold Scheduler.handleChildChunks. simpl. rewrite Hb. simpl.
  rewrite parseString_toString.
  destruct (decide (root ∈ roots)) as [Hin|Hout].
  - rewrite bool_decide_eq_true_2 by exact Hin. simpl.
    rewrite applyBatch_spec. simpl. rewrite Hf, HV, HE. done.
  - rewrite bool_decide_eq_false_2 by exact Hout. simpl.
    rewrite Hf, HV, HE. done.
Qed.

(** C3: answers of [getChildren] for one root, each arriving less than the
    debounce delay after the one before, add up to one entry of the batch:
    the concatenation of their children and of their segments.  No flush runs
    between them; once the delay has passed, one flush runs, on that entry,
    and leaves the batch empty whether or not the root is still in the root
    set. *)
Theorem batch_coalesced this (root : Uint64)
    (responses : list (Scheduler.Query * list Uint64 * N))
    (roots : gset Uint64) :
  Scheduler.requestedChildChunks this = [] ->
  root ∈ Scheduler.rootSegments this ->
  Forall (fun r => Scheduler.rootID r.1.1 = root
                   /\ (r.2 < Scheduler.DEBOUNCE_WAIT)%N) responses ->
  responses <> [] ->
  let entry :=
    {| Scheduler.add := concat ((fun r => r.1.2) <$> responses);
       Scheduler.delete := (fun r => Scheduler.segmentID r.1.1) <$> responses |} in
  let this1 := foldl arrive this responses in
  let this2 := flush_after_wait roots this1 in
  Scheduler.flushes this1 = Scheduler.flushes this
  /\ Scheduler.requestedChildChunks this1 = [(Uint64.toString root, entry)]
  /\ Scheduler.flushes this2 = S (Scheduler.flushes this)
  /\ Scheduler.requestedChildChunks this2 = []
  /\ Scheduler.visibleSegments3D this2
     = (if decide (root ∈ roots)
        then visible_after entry (Scheduler.visibleSegments3D this)
        else Scheduler.visibleSegments3D this)
  /\ Scheduler.segmentEquivalences this2
     = (if decide (root ∈ roots)
        then links_after root entry (Scheduler.segmentEquivalences this)
        else Scheduler.segmentEquivalences this).
Proof.
  intros Hempty Hroot Hall Hne entry this1 this2.
  destruct responses as [|r responses]; [contradiction|].
  apply Forall_cons in Hall as [[Hr Hdt] Hall].
  assert (Hw : waiting (Uint64.toString root) entry this this1).
  { unfold this1. simpl.
    replace entry with
      (coalesced
         (coalesced {| Scheduler.add := []; Scheduler.delete := [] |} [r])
         responses)
      by (rewrite coalesced_app; reflexivity).
    apply arrive_all.
    - rewrite <- Hr.
      apply (arrive_waiting this this r None); try done; congruence.
    - eapply Forall_impl; [exact Hall|]. simpl. intros r' [-> Hdt'].
      done. }
  split; [apply Hw|]. split; [apply Hw|].
  exact (flush_waiting _ _ _ _ roots root Hw eq_refl).
Qed.

End debounce.

(** ** The mesh layer: one priority pass *)

Section pass.
Context `{Collaborators}.
Implicit Types (this : Scheduler.MeshLayer) (p : Scheduler.Pass).

(** The request of a manifest chunk and of a fragment chunk, as a pass
    makes them. *)
Definition manifestRequest (tier : ChunkPriorityTier) (base : Z) (k : string)
  : Scheduler.ChunkRequest :=
  {| Scheduler.chunk := Scheduler.Manifest k;
     Scheduler.priorityTier := tier;
     Scheduler.priority := base + Scheduler.MESH_OBJECT_MANIFEST_CHUNK_PRIORITY |}.

Definition fragmentRequest (tier : ChunkPriorityTier) (base : Z) (k : string)
    (fragmentId : Scheduler.FragmentId) : Scheduler.ChunkRequest :=
  {| Scheduler.chunk := Scheduler.Fragment (Scheduler.fragmentKey k fragmentId);
     Scheduler.priorityTier := tier;
     Scheduler.priority := base + Scheduler.MESH_OBJECT_FRAGMENT_CHUNK_PRIORITY |}.

(** The query a visit issues for the manifest of a segment. *)
Definition queryOf (clip : option Bounds) (o r : Uint64) : Scheduler.Query :=
  {| Scheduler.manifest := getObjectKey o clip;
     Scheduler.segmentID := o;
     Scheduler.rootID := r |}.

Lemma getFragmentChunks_spec k ids this :
  exists F,
    foldl (fun this fragmentId => Scheduler.getFragmentChunk k fragmentId this)
          this ids
    = Scheduler.set_fragmentChunks (fun _ => F) this.
Proof.
  assert (Hgen : forall F0,
    exists F,
      foldl (fun this fragmentId => Scheduler.getFragmentChunk k fragmentId this)
            (Scheduler.set_fragmentChunks (fun _ => F0) this) ids
      = Scheduler.set_fragmentChunks (fun _ => F) this).
  { induction ids as [|id ids IH]; intros F0; simpl; [eauto|].
    unfold Scheduler.getFragmentChunk at 2. simpl.
    destruct (F0 !! Scheduler.fragmentKey k id); apply IH. }
  destruct (Hgen (Scheduler.fragmentChunks this)) as [F HF]. exists F.
  rewrite <- HF. f_equal. destruct this; reflexivity.
Qed.

(** The callback of the pass, case by case on the manifest chunk of the
    segment. *)
Lemma visit_spec tier base clip o r this :
  let k := getObjectKey o clip in
  let p := Scheduler.visit tier base clip o r this in
  match Scheduler.chunks this !! k with
  | None =>
      p = {| Scheduler.after :=
               Scheduler.set_chunks
                 (insert k {| Scheduler.objectId := o;
                              Scheduler.clipBounds := clip;
                              Scheduler.fragmentIds := None;
                              Scheduler.state := Scheduler.QUEUED |})
                 this;
             Scheduler.requested := [manifestRequest tier base k];
             Scheduler.thrown := None |}
  | Some c =>
      if Scheduler.loaded (Scheduler.state c) then
        match Scheduler.fragmentIds c with
        | None =>
            p = {| Scheduler.after := this;
                   Scheduler.requested := [manifestRequest tier base k];
                   Scheduler.thrown := Some TypeError |}
        | Some ids =>
            exists F,
              p = {| Scheduler.after :=
                       Scheduler.set_fragmentChunks (fun _ => F) this;
                     Scheduler.requested :=
                       manifestRequest tier base k
                       :: (fragmentRequest tier base k <$> ids);
                     Scheduler.thrown := None |}
        end
      else if bool_decide (Scheduler.state c = Scheduler.FAILED)
              && Scheduler.chunkedGraph this then
        p = {| Scheduler.after :=
                 Scheduler.set_outstanding (fun l => l ++ [queryOf clip o r])
                   (Scheduler.set_chunks
                      (alter (Scheduler.setState Scheduler.REQUESTING_CHILDREN) k)
                      this);
               Scheduler.requested := [manifestRequest tier base k];
               Scheduler.thrown := None |}
      else
        p = {| Scheduler.after := this;
               Scheduler.requested := [manifestRequest tier base k];
               Scheduler.thrown := None |}
  end.
Proof.
  intros k p. unfold p, Scheduler.visit, Scheduler.getChunk. fold k.
  destruct (Scheduler.chunks this !! k) as [c|] eqn:Hc; [|reflexivity].
  destruct (Scheduler.state c) eqn:Hs; simpl; try reflexivity.
  - destruct (Scheduler.fragmentIds c) as [ids|]; [|reflexivity].
    destruct (getFragmentChunks_spec k ids this) as [F ->]. eauto.
  - destruct (Scheduler.fragmentIds c) as [ids|]; [|reflexivity].
    destruct (getFragmentChunks_spec k ids this) as [F ->]. eauto.
  - destruct (Scheduler.fragmentIds c) as [ids|]; [|reflexivity].
    destruct (getFragmentChunks_spec k ids this) as [F ->]. eauto.
  - destruct (Scheduler.chunkedGraph this); reflexivity.
Qed.

End pass.

Section pass_facts.
Context `{Collaborators}.
Implicit Types (this : Scheduler.MeshLayer) (p : Scheduler.Pass).

(** The state of the manifest chunk of a key, if the source has it. *)
Definition stateOf this (k : string) : option Scheduler.ChunkState :=
  Scheduler.state <$> Scheduler.chunks this !! k.

(** Whether a visit of the manifest of key [k] starts the fallback. *)
Definition fallback this (k : string) : bool :=
  bool_decide (stateOf this k = Some Scheduler.FAILED)
  && Scheduler.chunkedGraph this.

Ltac visit_cases tier base clip o r this :=
  let Hv := fresh "Hv" in
  pose proof (visit_spec tier base clip o r this) as Hv; cbv zeta in Hv;
  unfold fallback, stateOf;
  let c := fresh "c" in
  let Hc := fresh "Hc" in
  destruct (Scheduler.chunks this !! getObjectKey o clip) as [c|] eqn:Hc;
  [ let Hl := fresh "Hl" in
    destruct (Scheduler.loaded (Scheduler.state c)) eqn:Hl;
    [ let ids := fresh "ids" in
      let Hids := fresh "Hids" in
      destruct (Scheduler.fragmentIds c) as [ids|] eqn:Hids;
      [ let F := fresh "F" in destruct Hv as [F Hv] | ]
    | let Hfb := fresh "Hfb" in
      destruct (bool_decide (Scheduler.state c = Scheduler.FAILED)
                && Scheduler.chunkedGraph this) eqn:Hfb ]
  | ];
  rewrite Hv; clear Hv.

Lemma loaded_not_FAILED s : Scheduler.loaded s = true -> s <> Scheduler.FAILED.
Proof. intros Hl ->. discriminate. Qed.


(** What a visit does to the chunks and to the outstanding queries; the
    rest of the layer, the fragment source apart, it leaves as it is. *)
Lemma visit_after tier base clip o r this :
  let k := getObjectKey o clip in
  let this' := Scheduler.after (Scheduler.visit tier base clip o r this) in
  Scheduler.outstanding this'
  = Scheduler.outstanding this
    ++ (if fallback this k then [queryOf clip o r] else [])
  /\ (forall k',
        stateOf this' k'
        = if decide (k' = k) then
            match stateOf this k with
            | None => Some Scheduler.QUEUED
            | Some s => if fallback this k
                        then Some Scheduler.REQUESTING_CHILDREN else Some s
            end
          else stateOf this k')
  /\ (forall k' c, Scheduler.chunks this !! k' = Some c ->
                   Scheduler.state c <> Scheduler.FAILED ->
                   Scheduler.chunks this' !! k' = Some c)
  /\ Scheduler.chunkedGraph this' = Scheduler.chunkedGraph this
  /\ display this' = display this.
Proof.
  intros k this'. unfold this', k.
  visit_cases tier base clip o r this; simpl.
  - pose proof (loaded_not_FAILED _ Hl) as Hnf.
    rewrite bool_decide_eq_false_2 by congruence. simpl.
    rewrite app_nil_r. repeat split; try done.
    intros k'. destruct (decide _) as [->|]; [|done].
    unfold stateOf. simpl. rewrite Hc. done.
  - pose proof (loaded_not_FAILED _ Hl) as Hnf.
    rewrite bool_decide_eq_false_2 by congruence. simpl.
    rewrite app_nil_r. repeat split; try done.
    intros k'. destruct (decide _) as [->|]; [|done].
    unfold stateOf. rewrite Hc. done.
  - apply andb_true_iff in Hfb as [Hf%bool_decide_eq_true_1 Hg].
    rewrite Hg, Hf. rewrite bool_decide_eq_true_2 by done. simpl.
    repeat split; try done.
    + intros k'. unfold stateOf. simpl. destruct (decide _) as [->|Hne].
      * rewrite lookup_alter_eq, Hc. done.
      * rewrite lookup_alter_ne by done. done.
    + intros k' c' Hc' Hnf. destruct (decide (k' = getObjectKey o clip)) as [->|Hne].
      * congruence.
      * rewrite lookup_alter_ne by done. done.
  - replace (bool_decide (Some (Scheduler.state c) = Some Scheduler.FAILED))
      with (bool_decide (Scheduler.state c = Scheduler.FAILED))
      by (apply bool_decide_ext; split; congruence).
    rewrite Hfb. rewrite app_nil_r. repeat split; try done.
    intros k'. destruct (decide _) as [->|]; [|done].
    unfold stateOf. rewrite Hc. done.
  - simpl. rewrite app_nil_r. repeat split; try done.
    + intros k'. unfold stateOf. simpl. destruct (decide _) as [->|Hne].
      * rewrite lookup_insert_eq. done.
      * rewrite lookup_insert_ne by done. done.
    + intros k' c' Hc' _. destruct (decide (k' = getObjectKey o clip)) as [->|Hne].
      * congruence.
      * rewrite lookup_insert_ne by done. done.
Qed.



End pass_facts.

Section pass_requests.
Context `{Collaborators}.
Implicit Types (this : Scheduler.MeshLayer) (p : Scheduler.Pass).



End pass_requests.

(** ** The mesh layer: the fallback to the children of a segment *)

Section fallback.
Context `{Collaborators}.
Implicit Types (this : Scheduler.MeshLayer) (q : Scheduler.Query).

(** The queries outstanding for the manifest of key [k]. *)
Definition outstandingFor this (k : string) : list Scheduler.Query :=
  filter (fun q => Scheduler.manifest q = k) (Scheduler.outstanding this).

(** At most one query is outstanding for a manifest, and the manifest of
    an outstanding query is in [REQUESTING_CHILDREN]. *)
Record fallback_inv this : Prop := {
  inv_one : NoDup (Scheduler.manifest <$> Scheduler.outstanding this);
  inv_state : forall q, q ∈ Scheduler.outstanding this ->
      stateOf this (Scheduler.manifest q) = Some Scheduler.REQUESTING_CHILDREN;
}.

Lemma fallback_inv_frame this this' :
  Scheduler.chunks this' = Scheduler.chunks this ->
  Scheduler.outstanding this' = Scheduler.outstanding this ->
  fallback_inv this -> fallback_inv this'.
Proof.
  intros Hc Ho [Hone Hstate]. split; rewrite Ho; [exact Hone|].
  intros q Hq. unfold stateOf. rewrite Hc. apply Hstate, Hq.
Qed.

Lemma visit_inv tier base clip o r this :
  fallback_inv this ->
  fallback_inv (Scheduler.after (Scheduler.visit tier base clip o r this)).
Proof.
  intros [Hone Hstate].
  destruct (visit_after tier base clip o r this) as (Hout & Hst & _).
  set (k := getObjectKey o clip) in *.
  destruct (fallback this k) eqn:Hfb.
  - assert (Hfailed : stateOf this k = Some Scheduler.FAILED).
    { unfold fallback in Hfb. apply andb_true_iff in Hfb as [Hf _].
      apply bool_decide_eq_true_1 in Hf. exact Hf. }
    split; rewrite Hout.
    + rewrite fmap_app. apply NoDup_app. split; [exact Hone|].
      split; [|apply NoDup_singleton].
      intros k' Hin [->|[]%elem_of_nil]%elem_of_cons.
      apply list_elem_of_fmap in Hin as (q & Hk & Hq).
      specialize (Hstate q Hq). simpl in Hk. rewrite <- Hk in Hstate.
      unfold k in Hfailed. congruence.
    + intros q [Hq|[->|[]%elem_of_nil]%elem_of_cons]%elem_of_app.
      * rewrite Hst. destruct (decide _) as [Heq|]; [|auto].
        specialize (Hstate q Hq). rewrite Heq in Hstate. congruence.
      * rewrite Hst. simpl. rewrite decide_True by reflexivity.
        fold k. rewrite Hfailed. reflexivity.
  - split; rewrite Hout, app_nil_r; [exact Hone|].
    intros q Hq. rewrite Hst. specialize (Hstate q Hq).
    destruct (decide _) as [Heq|]; [|exact Hstate].
    rewrite Heq in Hstate. rewrite Hstate. reflexivity.
Qed.

Lemma visitAll_inv tier base clip segments this :
  fallback_inv this ->
  fallback_inv (Scheduler.after (Scheduler.visitAll tier base clip segments this)).
Proof.
  revert this. induction segments as [|[o r] segments IH]; intros this Hinv.
  - exact Hinv.
  - simpl. pose proof (visit_inv tier base clip o r this Hinv) as Hhead.
    destruct (Scheduler.thrown (Scheduler.visit tier base clip o r this));
      [exact Hhead|].
    simpl. apply IH, Hhead.
Qed.

Lemma handleEntries_frame entries this :
  Scheduler.chunks (Scheduler.handleEntries entries this).1 = Scheduler.chunks this
  /\ Scheduler.outstanding (Scheduler.handleEntries entries this).1
     = Scheduler.outstanding this.
Proof.
  revert this. induction entries as [|[k b] entries IH]; intros this; simpl.
  - done.
  - destruct (Uint64.parseString k) as [root|]; [|done].
    destruct (bool_decide (root ∈ Scheduler.rootSegments this)); simpl.
    + destruct (IH (Scheduler.applyBatch root b this)) as [-> ->].
      rewrite applyBatch_spec. done.
    + apply IH.
Qed.

Lemma timerExpired_frame this :
  Scheduler.chunks (Scheduler.timerExpired this) = Scheduler.chunks this
  /\ Scheduler.outstanding (Scheduler.timerExpired this)
     = Scheduler.outstanding this.
Proof.
  unfold Scheduler.timerExpired.
  destruct (Scheduler.lastCallTime this) as [t|]; [|done].
  destruct (_ <=? _)%N; [|done].
  unfold Scheduler.handleChildChunks.
  set (this' := Scheduler.set_flushes S _).
  destruct (handleEntries_frame (Scheduler.requestedChildChunks this') this')
    as [Hc Ho].
  destruct (Scheduler.handleEntries _ this') as [this'' [[]|e]];
    simpl in *; rewrite Hc, Ho; done.
Qed.

(** The handler leaves the outstanding queries as they are and puts the
    manifest it captured back to [FAILED]. *)
Lemma onChildren_frame q children this :
  Scheduler.outstanding (Scheduler.onChildren q children this)
  = Scheduler.outstanding this
  /\ Scheduler.chunks (Scheduler.onChildren q children this)
     = alter (Scheduler.setState Scheduler.FAILED) (Scheduler.manifest q)
             (Scheduler.chunks this).
Proof.
  unfold Scheduler.onChildren. simpl.
  destruct (bool_decide _); simpl; [|done].
  destruct (Scheduler.batch_has _ _); done.
Qed.

End fallback.

Lemma filter_none {A B} `{EqDecision B} (f : A -> B) (k : B) (l : list A) :
  (forall y, y ∈ l -> f y <> k) -> filter (fun y => f y = k) l = [].
Proof.
  induction l as [|a l IH]; intros Hall; [reflexivity|].
  rewrite filter_cons_False by (apply Hall; left).
  apply IH. intros y Hy. apply Hall. right. exact Hy.
Qed.


Lemma delete_other_key {A B} (f : A -> B) (l : list A) (i : nat) (x y : A) :
  NoDup (f <$> l) -> l !! i = Some x -> y ∈ delete i l -> f y <> f x.
Proof.
  intros Hnd Hi Hy Heq.
  apply list_elem_of_lookup in Hy as [j Hj].
  assert (Hfi : (f <$> l) !! i = Some (f x)) by (rewrite list_lookup_fmap, Hi; done).
  destruct (decide (j < i)) as [Hlt|Hge].
  - rewrite list_lookup_delete_lt in Hj by exact Hlt.
    assert (Hfj : (f <$> l) !! j = Some (f x))
      by (rewrite list_lookup_fmap, Hj; simpl; congruence).
    pose proof (NoDup_lookup _ _ _ _ Hnd Hfi Hfj). lia.
  - rewrite list_lookup_delete_ge in Hj by lia.
    assert (Hfj : (f <$> l) !! S j = Some (f x))
      by (rewrite list_lookup_fmap, Hj; simpl; congruence).
    pose proof (NoDup_lookup _ _ _ _ Hnd Hfi Hfj). lia.
Qed.

Section fallback_run.
Context `{Collaborators}.
Implicit Types (this : Scheduler.MeshLayer) (q : Scheduler.Query).

Lemma delete_inv i this :
  fallback_inv this ->
  fallback_inv (Scheduler.set_outstanding (base.delete i) this).
Proof.
  intros [Hone Hstate]. split; simpl.
  - eapply sublist_NoDup; [exact Hone|]. apply fmap_sublist, sublist_delete.
  - intros q Hq. apply Hstate. eapply list_elem_of_delete_inv, Hq.
Qed.

Lemma exec_inv e this : fallback_inv this -> fallback_inv (Scheduler.exec e this).
Proof.
  intros Hinv. destruct e as [v clip|i children|i|dt| |k s ids|roots|visible];
    simpl.
  - unfold Scheduler.updateChunkPriorities.
    destruct (decide _); [exact Hinv|]. apply visitAll_inv, Hinv.
  - destruct (Scheduler.outstanding this !! i) as [q|] eqn:Hi; [|exact Hinv].
    destruct (onChildren_frame q children
                (Scheduler.set_outstanding (base.delete i) this)) as [Ho Hc].
    destruct Hinv as [Hone Hstate]. split; rewrite Ho; simpl.
    + eapply sublist_NoDup; [exact Hone|]. apply fmap_sublist, sublist_delete.
    + intros q' Hq'. unfold stateOf. rewrite Hc. simpl.
      rewrite lookup_alter_ne.
      * apply Hstate. eapply list_elem_of_delete_inv, Hq'.
      * intros Heq. symmetry in Heq. revert Heq.
        exact (delete_other_key _ _ _ _ _ Hone Hi Hq').
  - apply delete_inv, Hinv.
  - eapply fallback_inv_frame; [| |exact Hinv]; reflexivity.
  - destruct (timerExpired_frame this) as [Hc Ho].
    eapply fallback_inv_frame; eassumption.
  - unfold Scheduler.chunkMoved.
    destruct (Scheduler.chunks this !! k) as [c|] eqn:Hk; [|exact Hinv].
    destruct (decide _) as [|Hnrc]; [exact Hinv|].
    destruct (decide _) as [|Hnrc']; [exact Hinv|].
    destruct (_ && _); [exact Hinv|].
    destruct Hinv as [Hone Hstate]. split; [exact Hone|]. simpl.
    intros q Hq. specialize (Hstate q Hq). unfold stateOf in *. simpl.
    rewrite lookup_insert_ne; [exact Hstate|].
    intros Heq. rewrite <- Heq, Hk in Hstate. simpl in Hstate. congruence.
  - eapply fallback_inv_frame; [| |exact Hinv]; reflexivity.
  - eapply fallback_inv_frame; [| |exact Hinv]; reflexivity.
Qed.

Lemma run_inv events this :
  fallback_inv this -> fallback_inv (Scheduler.run events this).
Proof.
  revert this. induction events as [|e events IH]; intros this Hinv.
  - exact Hinv.
  - apply IH, exec_inv, Hinv.
Qed.

Lemma create_inv graph roots visible :
  fallback_inv (Scheduler.create graph roots visible).
Proof.
  split; simpl; [apply NoDup_nil_2|].
  intros q Hq. apply elem_of_nil in Hq. done.
Qed.







End fallback_run.

Section fallback_cycle.
Context `{Collaborators}.
Implicit Types (this : Scheduler.MeshLayer) (q : Scheduler.Query).





End fallback_cycle.

(** ** Examples *)

(** Segment 5 is visible under its own root; its manifest is requested,
    downloaded, and the download fails. *)
Definition example_failed : list (Scheduler.Event (H := example_collaborators)) :=
  [Scheduler.Recompute POSITIVE_INFINITY None;
   Scheduler.ChunkMoved "5" Scheduler.DOWNLOADING None;
   Scheduler.ChunkMoved "5" Scheduler.FAILED None].

Definition example_layer : Scheduler.MeshLayer (H := example_collaborators) :=
  Scheduler.create true {[5%N]} {[5%N]}.


(** Two answers for the root 5, 10 ms apart, then the flush. *)
Definition example_responses
  : list (Scheduler.Query * list Uint64 * N) :=
  [({| Scheduler.manifest := "5"; Scheduler.segmentID := 5%N;
       Scheduler.rootID := 5%N |}, [6%N; 7%N], 10%N);
   ({| Scheduler.manifest := "8"; Scheduler.segmentID := 8%N;
       Scheduler.rootID := 5%N |}, [9%N], 20%N)].

Lemma batch_coalesced_witness :
  let this1 := foldl arrive example_layer example_responses in
  let this2 := flush_after_wait {[5%N]} this1 in
  Scheduler.flushes this1 = 0
  /\ Scheduler.requestedChildChunks this1
     = [("5", {| Scheduler.add := [6%N; 7%N; 9%N];
                 Scheduler.delete := [5%N; 8%N] |})]
  /\ Scheduler.flushes this2 = 1
  /\ Scheduler.requestedChildChunks this2 = []
  /\ Scheduler.visibleSegments3D this2 = {[6%N; 7%N; 9%N]}
  /\ Scheduler.segmentEquivalences this2 = [(5%N, 6%N); (5%N, 7%N); (5%N, 9%N)].
Proof.
  intros this1 this2.
  destruct (batch_coalesced (H := example_collaborators)
              example_layer 5%N example_responses {[5%N]})
    as (H1 & H2 & H3 & H4 & H5 & H6).
  - reflexivity.
  - vm_compute. reflexivity.
  - repeat constructor.
  - discriminate.
  - fold this1 this2 in H1, H2, H3, H4, H5, H6.
    split; [exact H1|]. split; [rewrite H2; reflexivity|].
    split; [exact H3|]. split; [exact H4|].
    split; [rewrite H5; vm_compute; reflexivity|].
    rewrite H6. reflexivity.
Defined.

(** Two roots of a chunk await their leaves; the request of the second
    fails, then the first is answered. *)
Definition example_chunk : Precomputed.ChunkedGraphChunk :=
  {| Precomputed.chunkDataSize := (64, 64, 64)%Z;
     Precomputed.mappings := [("1", None); ("2", Some [3%N]); ("4", None)] |}.

Definition example_parameters : Precomputed.Parameters :=
  {| Precomputed.parameters_baseUrls := ["https://graph"];
     Precomputed.parameters_path := "/1.0/segment" |}.






(** ** Views of a buffer and in-place conversion *)

Section views.
Implicit Types (data : list byte) (v : TypedArray.view) (f : list byte -> list byte).

(** Where a view starts and ends in its buffer. *)
Definition start v : nat := N.to_nat (TypedArray.byteOffset v).
Definition stop v : nat :=
  N.to_nat (TypedArray.byteOffset v) + N.to_nat (TypedArray.byteLength v).

Definition fits v data : Prop := stop v <= length data.

(** The bytes of two buffers are the same from [lo] up to [hi]. *)
Definition same_between (lo hi : nat) data data' : Prop :=
  length data' = length data
  /\ forall i, lo <= i < hi -> data' !! i = data !! i.

Lemma same_between_refl lo hi data : same_between lo hi data data.
Proof. split; auto. Qed.

Lemma same_between_trans lo hi data1 data2 data3 :
  same_between lo hi data1 data2 -> same_between lo hi data2 data3 ->
  same_between lo hi data1 data3.
Proof.
  intros [Hl1 H1] [Hl2 H2]. split; [congruence|].
  intros i Hi. rewrite H2, H1 by exact Hi. reflexivity.
Qed.

Lemma same_between_weaken lo hi lo' hi' data data' :
  lo <= lo' -> hi' <= hi ->
  same_between lo hi data data' -> same_between lo' hi' data data'.
Proof. intros Hlo Hhi [Hl Hs]. split; [exact Hl|]. intros i Hi. apply Hs. lia. Qed.

Lemma contents_lookup data v (j : nat) :
  TypedArray.contents data v !! j
  = if decide (j < N.to_nat (TypedArray.byteLength v))
    then data !! (start v + j) else None.
Proof.
  unfold TypedArray.contents, start. destruct (decide _) as [Hlt|Hge].
  - rewrite lookup_take_lt by exact Hlt. apply lookup_drop.
  - apply lookup_take_ge. lia.
Qed.

Lemma contents_length data v :
  fits v data ->
  length (TypedArray.contents data v) = N.to_nat (TypedArray.byteLength v).
Proof.
  unfold fits, stop, TypedArray.contents. intros Hfit.
  rewrite length_take, length_drop. lia.
Qed.

(** A view whose bytes are the same in two buffers shows the same
    contents. *)
Lemma contents_same lo hi data data' v :
  same_between lo hi data data' -> lo <= start v -> stop v <= hi ->
  TypedArray.contents data' v = TypedArray.contents data v.
Proof.
  intros [_ Hs] Hlo Hhi. apply list_eq. intros j.
  rewrite !contents_lookup. destruct (decide _) as [Hlt|]; [|reflexivity].
  apply Hs. unfold start, stop in *. lia.
Qed.

Lemma modify_length f data v :
  fits v data ->
  (forall l, length (f l) = length l) ->
  length (TypedArray.modify f v data) = length data.
Proof.
  intros Hfit Hf. pose proof (contents_length data v Hfit) as Hc.
  unfold TypedArray.modify, fits, stop in *.
  rewrite !length_app, Hf, Hc, length_take, length_drop.
  rewrite N2Nat.inj_add. lia.
Qed.

(** Writing through a view leaves the bytes before and after it. *)
Lemma modify_outside f data v :
  fits v data ->
  (forall l, length (f l) = length l) ->
  same_between 0 (start v) data (TypedArray.modify f v data)
  /\ same_between (stop v) (length data) data (TypedArray.modify f v data).
Proof.
  intros Hfit Hf. pose proof (contents_length data v Hfit) as Hc.
  pose proof (modify_length f data v Hfit Hf) as Hlen.
  unfold fits, stop, start in *.
  split; (split; [exact Hlen|]); intros i Hi; unfold TypedArray.modify.
  - rewrite lookup_app_l by (rewrite length_take; lia).
    apply lookup_take_lt. lia.
  - rewrite lookup_app_r by (rewrite length_take; lia).
    rewrite lookup_app_r by (rewrite Hf, Hc, length_take; lia).
    rewrite lookup_drop, Hf, Hc, length_take, N2Nat.inj_add. f_equal. lia.
Qed.

(** The view shows what was written through it. *)
Lemma modify_contents f data v :
  fits v data ->
  (forall l, length (f l) = length l) ->
  TypedArray.contents (TypedArray.modify f v data) v
  = f (TypedArray.contents data v).
Proof.
  intros Hfit Hf. pose proof (contents_length data v Hfit) as Hc.
  unfold fits, stop in Hfit.
  unfold TypedArray.modify. unfold TypedArray.contents at 1.
  rewrite drop_app_length' by (rewrite length_take; lia).
  rewrite take_app_length' by (rewrite Hf, Hc; reflexivity).
  reflexivity.
Qed.

Lemma modify_id data v : TypedArray.modify (fun l => l) v data = data.
Proof.
  unfold TypedArray.modify, TypedArray.contents.
  rewrite N2Nat.inj_add.
  rewrite <- (take_drop (N.to_nat (TypedArray.byteOffset v)) data) at 4.
  f_equal.
  rewrite <- (take_drop (N.to_nat (TypedArray.byteLength v))
                (drop (N.to_nat (TypedArray.byteOffset v)) data)) at 2.
  rewrite drop_drop. reflexivity.
Qed.

(** A view the constructor accepts lies within the buffer. *)
Lemma create_Some size data offset n v :
  TypedArray.create size data offset (Some n) = Some v ->
  v = TypedArray.mkView offset (n * size) /\ fits v data.
Proof.
  unfold TypedArray.create, TypedArray.bufferLength.
  destruct (negb _); [discriminate|].
  destruct (N.ltb_spec (N.of_nat (length data)) (offset + n * size));
    [discriminate|].
  intros [= <-]. split; [reflexivity|]. unfold fits, stop. simpl. lia.
Qed.

End views.

(** ** Skeleton attributes *)

Lemma swapEndian16_length : forall l, length (Endian.swapEndian16 l) = length l.
Proof.
  fix IH 1. intros [|b0 [|b1 l]]; simpl; try reflexivity.
  rewrite IH. reflexivity.
Qed.

Lemma swapEndian32_length : forall l, length (Endian.swapEndian32 l) = length l.
Proof.
  fix IH 1. intros [|b0 [|b1 [|b2 [|b3 l]]]]; simpl; try reflexivity.
  rewrite IH. reflexivity.
Qed.

Section skeleton.
Context `{Host} `{DataTypes}.
Implicit Types (data response : list byte) (v : TypedArray.view).

(** The conversion of the bytes of an attribute of [bytesPerVertex] bytes
    per vertex, from the little-endian wire format to the host's order. *)
Definition converted (bytesPerVertex : N) (bytes : list byte) : list byte :=
  if decide (LITTLE = ENDIANNESS) then bytes
  else if (bytesPerVertex =? 2)%N then Endian.swapEndian16 bytes
  else if ((bytesPerVertex =? 4) || (bytesPerVertex =? 8))%N
       then Endian.swapEndian32 bytes
  else bytes.

Lemma converted_length w l : length (converted w l) = length l.
Proof.
  unfold converted. destruct (decide _); [reflexivity|].
  destruct (w =? 2)%N; [apply swapEndian16_length|].
  destruct (_ || _); [apply swapEndian32_length|reflexivity].
Qed.

Lemma convertAttribute_spec w v data :
  Precomputed.convertAttribute w v data = TypedArray.modify (converted w) v data.
Proof.
  unfold Precomputed.convertAttribute, converted, Endian.convertEndian16,
    Endian.convertEndian32.
  destruct (decide (LITTLE = ENDIANNESS)).
  - rewrite modify_id. destruct (w =? 2)%N; [reflexivity|].
    destruct (_ || _); reflexivity.
  - destruct (w =? 2)%N; [reflexivity|].
    destruct (_ || _); [reflexivity|]. symmetry. apply modify_id.
Qed.

(** Bytes per vertex of an attribute. *)
Definition bytesPerVertex (info : Precomputed.VertexAttributeInfo) : N :=
  (DATA_TYPE_BYTES (Precomputed.dataType info) * Precomputed.numComponents info)%N.

(** The views of the attributes, one after the other from [curOffset]. *)
Fixpoint attributeViews (numVertices : N)
    (infos : list Precomputed.VertexAttributeInfo) (curOffset : N)
  : list TypedArray.view :=
  match infos with
  | [] => []
  | info :: infos =>
      let totalBytes := (bytesPerVertex info * numVertices)%N in
      TypedArray.mkView curOffset totalBytes
      :: attributeViews numVertices infos (curOffset + totalBytes)
  end.

Lemma attributeViews_start numVertices infos curOffset j v :
  attributeViews numVertices infos curOffset !! j = Some v ->
  N.to_nat curOffset <= start v.
Proof.
  revert curOffset j. induction infos as [|info infos IH];
    intros curOffset [|j] Hj; simpl in Hj; try discriminate.
  - injection Hj as <-. unfold start. simpl. lia.
  - apply IH in Hj. lia.
Qed.

(** The attribute loop: the views it pushes, the offset it reaches, and the
    buffer it leaves, which differs from the one it was given only inside
    these views, each view showing the conversion of its own bytes. *)
Lemma decodeAttributes_spec numVertices infos curOffset attributes response
    response' attributes' curOffset' :
  Precomputed.decodeAttributes numVertices infos curOffset attributes response
    = (response', Normal (attributes', curOffset')) ->
  attributes' = attributes ++ attributeViews numVertices infos curOffset
  /\ (curOffset <= curOffset')%N
  /\ same_between 0 (N.to_nat curOffset) response response'
  /\ same_between (N.to_nat curOffset') (length response) response response'
  /\ forall j info v,
      infos !! j = Some info ->
      attributeViews numVertices infos curOffset !! j = Some v ->
      stop v <= N.to_nat curOffset'
      /\ fits v response
      /\ TypedArray.contents response' v
         = converted (bytesPerVertex info) (TypedArray.contents response v).
Proof.
  revert curOffset attributes response.
  induction infos as [|info infos IH];
    intros curOffset attributes response Hdec; simpl in Hdec.
  - injection Hdec as <- <- <-. rewrite app_nil_r.
    split; [reflexivity|]. split; [lia|].
    split; [apply same_between_refl|]. split; [apply same_between_refl|].
    intros j info v Hj. destruct j; discriminate.
  - fold (bytesPerVertex info) in Hdec.
    set (totalBytes := (bytesPerVertex info * numVertices)%N) in *.
    destruct (TypedArray.create 1 response curOffset (Some totalBytes))
      as [attribute|] eqn:Hcreate; [|discriminate].
    apply create_Some in Hcreate as [-> Hfit].
    rewrite N.mul_1_r in *.
    set (attribute := TypedArray.mkView curOffset totalBytes) in *.
    rewrite convertAttribute_spec in Hdec.
    set (response1 := TypedArray.modify _ attribute response) in *.
    destruct (modify_outside (converted (bytesPerVertex info)) response
                attribute Hfit (converted_length _)) as [Hbefore Hafter].
    fold response1 in Hbefore, Hafter.
    assert (Hstart : start attribute = N.to_nat curOffset) by reflexivity.
    assert (Hstop : stop attribute = N.to_nat (curOffset + totalBytes))
      by (unfold stop; simpl; lia).
    rewrite Hstart in Hbefore. rewrite Hstop in Hafter.
    destruct (IH _ _ _ Hdec) as (Hviews & Hle & Hlow & Hhigh & Heach).
    assert (Hlen1 : length response1 = length response) by apply Hbefore.
    rewrite Hlen1 in Hhigh.
    split.
    { rewrite Hviews, <- app_assoc. reflexivity. }
    split; [lia|]. split.
    { eapply same_between_trans; [exact Hbefore|].
      eapply same_between_weaken; [| |exact Hlow]; lia. }
    split.
    { eapply same_between_trans; [|exact Hhigh].
      eapply same_between_weaken; [| |exact Hafter]; lia. }
    intros [|j] info' v Hinfo Hv; cbn [lookup list_lookup attributeViews] in Hinfo, Hv.
    + injection Hinfo as <-. injection Hv as <-. fold totalBytes attribute.
      split; [lia|]. split; [exact Hfit|].
      rewrite (contents_same 0 (N.to_nat (curOffset + totalBytes))
                 response1 response' attribute Hlow) by lia.
      apply modify_contents; [exact Hfit | apply converted_length].
    + fold totalBytes in Hv.
      destruct (Heach j info' v Hinfo Hv) as (Hin & Hfit' & Hconv).
      unfold fits in Hfit'. rewrite Hlen1 in Hfit'.
      split; [exact Hin|]. split; [exact Hfit'|]. rewrite Hconv. f_equal.
      pose proof (attributeViews_start _ _ _ _ _ Hv) as Hge.
      exact (contents_same (N.to_nat (curOffset + totalBytes)) (length response)
               response response1 v Hafter Hge Hfit').
Qed.

Lemma create_fits size data offset n v :
  TypedArray.create size data offset n = Some v ->
  TypedArray.byteOffset v = offset /\ fits v data.
Proof.
  destruct n as [n|].
  - intros [-> Hfit]%create_Some. split; [reflexivity|exact Hfit].
  - unfold TypedArray.create, TypedArray.bufferLength.
    destruct (negb _); [discriminate|]. destruct (negb _); [discriminate|].
    destruct (N.ltb_spec (N.of_nat (length data)) offset); [discriminate|].
    intros [= <-]. split; [reflexivity|]. unfold fits, stop. simpl. lia.
Qed.

Lemma convertEndian32_outside v e data :
  fits v data ->
  same_between 0 (start v) data (Endian.convertEndian32 v e data)
  /\ same_between (stop v) (length data) data (Endian.convertEndian32 v e data).
Proof.
  intros Hfit. unfold Endian.convertEndian32. destruct (decide _).
  - split; apply same_between_refl.
  - apply modify_outside; [exact Hfit | apply swapEndian32_length].
Qed.

(** The geometry decoder writes only through its two views. *)
Lemma decodeVertexPositionsAndIndices_between verticesPerPrimitive data e
    vertexByteOffset numVertices indexByteOffset numPrimitives data' g :
  Mesh.decodeVertexPositionsAndIndices verticesPerPrimitive data e
    vertexByteOffset numVertices (Some indexByteOffset) numPrimitives
    = (data', Normal g) ->
  same_between (N.to_nat (vertexByteOffset + 12 * numVertices))
               (N.to_nat indexByteOffset) data data'.
Proof.
  unfold Mesh.decodeVertexPositionsAndIndices.
  destruct (TypedArray.create 4 data vertexByteOffset _) as [vp|] eqn:Hvp;
    [|discriminate].
  apply create_Some in Hvp as [Hvp Hfit].
  destruct (convertEndian32_outside vp e data Hfit) as [_ Hafter].
  set (data1 := Endian.convertEndian32 vp e data) in *.
  destruct (TypedArray.create 4 data1 indexByteOffset _) as [ix|] eqn:Hix;
    [|discriminate].
  apply create_fits in Hix as [Hoff Hfit'].
  destruct (_ || _); [discriminate|].
  intros [= <- _].
  destruct (convertEndian32_outside ix e data1 Hfit') as [Hbefore _].
  assert (Hlen : length data1 = length data) by apply Hafter.
  assert (Hstop : stop vp = N.to_nat (vertexByteOffset + 12 * numVertices))
    by (rewrite Hvp; unfold stop; simpl; lia).
  assert (Hstart : start ix = N.to_nat indexByteOffset)
    by (unfold start; rewrite Hoff; reflexivity).
  rewrite Hstop in Hafter. rewrite Hstart in Hbefore.
  destruct (decide (N.to_nat indexByteOffset <= length data)).
  - eapply same_between_trans.
    + eapply same_between_weaken; [| |exact Hafter]; lia.
    + eapply same_between_weaken; [| |exact Hbefore]; lia.
  - unfold fits, stop, start in *. lia.
Qed.

(** C10: in a decoded skeleton chunk, the bytes an attribute view shows are
    those of the response, converted according to the attribute's bytes per
    vertex alone: for 2, the 16-bit conversion to the host's order; for 4
    and for 8, the 32-bit conversion; for every other width, no conversion,
    the bytes being those of the response on any host. *)
Theorem skeleton_attribute_conversion response infos response' chunk :
  Precomputed.decodeSkeletonChunk response infos = (response', Normal chunk) ->
  exists numVertices,
    TypedArray.getUint32 response 0 true = Some numVertices
    /\ Precomputed.vertexAttributes chunk
       = attributeViews numVertices infos (8 + numVertices * 4 * 3)
    /\ forall j info v,
        infos !! j = Some info ->
        Precomputed.vertexAttributes chunk !! j = Some v ->
        let wire := TypedArray.contents response v in
        let host := TypedArray.contents response' v in
        (bytesPerVertex info = 2%N ->
         host = if decide (LITTLE = ENDIANNESS) then wire
                else Endian.swapEndian16 wire)
        /\ (bytesPerVertex info = 4%N \/ bytesPerVertex info = 8%N ->
            host = if decide (LITTLE = ENDIANNESS) then wire
                   else Endian.swapEndian32 wire)
        /\ (bytesPerVertex info <> 2%N -> bytesPerVertex info <> 4%N ->
            bytesPerVertex info <> 8%N -> host = wire).
Proof.
  unfold Precomputed.decodeSkeletonChunk.
  destruct (TypedArray.getUint32 response 0 true) as [numVertices|];
    [|discriminate].
  destruct (TypedArray.getUint32 response 4 true) as [numEdges|];
    [|discriminate].
  destruct (Precomputed.decodeAttributes numVertices infos
              (8 + numVertices * 4 * 3) [] response)
    as [response1 [[attributes curOffset]|e]] eqn:Hattrs; [|discriminate].
  destruct (Precomputed.decodeSkeletonVertexPositionsAndIndices response1
              LITTLE 8 numVertices (Some curOffset) (Some numEdges))
    as [response2 [g|e]] eqn:Hgeo; [|discriminate].
  intros [= <- <-]. exists numVertices. split; [reflexivity|].
  apply decodeAttributes_spec in Hattrs as (-> & Hle & _ & _ & Heach).
  apply decodeVertexPositionsAndIndices_between in Hgeo.
  cbn [Precomputed.vertexAttributes app]. split; [reflexivity|].
  intros j info v Hinfo Hv.
  set (wire := TypedArray.contents response v).
  set (host := TypedArray.contents response2 v).
  destruct (Heach j info v Hinfo Hv) as (Hstop & _ & Hconv).
  pose proof (attributeViews_start _ _ _ _ _ Hv) as Hstart.
  assert (Hhost : host = converted (bytesPerVertex info) wire).
  { unfold host, wire. rewrite <- Hconv.
    apply (contents_same _ _ _ _ _ Hgeo); lia. }
  rewrite Hhost. unfold converted.
  destruct (decide (LITTLE = ENDIANNESS)); [done|].
  split; [intros ->; reflexivity|]. split; [intros [-> | ->]; reflexivity|].
  intros H2 H4 H8.
  destruct (N.eqb_spec (bytesPerVertex info) 2); [done|].
  destruct (N.eqb_spec (bytesPerVertex info) 4); [done|].
  destruct (N.eqb_spec (bytesPerVertex info) 8); done.
Qed.

End skeleton.

(** The scalar types of [neuroglancer/util/data_type] and their sizes, for
    the examples. *)
Inductive ExampleDataType : Type := UINT8 | UINT16 | UINT32 | UINT64 | FLOAT32.

Definition example_data_types : DataTypes := {|
  DataType := ExampleDataType;
  DATA_TYPE_BYTES := fun t =>
    match t with
    | UINT8 => 1 | UINT16 => 2 | UINT32 => 4 | UINT64 => 8 | FLOAT32 => 4
    end%N;
|}.

Definition big_endian_host : Host := {| ENDIANNESS := BIG |}.

(** A skeleton of four vertices and no edge with three attributes: one
    [uint8], three [float32], one [uint16]. *)
Definition example_attributes
  : list (Precomputed.VertexAttributeInfo (H := example_data_types)) :=
  [ Precomputed.Build_VertexAttributeInfo example_data_types UINT8 1;
    Precomputed.Build_VertexAttributeInfo example_data_types FLOAT32 3;
    Precomputed.Build_VertexAttributeInfo example_data_types UINT16 1 ].

Definition example_skeleton : list byte :=
  [x04; x00; x00; x00; x00; x00; x00; x00]
  ++ replicate 48 x00
  ++ [x01; x02; x03; x04]
  ++ concat (replicate 12 [x0a; x0b; x0c; x0d])
  ++ [xa0; xa1; xa2; xa3; xa4; xa5; xa6; xa7].

Lemma skeleton_attribute_conversion_witness :
  let decoded :=
    (Precomputed.decodeSkeletonChunk (H := big_endian_host)
       (H0 := example_data_types) example_skeleton example_attributes).1 in
  TypedArray.contents decoded (TypedArray.mkView 56 4) = [x01; x02; x03; x04]
  /\ TypedArray.contents decoded (TypedArray.mkView 60 48)
     = concat (replicate 12 [x0a; x0b; x0c; x0d])
  /\ TypedArray.contents decoded (TypedArray.mkView 108 8)
     = [xa1; xa0; xa3; xa2; xa5; xa4; xa7; xa6].
Proof.
  intros decoded.
  assert (Hdecoded :
    Precomputed.decodeSkeletonChunk (H := big_endian_host)
      (H0 := example_data_types) example_skeleton example_attributes
    = (decoded,
       Normal {| Precomputed.vertexAttributes :=
                   [TypedArray.mkView 56 4; TypedArray.mkView 60 48;
                    TypedArray.mkView 108 8];
                 Precomputed.geometry :=
                   {| Mesh.vertexPositions := TypedArray.mkView 8 48;
                      Mesh.indices := TypedArray.mkView 116 0 |} |}))
    by (vm_compute; reflexivity).
  destruct (skeleton_attribute_conversion (H := big_endian_host)
              (H0 := example_data_types) _ _ _ _ Hdecoded)
    as (numVertices & _ & _ & Heach).
  split; [|split].
  - destruct (Heach 0 _ _ eq_refl eq_refl) as (_ & _ & Hother).
    rewrite Hother by (vm_compute; discriminate). reflexivity.
  - destruct (Heach 1 _ _ eq_refl eq_refl) as (_ & _ & Hother).
    rewrite Hother by (vm_compute; discriminate). reflexivity.
  - destruct (Heach 2 _ _ eq_refl eq_refl) as (Hswap & _ & _).
    rewrite Hswap by reflexivity. reflexivity.
Defined.

(** ** Vertex normals *)

Section normals.
Local Open Scope float_scope.
Implicit Types (positions l : list float) (n : Mesh.vec3) (v k : N).

(** The element of a flat array at an index. *)
Definition at_ l (i : N) : option float := l !! N.to_nat i.

(** The normal of vertex [v] in a flat array of normals. *)
Definition vertexNormal l v : option Mesh.vec3 :=
  x ← at_ l (v * 3)%N; y ← at_ l (v * 3 + 1)%N; z ← at_ l (v * 3 + 2)%N;
  Some (x, y, z).

Definition component n k : float :=
  match k with
  | 0%N => n.1.1
  | 1%N => n.1.2
  | _ => n.2
  end.

(** The accumulator of component [k] of vertex [v], as the triangles are
    gone through: the face normal of a triangle is added once for each of
    its corners that is [v]. *)
Definition addCorner v k (index : option N) n (acc : float) : float :=
  if decide (index = Some v) then Mesh.fround (acc + component n k) else acc.

Definition addTriangleAt positions v k (i0 i1 i2 : option N) (acc : float)
  : float :=
  let n := Mesh.faceNormal positions i0 i1 i2 in
  addCorner v k i2 n (addCorner v k i1 n (addCorner v k i0 n acc)).

Fixpoint accumulated positions (indices : list N) v k (acc : float) : float :=
  match indices with
  | i0 :: i1 :: i2 :: rest =>
      accumulated positions rest v k
        (addTriangleAt positions v k (Some i0) (Some i1) (Some i2) acc)
  | [i0; i1] => addTriangleAt positions v k (Some i0) (Some i1) None acc
  | [i0] => addTriangleAt positions v k (Some i0) None None acc
  | [] => acc
  end.

Lemma addAt_length l i x : length (Mesh.addAt l i x) = length l.
Proof.
  unfold Mesh.addAt. destruct (_ <? _)%N; [|reflexivity].
  apply length_alter.
Qed.

Lemma addAt_at l i x j :
  at_ (Mesh.addAt l i x) j
  = if decide (j = i) then (fun old => Mesh.fround (old + x)) <$> at_ l j
    else at_ l j.
Proof.
  unfold Mesh.addAt, at_. destruct (N.ltb_spec i (N.of_nat (length l))) as [Hlt|Hge].
  - destruct (decide (j = i)) as [->|Hne].
    + apply list_lookup_alter_eq.
    + apply list_lookup_alter_ne. lia.
  - destruct (decide (j = i)) as [->|Hne]; [|reflexivity].
    rewrite lookup_ge_None_2 by lia. reflexivity.
Qed.

Lemma addNormal_length l index n : length (Mesh.addNormal l index n) = length l.
Proof.
  unfold Mesh.addNormal. destruct index as [index|]; [|reflexivity].
  destruct n as [[n0 n1] n2]. rewrite !addAt_length. reflexivity.
Qed.

(** One corner: the three stores add the face normal to the accumulator of
    the corner's vertex and to no other. *)
Lemma addNormal_at l index n v k :
  (k < 3)%N ->
  at_ (Mesh.addNormal l index n) (v * 3 + k)
  = addCorner v k index n <$> at_ l (v * 3 + k).
Proof.
  intros Hk. unfold Mesh.addNormal, addCorner.
  destruct index as [index|].
  - destruct n as [[n0 n1] n2]. rewrite !addAt_at.
    destruct (decide (Some index = Some v)) as [[= ->]|Hne].
    + assert (Hcases : (k = 0 \/ k = 1 \/ k = 2)%N) by lia.
      destruct Hcases as [-> | [-> | ->]]; simpl;
        repeat (destruct (decide _) as [?|?]; try lia);
        destruct (at_ l _); reflexivity.
    + assert (index <> v) by congruence.
      repeat (destruct (decide _) as [?|?]; try lia).
      destruct (at_ l _); reflexivity.
  - destruct (decide (None = Some v)); [discriminate|].
    destruct (at_ l _); reflexivity.
Qed.

Lemma addTriangle_at positions i0 i1 i2 l v k :
  (k < 3)%N ->
  at_ (Mesh.addTriangle positions i0 i1 i2 l) (v * 3 + k)
  = addTriangleAt positions v k i0 i1 i2 <$> at_ l (v * 3 + k).
Proof.
  intros Hk. unfold Mesh.addTriangle, addTriangleAt.
  rewrite !addNormal_at by exact Hk.
  destruct (at_ l _); reflexivity.
Qed.

Lemma addTriangle_length positions i0 i1 i2 l :
  length (Mesh.addTriangle positions i0 i1 i2 l) = length l.
Proof. unfold Mesh.addTriangle. rewrite !addNormal_length. reflexivity. Qed.

(** The loop over the triangles computes, in every slot of the array, the
    accumulator of that component of that vertex. *)
Lemma accumulate_at positions : forall indices l v k,
  (k < 3)%N ->
  at_ (Mesh.accumulate positions indices l) (v * 3 + k)
  = accumulated positions indices v k <$> at_ l (v * 3 + k).
Proof.
  fix IH 1. intros [|i0 [|i1 [|i2 rest]]] l v k Hk;
    cbn [Mesh.accumulate accumulated].
  - destruct (at_ l _); reflexivity.
  - apply addTriangle_at, Hk.
  - apply addTriangle_at, Hk.
  - rewrite IH by exact Hk. rewrite addTriangle_at by exact Hk.
    destruct (at_ l _); reflexivity.
Qed.

Lemma accumulate_length positions : forall indices l,
  length (Mesh.accumulate positions indices l) = length l.
Proof.
  fix IH 1. intros [|i0 [|i1 [|i2 rest]]] l; cbn [Mesh.accumulate];
    rewrite ?IH, ?addTriangle_length; reflexivity.
Qed.

End normals.

Section normalize.
Local Open Scope float_scope.
Implicit Types (positions l : list float) (v k : N).

Lemma normalizeAll_length : forall l, length (Mesh.normalizeAll l) = length l.
Proof.
  fix IH 1. intros [|x [|y [|z rest]]]; try reflexivity.
  cbn [Mesh.normalizeAll]. destruct (Mesh.vec3_normalize (x, y, z)) as [[x' y'] z'].
  simpl. rewrite IH. reflexivity.
Qed.

(** The last loop normalizes the normal of every vertex. *)
Lemma normalizeAll_lookup (m : nat) : forall l x y z,
  l !! (3 * m)%nat = Some x -> l !! (3 * m + 1)%nat = Some y ->
  l !! (3 * m + 2)%nat = Some z ->
  Mesh.normalizeAll l !! (3 * m)%nat
    = Some (Mesh.vec3_normalize (x, y, z)).1.1
  /\ Mesh.normalizeAll l !! (3 * m + 1)%nat
     = Some (Mesh.vec3_normalize (x, y, z)).1.2
  /\ Mesh.normalizeAll l !! (3 * m + 2)%nat
     = Some (Mesh.vec3_normalize (x, y, z)).2.
Proof.
  induction m as [|m IH]; intros l x y z Hx Hy Hz;
    pose proof (lookup_lt_Some _ _ _ Hz) as Hlen;
    destruct l as [|a [|b [|c rest]]]; simpl in Hlen; try lia.
  - cbn [lookup list_lookup Nat.mul Nat.add] in Hx, Hy, Hz |- *.
    injection Hx as ->. injection Hy as ->. injection Hz as ->.
    cbn [Mesh.normalizeAll].
    destruct (Mesh.vec3_normalize (x, y, z)) as [[x' y'] z']. done.
  - replace (3 * S m)%nat with (S (S (S (3 * m)))) in * by lia.
    cbn [Mesh.normalizeAll].
    destruct (Mesh.vec3_normalize (a, b, c)) as [[a' b'] c'].
    cbn [lookup list_lookup Nat.add] in Hx, Hy, Hz |- *.
    exact (IH rest x y z Hx Hy Hz).
Qed.

Lemma normalizeAll_vertex l v a :
  vertexNormal l v = Some a ->
  vertexNormal (Mesh.normalizeAll l) v = Some (Mesh.vec3_normalize a).
Proof.
  unfold vertexNormal, at_.
  replace (N.to_nat (v * 3)) with (3 * N.to_nat v)%nat by lia.
  replace (N.to_nat (v * 3 + 1)) with (3 * N.to_nat v + 1)%nat by lia.
  replace (N.to_nat (v * 3 + 2)) with (3 * N.to_nat v + 2)%nat by lia.
  destruct (l !! (3 * N.to_nat v)%nat) as [x|] eqn:Hx; [|discriminate].
  destruct (l !! (3 * N.to_nat v + 1)%nat) as [y|] eqn:Hy; [|discriminate].
  destruct (l !! (3 * N.to_nat v + 2)%nat) as [z|] eqn:Hz; [|discriminate].
  intros Ha. cbn [mbind option_bind] in Ha. injection Ha as <-.
  destruct (normalizeAll_lookup _ _ _ _ _ Hx Hy Hz) as (Hx' & Hy' & Hz').
  rewrite Hx', Hy', Hz'. cbn [mbind option_bind].
  destruct (Mesh.vec3_normalize (x, y, z)) as [[x' y'] z']. reflexivity.
Qed.


Lemma zeros_at n i :
  at_ (replicate n 0) i = if decide (N.to_nat i < n)%nat then Some 0 else None.
Proof.
  unfold at_. destruct (decide _) as [Hlt|Hge].
  - apply lookup_replicate_2, Hlt.
  - apply lookup_ge_None_2. rewrite length_replicate. lia.
Qed.


End normalize.

Section normals_examples.
Local Open Scope float_scope.

(** A right triangle in the plane [z = 0], and a fourth vertex. *)
Definition example_positions : list float :=
  [0; 0; 0;  1; 0; 0;  0; 1; 0;  5; 5; 5].



End normals_examples.

(* ===================================================================== *)
(** * Part III: further properties of the code                           *)
(* ===================================================================== *)

(** ** The wire format of the graph server's answers *)

(** The byte of a number below 256. *)
Definition byte_of (n : N) : byte := default x00 (Byte.of_N (n mod 256)).

(** The four bytes of a 32-bit word, least significant first, and the
    eight bytes of a 64-bit id: its low word, then its high word. *)
Definition le32 (w : N) : list byte :=
  [byte_of w; byte_of (w / 2 ^ 8); byte_of (w / 2 ^ 16); byte_of (w / 2 ^ 24)].

Definition le64 (x : Uint64) : list byte :=
  le32 (Uint64.low x) ++ le32 (Uint64.high x).

Lemma byte_of_to_N n : Byte.to_N (byte_of n) = (n mod 256)%N.
Proof.
  unfold byte_of.
  pose proof (Byte.to_of_N_option_map (n mod 256)) as Hb.
  assert (Hlt : (n mod 256 < 256)%N) by (apply N.mod_upper_bound; lia).
  destruct (N.leb_spec (n mod 256) 255) as [_|Hgt]; [|lia].
  destruct (Byte.of_N (n mod 256)) as [b|]; [|discriminate].
  simpl in *. congruence.
Qed.

Lemma word_le_le32 (w : N) :
  TypedArray.word_le (byte_of w) (byte_of (w / 2 ^ 8)) (byte_of (w / 2 ^ 16))
    (byte_of (w / 2 ^ 24))
  = (w mod 2 ^ 32)%N.
Proof.
  unfold TypedArray.word_le. rewrite !byte_of_to_N.
  change (2 ^ 8)%N with 256%N. change (2 ^ 16)%N with (256 * 256)%N.
  change (2 ^ 24)%N with (256 * 256 * 256)%N.
  change (2 ^ 32)%N with (256 * (256 * (256 * 256)))%N.
  rewrite <- !N.Div0.div_div.
  rewrite !N.Div0.mod_mul_r.
  lia.
Qed.

Lemma words_le32 (w : N) (rest : list byte) :
  TypedArray.words LITTLE (le32 w ++ rest)
  = (w mod 2 ^ 32)%N :: TypedArray.words LITTLE rest.
Proof.
  unfold le32. cbn [app TypedArray.words TypedArray.word_of].
  rewrite word_le_le32. reflexivity.
Qed.

Lemma make_low_high (x : Uint64) :
  Uint64.make (Uint64.low x) (Uint64.high x) = x.
Proof.
  unfold Uint64.make, Uint64.low, Uint64.high.
  rewrite (N.div_mod x (2 ^ 32)) at 3 by discriminate. lia.
Qed.

Lemma low_high_bounds (x : Uint64) :
  (x < 2 ^ 64)%N ->
  (Uint64.low x mod 2 ^ 32 = Uint64.low x
   /\ Uint64.high x mod 2 ^ 32 = Uint64.high x)%N.
Proof.
  intros Hx. unfold Uint64.low, Uint64.high. split.
  - apply N.Div0.mod_mod.
  - apply N.mod_small. apply N.Div0.div_lt_upper_bound.
    change (2 ^ 32 * 2 ^ 32)%N with (2 ^ 64)%N. exact Hx.
Qed.

Lemma words_le64 (x : Uint64) (rest : list byte) :
  (x < 2 ^ 64)%N ->
  TypedArray.words LITTLE (le64 x ++ rest)
  = Uint64.low x :: Uint64.high x :: TypedArray.words LITTLE rest.
Proof.
  intros Hx. destruct (low_high_bounds x Hx) as [Hl Hh].
  unfold le64. rewrite <- app_assoc, !words_le32, Hl, Hh. reflexivity.
Qed.

(** The whole buffer through [new Uint32Array(response)]. *)
Lemma Uint32Array_of_spec `{Host} (response : list byte) :
  ChunkedGraph.Uint32Array_of response
  = if (N.of_nat (length response) mod 4 =? 0)%N
    then Some (TypedArray.words ENDIANNESS response) else None.
Proof.
  unfold ChunkedGraph.Uint32Array_of, TypedArray.create, TypedArray.bufferLength.
  change (0 mod 4 =? 0)%N with true. cbn [negb].
  destruct (N.of_nat (length response) mod 4 =? 0)%N; [|reflexivity].
  cbn [negb]. destruct (N.ltb_spec (N.of_nat (length response)) 0); [lia|].
  cbn [mbind option_bind]. f_equal. f_equal.
  unfold TypedArray.contents. cbn [TypedArray.byteOffset TypedArray.byteLength].
  rewrite N.sub_0_r, Nat2N.id. cbn [N.to_nat drop]. apply firstn_all.
Qed.

Lemma words_length (e : Endianness) : forall l : list byte,
  length (TypedArray.words e l) = (length l / 4)%nat.
Proof.
  fix IH 1. intros [|b0 [|b1 [|b2 [|b3 l]]]]; try reflexivity.
  cbn [TypedArray.words length]. rewrite IH.
  replace (S (S (S (S (length l))))) with (length l + 1 * 4)%nat by lia.
  rewrite Nat.div_add by discriminate. lia.
Qed.

(** The words of a sequence of ids on the wire. *)
Lemma words_le64s (ids : list Uint64) :
  Forall (fun x => (x < 2 ^ 64)%N) ids ->
  TypedArray.words LITTLE (concat (le64 <$> ids))
  = ids ≫= (fun x => [Uint64.low x; Uint64.high x]).
Proof.
  induction 1 as [|x ids Hx _ IH]; [reflexivity|].
  cbn [fmap list_fmap concat mbind list_bind app].
  rewrite (words_le64 x _ Hx), IH. reflexivity.
Qed.

Lemma le64s_length (ids : list Uint64) :
  length (concat (le64 <$> ids)) = (8 * length ids)%nat.
Proof.
  induction ids as [|x ids IH]; [reflexivity|].
  cbn [fmap list_fmap concat]. rewrite length_app, IH.
  change (length (le64 x)) with 8%nat. simpl. lia.
Qed.

Lemma pairs_lookup (ids : list Uint64) (i : nat) :
  let ws := ids ≫= (fun x => [Uint64.low x; Uint64.high x]) in
  ws !! (2 * i)%nat = Uint64.low <$> ids !! i
  /\ ws !! (2 * i + 1)%nat = Uint64.high <$> ids !! i.
Proof.
  revert i. induction ids as [|x ids IH]; intros i; [done|].
  destruct i as [|i]; [done|].
  replace (2 * S i)%nat with (S (S (2 * i))) by lia.
  cbn [mbind list_bind app lookup list_lookup Nat.add]. apply IH.
Qed.

Lemma pairs_length (ids : list Uint64) :
  length (ids ≫= (fun x => [Uint64.low x; Uint64.high x])) = (2 * length ids)%nat.
Proof.
  induction ids as [|x ids IH]; [reflexivity|].
  cbn [mbind list_bind app length]. rewrite IH. lia.
Qed.

Section graph_responses.
Context `{Host}.
Implicit Types (this : ChunkedGraph.ChunkedGraphLayer) (response : list byte).

(** X1: with a graph server, [getRoot] and [mergeSegments] each send one
    POST request and, on a little-endian host, resolve to the 64-bit id
    whose eight little-endian bytes begin the response; the words after the
    first two are not read. *)
Theorem root_response_round_trip this (x : Uint64) (rest : list byte) :
  ENDIANNESS = LITTLE ->
  ChunkedGraph.url this <> "" ->
  (x < 2 ^ 64)%N ->
  (N.of_nat (length rest) mod 4 = 0)%N ->
  (forall selection, exists req k,
      ChunkedGraph.getRoot this selection = Await req k
      /\ req_url req = ChunkedGraph.url this +:+ "/1.0/graph/root"
      /\ req_method req = "POST"
      /\ k (Fulfilled (le64 x ++ rest)) = Fulfilled x)
  /\ (forall first second, exists req k,
      ChunkedGraph.mergeSegments this first second = Await req k
      /\ req_url req = ChunkedGraph.url this +:+ "/1.0/graph/merge"
      /\ req_method req = "POST"
      /\ k (Fulfilled (le64 x ++ rest)) = Fulfilled x).
Proof.
  intros Hhost Hurl Hx Hrest.
  assert (Hdecode :
    ChunkedGraph.decodeRoot (Fulfilled (le64 x ++ rest)) = Fulfilled x).
  { unfold ChunkedGraph.decodeRoot. rewrite Uint32Array_of_spec.
    rewrite length_app. change (length (le64 x)) with 8%nat.
    replace (N.of_nat (8 + length rest)) with (N.of_nat (length rest) + 2 * 4)%N
      by lia.
    rewrite N.Div0.mod_add, Hrest. change (0 =? 0)%N with true. cbv iota.
    rewrite Hhost, (words_le64 x rest Hx).
    unfold ChunkedGraph.word. cbn [lookup list_lookup default id].
    rewrite make_low_high. reflexivity. }
  split.
  - intros selection. unfold ChunkedGraph.getRoot.
    destruct (decide (ChunkedGraph.url this = "")); [contradiction|].
    eexists _, _. split; [reflexivity|]. simpl. auto.
  - intros first second. unfold ChunkedGraph.mergeSegments.
    destruct (decide (ChunkedGraph.url this = "")); [contradiction|].
    eexists _, _. split; [reflexivity|]. simpl. auto.
Qed.

(** X2: with a graph server, [splitSegments] sends one POST request and, on
    a little-endian host, resolves to the list of the ids whose little-endian
    bytes (eight for each, low word first) make up the response, in their
    order; an empty response gives the empty list. *)
Theorem split_response_round_trip this (ids : list Uint64) :
  ENDIANNESS = LITTLE ->
  ChunkedGraph.url this <> "" ->
  Forall (fun x => (x < 2 ^ 64)%N) ids ->
  forall sources sinks, exists req k,
    ChunkedGraph.splitSegments this sources sinks = Await req k
    /\ req_url req = ChunkedGraph.url this +:+ "/1.0/graph/split"
    /\ req_method req = "POST"
    /\ k (Fulfilled (concat (le64 <$> ids))) = Fulfilled ids.
Proof.
  intros Hhost Hurl Hids sources sinks. unfold ChunkedGraph.splitSegments.
  destruct (decide (ChunkedGraph.url this = "")); [contradiction|].
  eexists _, _. split; [reflexivity|]. cbn [req_url req_method].
  split; [reflexivity|]. split; [reflexivity|].
  unfold ChunkedGraph.decodeRoots. rewrite Uint32Array_of_spec, le64s_length.
  replace (N.of_nat (8 * length ids)) with (0 + N.of_nat (2 * length ids) * 4)%N
    by lia.
  rewrite N.Div0.mod_add. change (0 mod 4 =? 0)%N with true. cbv iota.
  rewrite Hhost, (words_le64s ids Hids), pairs_length.
  replace (Nat.even (2 * length ids)) with true
    by (symmetry; apply Nat.even_spec; exists (length ids); reflexivity).
  replace (2 * length ids / 2)%nat with (length ids)
    by (rewrite Nat.mul_comm, Nat.div_mul; [reflexivity|discriminate]).
  f_equal. apply list_eq. intros i.
  rewrite list_lookup_fmap.
  destruct (pairs_lookup ids i) as [Hlow Hhigh].
  destruct (ids !! i) as [x|] eqn:Hi.
  - rewrite lookup_seq_lt by (eapply lookup_lt_Some; exact Hi).
    cbn [fmap option_fmap option_map Nat.add]. unfold ChunkedGraph.word.
    rewrite Hlow, Hhigh. cbn [fmap option_fmap option_map default id].
    rewrite make_low_high. reflexivity.
  - rewrite lookup_seq_ge by (apply lookup_ge_None; exact Hi). reflexivity.
Qed.

(** X3: with a graph server, the three operations pass the failure of the
    transport on as it is; [getRoot] and [mergeSegments] are fulfilled when
    the length of the response is a multiple of 4 and rejected with a
    [RangeError] otherwise; [splitSegments] is fulfilled, with one id for
    every 8 bytes, when the length is a multiple of 8, and rejected with a
    [RangeError] otherwise. *)
Theorem graph_response_errors this :
  ChunkedGraph.url this <> "" ->
  (forall selection, exists req,
      ChunkedGraph.getRoot this selection = Await req ChunkedGraph.decodeRoot)
  /\ (forall first second, exists req,
      ChunkedGraph.mergeSegments this first second
      = Await req ChunkedGraph.decodeRoot)
  /\ (forall sources sinks, exists req,
      ChunkedGraph.splitSegments this sources sinks
      = Await req ChunkedGraph.decodeRoots)
  /\ (forall e, ChunkedGraph.decodeRoot (Rejected e) = Rejected e
                /\ ChunkedGraph.decodeRoots (Rejected e) = Rejected e)
  /\ (forall response,
        if (N.of_nat (length response) mod 4 =? 0)%N
        then exists root, ChunkedGraph.decodeRoot (Fulfilled response) = Fulfilled root
        else ChunkedGraph.decodeRoot (Fulfilled response)
             = Rejected (ThrownError "RangeError"))
  /\ (forall response,
        if (N.of_nat (length response) mod 8 =? 0)%N
        then exists roots,
               ChunkedGraph.decodeRoots (Fulfilled response) = Fulfilled roots
               /\ length roots = (length response / 8)%nat
        else ChunkedGraph.decodeRoots (Fulfilled response)
             = Rejected (ThrownError "RangeError")).
Proof.
  intros Hurl.
  unfold ChunkedGraph.getRoot, ChunkedGraph.mergeSegments,
    ChunkedGraph.splitSegments.
  destruct (decide (ChunkedGraph.url this = "")) as [|_]; [contradiction|].
  split; [eauto|]. split; [eauto|]. split; [eauto|]. split; [done|].
  split.
  - intros response. unfold ChunkedGraph.decodeRoot.
    rewrite Uint32Array_of_spec.
    destruct (_ =? _)%N; [eauto|reflexivity].
  - intros response. unfold ChunkedGraph.decodeRoots.
    rewrite Uint32Array_of_spec.
    set (n := length response).
    assert (Hws : length (TypedArray.words ENDIANNESS response) = (n / 4)%nat)
      by apply words_length.
    destruct (N.eqb_spec (N.of_nat n mod 8) 0) as [H8|H8].
    + assert (H8' : (n mod 8 = 0)%nat).
      { apply Nat2N.inj. rewrite Nat2N.inj_mod. exact H8. }
      pose proof (Nat.div_mod_eq n 8) as Hn. rewrite H8' in Hn.
      assert (H4 : (N.of_nat n mod 4 = 0)%N).
      { rewrite Hn. replace (N.of_nat (8 * (n / 8) + 0))
          with (0 + (2 * N.of_nat (n / 8)) * 4)%N by lia.
        rewrite N.Div0.mod_add. reflexivity. }
      rewrite H4. change (0 =? 0)%N with true. cbv iota.
      assert (Hq : (n / 4 = 2 * (n / 8))%nat).
      { rewrite Hn at 1. replace (8 * (n / 8) + 0)%nat
          with ((2 * (n / 8)) * 4)%nat by lia.
        apply Nat.div_mul. discriminate. }
      rewrite Hws, Hq.
      replace (Nat.even (2 * (n / 8))) with true
        by (symmetry; apply Nat.even_spec; exists (n / 8)%nat; reflexivity).
      eexists. split; [reflexivity|].
      rewrite length_fmap, length_seq.
      rewrite Nat.mul_comm, Nat.div_mul; [reflexivity|discriminate].
    + destruct (N.eqb_spec (N.of_nat n mod 4) 0) as [H4|H4]; [|reflexivity].
      rewrite Hws.
      destruct (Nat.even (n / 4)) eqn:Heven; [|reflexivity].
      exfalso. apply H8.
      assert (H4' : (n mod 4 = 0)%nat).
      { apply Nat2N.inj. rewrite Nat2N.inj_mod. exact H4. }
      apply Nat.even_spec in Heven as [m Hm].
      pose proof (Nat.div_mod_eq n 4) as Hn. rewrite H4', Hm in Hn.
      rewrite Hn. replace (N.of_nat (4 * (2 * m) + 0))
        with (0 + N.of_nat m * 8)%N by lia.
      rewrite N.Div0.mod_add. reflexivity.
Qed.

End graph_responses.

Definition example_server : ChunkedGraph.ChunkedGraphLayer :=
  {| ChunkedGraph.graphurl := "https://graph" |}.

Definition little_endian_host : Host := {| ENDIANNESS := LITTLE |}.

Lemma root_response_round_trip_witness :
  (forall selection, exists req k,
      ChunkedGraph.getRoot (H := little_endian_host) example_server selection
      = Await req k
      /\ req_url req = "https://graph/1.0/graph/root"
      /\ req_method req = "POST"
      /\ k (Fulfilled [x2a; x00; x00; x00; x01; x00; x00; x00;
                       xff; xff; xff; xff])
         = Fulfilled 4294967338%N)
  /\ (forall first second, exists req k,
      ChunkedGraph.mergeSegments (H := little_endian_host) example_server
        first second = Await req k
      /\ req_url req = "https://graph/1.0/graph/merge"
      /\ req_method req = "POST"
      /\ k (Fulfilled [x2a; x00; x00; x00; x01; x00; x00; x00;
                       xff; xff; xff; xff])
         = Fulfilled 4294967338%N).
Proof.
  apply (root_response_round_trip (H := little_endian_host) example_server
           4294967338%N [xff; xff; xff; xff]).
  - reflexivity.
  - discriminate.
  - reflexivity.
  - reflexivity.
Defined.

Lemma split_response_round_trip_witness :
  exists req k,
    ChunkedGraph.splitSegments (H := little_endian_host) example_server [] []
    = Await req k
    /\ req_url req = "https://graph/1.0/graph/split"
    /\ req_method req = "POST"
    /\ k (Fulfilled [x06; x00; x00; x00; x00; x00; x00; x00;
                     x07; x00; x00; x00; x01; x00; x00; x00])
       = Fulfilled [6%N; 4294967303%N].
Proof.
  apply (split_response_round_trip (H := little_endian_host) example_server
           [6%N; 4294967303%N]).
  - reflexivity.
  - discriminate.
  - repeat constructor.
Defined.

Lemma graph_response_errors_witness :
  (forall e, ChunkedGraph.decodeRoot (H := little_endian_host) (Rejected e)
             = Rejected e
             /\ ChunkedGraph.decodeRoots (H := little_endian_host) (Rejected e)
                = Rejected e)
  /\ ChunkedGraph.decodeRoot (H := little_endian_host)
       (Fulfilled [x01; x02; x03; x04; x05]) = Rejected (ThrownError "RangeError")
  /\ ChunkedGraph.decodeRoots (H := little_endian_host)
       (Fulfilled [x01; x00; x00; x00]) = Rejected (ThrownError "RangeError").
Proof.
  destruct (graph_response_errors (H := little_endian_host) example_server)
    as (_ & _ & _ & Hfail & Hroot & Hroots).
  - discriminate.
  - split; [exact Hfail|]. split.
    + exact (Hroot [x01; x02; x03; x04; x05]).
    + exact (Hroots [x01; x00; x00; x00]).
Defined.

(** ** The geometry decoder *)

Section decode_default.
Context `{Host}.
Implicit Types (data : list byte) (v : TypedArray.view).
Local Open Scope N_scope.

Lemma convertEndian32_length v e data :
  fits v data -> length (Endian.convertEndian32 v e data) = length data.
Proof. intros Hfit. apply (convertEndian32_outside v e data Hfit). Qed.

(** The two-argument form of the constructor. *)
Lemma create_to_end data offset :
  TypedArray.create 4 data offset None
  = if (offset mod 4 =? 0) && (TypedArray.bufferLength data mod 4 =? 0)
       && (offset <=? TypedArray.bufferLength data)
    then Some (TypedArray.mkView offset (TypedArray.bufferLength data - offset))
    else None.
Proof.
  unfold TypedArray.create.
  destruct (offset mod 4 =? 0); [|reflexivity].
  destruct (TypedArray.bufferLength data mod 4 =? 0); [|reflexivity].
  cbn [negb andb].
  destruct (N.ltb_spec (TypedArray.bufferLength data) offset),
    (N.leb_spec offset (TypedArray.bufferLength data)); try reflexivity; lia.
Qed.

Lemma create_counted data offset n :
  TypedArray.create 4 data offset (Some n)
  = if (offset mod 4 =? 0) && (offset + n * 4 <=? TypedArray.bufferLength data)
    then Some (TypedArray.mkView offset (n * 4)) else None.
Proof.
  unfold TypedArray.create.
  destruct (offset mod 4 =? 0); [|reflexivity]. cbn [negb andb].
  destruct (N.ltb_spec (TypedArray.bufferLength data) (offset + n * 4)),
    (N.leb_spec (offset + n * 4) (TypedArray.bufferLength data));
    try reflexivity; lia.
Qed.

(** The decoder in the form the fragment decoder calls it in, with neither
    an index offset nor a number of primitives, case by case. *)
Lemma decode_default_spec (verticesPerPrimitive : N) data (e : Endianness)
    (vertexByteOffset numVertices : N) :
  let len := TypedArray.bufferLength data in
  let r := Mesh.decodeVertexPositionsAndIndices verticesPerPrimitive data e
             vertexByteOffset numVertices None None in
  let count := (len - (vertexByteOffset + 12 * numVertices)) / 4 in
  length r.1 = length data
  /\ r.2 =
     if (vertexByteOffset mod 4 =? 0)
        && (vertexByteOffset + 12 * numVertices <=? len)
        && (len mod 4 =? 0)
     then
       if (verticesPerPrimitive =? 0) || negb (count mod verticesPerPrimitive =? 0)
       then Throw (Error ("Number of indices is not a multiple of "
                          +:+ decimal verticesPerPrimitive +:+ ": "
                          +:+ decimal count +:+ "."))
       else Normal {| Mesh.vertexPositions :=
                        TypedArray.mkView vertexByteOffset (12 * numVertices);
                      Mesh.indices :=
                        TypedArray.mkView (vertexByteOffset + 12 * numVertices)
                          (len - (vertexByteOffset + 12 * numVertices)) |}
     else Throw RangeError.
Proof.
  intros len r count. unfold r, Mesh.decodeVertexPositionsAndIndices.
  rewrite create_counted. fold len.
  replace (numVertices * 3 * 4) with (12 * numVertices) by lia.
  destruct (N.eqb_spec (vertexByteOffset mod 4) 0) as [Halign|Halign];
    [|split; reflexivity].
  destruct (N.leb_spec (vertexByteOffset + 12 * numVertices) len) as [Hfit|Hfit];
    [|split; reflexivity].
  cbn [andb].
  set (vp := TypedArray.mkView vertexByteOffset (12 * numVertices)).
  assert (Hvp : fits vp data).
  { unfold fits, stop, vp, len, TypedArray.bufferLength in *. simpl. lia. }
  pose proof (convertEndian32_length vp e data Hvp) as Hlen1.
  set (data1 := Endian.convertEndian32 vp e data) in *.
  rewrite create_to_end.
  assert (Hlen1' : TypedArray.bufferLength data1 = len)
    by (unfold TypedArray.bufferLength, len; rewrite Hlen1; reflexivity).
  rewrite Hlen1'.
  assert (Halign' : (vertexByteOffset + 12 * numVertices) mod 4 = 0).
  { replace (vertexByteOffset + 12 * numVertices)
      with (vertexByteOffset + (3 * numVertices) * 4) by lia.
    rewrite N.Div0.mod_add. exact Halign. }
  rewrite Halign'. change (0 =? 0) with true. cbn [andb].
  destruct (N.eqb_spec (len mod 4) 0) as [Hlen4|Hlen4];
    [|split; [exact Hlen1|reflexivity]].
  destruct (N.leb_spec (vertexByteOffset + 12 * numVertices) len) as [_|?];
    [|lia].
  cbn [andb].
  set (ix := TypedArray.mkView (vertexByteOffset + 12 * numVertices)
               (len - (vertexByteOffset + 12 * numVertices))).
  change (TypedArray.length32 ix) with count.
  destruct ((verticesPerPrimitive =? 0)
            || negb (count mod verticesPerPrimitive =? 0));
    [split; [exact Hlen1|reflexivity]|].
  split; [|reflexivity]. cbn [fst].
  rewrite convertEndian32_length; [exact Hlen1|].
  unfold fits, stop, ix, len, TypedArray.bufferLength in *. simpl. lia.
Qed.

End decode_default.

Lemma multiple_of (k a : N) : k <> 0%N -> (a mod k = 0)%N -> exists q, a = (q * k)%N.
Proof.
  intros Hk Hm. exists (a / k)%N.
  rewrite (N.div_mod a k) at 1 by exact Hk. lia.
Qed.

Section decode_to_end.
Context `{Host}.
Implicit Types (data response : list byte).
Local Open Scope N_scope.

(** X4: called with neither an index offset nor a number of primitives,
    [decodeVertexPositionsAndIndices] ends normally exactly when the vertex
    offset and the length of the buffer are multiples of 4, the vertex
    data fits, and the number of 32-bit words after the vertex data is a
    multiple of [verticesPerPrimitive] (which is not 0); the indices then
    start at the end of the vertex data and go on to the end of the buffer.
    The buffer keeps its length however the call ends. *)
Theorem decode_to_end_of_buffer (verticesPerPrimitive : N) data
    (endianness : Endianness) (vertexByteOffset numVertices : N) :
  let len := TypedArray.bufferLength data in
  let r := Mesh.decodeVertexPositionsAndIndices verticesPerPrimitive data
             endianness vertexByteOffset numVertices None None in
  length r.1 = length data
  /\ ((exists g, r.2 = Normal g) <->
      vertexByteOffset mod 4 = 0 /\ len mod 4 = 0
      /\ vertexByteOffset + 12 * numVertices <= len
      /\ verticesPerPrimitive <> 0
      /\ (verticesPerPrimitive
          | (len - (vertexByteOffset + 12 * numVertices)) / 4))
  /\ (forall g, r.2 = Normal g ->
        Mesh.vertexPositions g
        = TypedArray.mkView vertexByteOffset (12 * numVertices)
        /\ TypedArray.byteOffset (Mesh.indices g)
           = vertexByteOffset + 12 * numVertices
        /\ TypedArray.byteOffset (Mesh.indices g)
           + TypedArray.byteLength (Mesh.indices g) = len).
Proof.
  intros len r.
  destruct (decode_default_spec verticesPerPrimitive data endianness
              vertexByteOffset numVertices) as [Hlen Hr].
  fold len r in Hlen, Hr. split; [exact Hlen|].
  set (count := (len - (vertexByteOffset + 12 * numVertices)) / 4) in *.
  destruct (N.eqb_spec (vertexByteOffset mod 4) 0) as [Ha|Ha];
    [|rewrite Hr; split; [split; [intros [g [=]]|tauto]|discriminate]].
  destruct (N.leb_spec (vertexByteOffset + 12 * numVertices) len) as [Hfit|Hfit];
    [|rewrite Hr; split; [split; [intros [g [=]]|lia]|discriminate]].
  destruct (N.eqb_spec (len mod 4) 0) as [Hl|Hl];
    [|rewrite Hr; split; [split; [intros [g [=]]|tauto]|discriminate]].
  cbn [andb] in Hr.
  destruct (N.eqb_spec verticesPerPrimitive 0) as [Hz|Hz];
    [rewrite Hr; split; [split; [intros [g [=]]|tauto]|discriminate]|].
  destruct (N.eqb_spec (count mod verticesPerPrimitive) 0) as [Hm|Hm];
    cbn [orb negb] in Hr; rewrite Hr.
  - split.
    + split; [intros _|eauto].
      repeat (split; [assumption|]). apply N.Lcm0.mod_divide. exact Hm.
    + intros g [= <-].
      cbn [Mesh.vertexPositions Mesh.indices TypedArray.byteOffset
           TypedArray.byteLength].
      split; [reflexivity|]. split; [reflexivity|]. lia.
  - split; [|discriminate]. split; [intros [g [=]]|].
    intros (_ & _ & _ & _ & Hdiv). exfalso. apply Hm.
    apply N.Lcm0.mod_divide. exact Hdiv.
Qed.

End decode_to_end.

Lemma computeVertexNormals_length (positions : list float) (indices : list N) :
  length (Mesh.computeVertexNormals positions indices) = length positions.
Proof.
  unfold Mesh.computeVertexNormals.
  rewrite normalizeAll_length, accumulate_length. apply length_replicate.
Qed.

Section fragment.
Context `{Host}.
Implicit Types (data response : list byte) (v : TypedArray.view).
Local Open Scope N_scope.

Lemma Float32Array_elements_length data v :
  fits v data ->
  length (MeshChunk.Float32Array_elements data v)
  = (N.to_nat (TypedArray.byteLength v) / 4)%nat.
Proof.
  intros Hfit.
  unfold MeshChunk.Float32Array_elements, MeshChunk.Uint32Array_elements.
  rewrite length_fmap, words_length, (contents_length data v Hfit).
  reflexivity.
Qed.

(** The fragment decoder, case by case on the response. *)
Lemma decodeFragmentChunk_spec response :
  let len := TypedArray.bufferLength response in
  let r := PrecomputedMesh.decodeFragmentChunk response in
  length r.1 = length response
  /\ match TypedArray.getUint32 response 0 true with
     | None => r.2 = Throw RangeError
     | Some n =>
         if (4 + 12 * n <=? len) && (len mod 4 =? 0) then
           if ((len - (4 + 12 * n)) / 4) mod 3 =? 0 then
             exists t,
               r.2 = Normal t
               /\ Mesh.vertexPositions (MeshChunk.geometry t)
                  = TypedArray.mkView 4 (12 * n)
               /\ Mesh.indices (MeshChunk.geometry t)
                  = TypedArray.mkView (4 + 12 * n) (len - (4 + 12 * n))
               /\ length (MeshChunk.normals t) = N.to_nat (3 * n)
           else exists e, r.2 = Throw (Error e)
         else r.2 = Throw RangeError
     end.
Proof.
  intros len r. unfold r, PrecomputedMesh.decodeFragmentChunk.
  destruct (TypedArray.getUint32 response 0 true) as [n|]; [|done].
  unfold MeshChunk.decodeTriangleVertexPositionsAndIndices.
  destruct (decode_default_spec 3 response LITTLE 4 n) as [Hlen Hr].
  fold len in Hr.
  destruct (Mesh.decodeVertexPositionsAndIndices 3 response LITTLE 4 n None None)
    as [data' c]. cbn [fst snd] in Hlen, Hr.
  change (4 mod 4 =? 0) with true in Hr. cbn [andb] in Hr.
  destruct (N.leb_spec (4 + 12 * n) len) as [Hfit|Hfit];
    [|subst c; split; [exact Hlen|reflexivity]].
  destruct (N.eqb_spec (len mod 4) 0) as [Hl|Hl];
    [|subst c; split; [exact Hlen|reflexivity]].
  cbn [andb] in Hr |- *. change (3 =? 0) with false in Hr. cbn [orb] in Hr.
  destruct (N.eqb_spec (((len - (4 + 12 * n)) / 4) mod 3) 0) as [Hm|Hm];
    cbn [negb] in Hr; subst c; (split; [exact Hlen|]); [|eauto].
  eexists. split; [reflexivity|]. cbn [MeshChunk.geometry MeshChunk.normals
    Mesh.vertexPositions Mesh.indices].
  split; [reflexivity|]. split; [reflexivity|].
  rewrite computeVertexNormals_length, Float32Array_elements_length.
  - cbn [TypedArray.byteLength].
    replace (N.to_nat (12 * n)) with (N.to_nat (3 * n) * 4)%nat by lia.
    apply Nat.div_mul. discriminate.
  - unfold fits, stop, len, TypedArray.bufferLength in *. simpl. lia.
Qed.

(** X5: [decodeFragmentChunk] accepts exactly the responses that hold the
    number [n] of vertices as a little-endian word, then 12 bytes for each
    vertex, then 12 bytes for each of some number of triangles, and nothing
    else; the positions are then the [12 * n] bytes from offset 4, the
    indices the rest of the response, and there are [3 * n] normals.  The
    response keeps its length however the call ends. *)
Theorem fragment_wire_format response :
  let len := TypedArray.bufferLength response in
  let r := PrecomputedMesh.decodeFragmentChunk response in
  length r.1 = length response
  /\ ((exists t, r.2 = Normal t) <->
      exists n m, TypedArray.getUint32 response 0 true = Some n
                  /\ len = 4 + 12 * n + 12 * m)
  /\ (forall t, r.2 = Normal t ->
        exists n m,
          TypedArray.getUint32 response 0 true = Some n
          /\ len = 4 + 12 * n + 12 * m
          /\ Mesh.vertexPositions (MeshChunk.geometry t)
             = TypedArray.mkView 4 (12 * n)
          /\ Mesh.indices (MeshChunk.geometry t)
             = TypedArray.mkView (4 + 12 * n) (12 * m)
          /\ length (MeshChunk.normals t) = N.to_nat (3 * n)).
Proof.
  intros len r. destruct (decodeFragmentChunk_spec response) as [Hlen Hr].
  fold len r in Hlen, Hr. split; [exact Hlen|].
  assert (Hnormal : forall t, r.2 = Normal t ->
    exists n m,
      TypedArray.getUint32 response 0 true = Some n
      /\ len = 4 + 12 * n + 12 * m
      /\ Mesh.vertexPositions (MeshChunk.geometry t)
         = TypedArray.mkView 4 (12 * n)
      /\ Mesh.indices (MeshChunk.geometry t)
         = TypedArray.mkView (4 + 12 * n) (12 * m)
      /\ length (MeshChunk.normals t) = N.to_nat (3 * n)).
  { intros t Ht.
    destruct (TypedArray.getUint32 response 0 true) as [n|]; [|congruence].
    destruct (N.leb_spec (4 + 12 * n) len) as [Hfit|Hfit]; [|congruence].
    destruct (N.eqb_spec (len mod 4) 0) as [Hl|Hl]; [|congruence].
    cbn [andb] in Hr.
    destruct (N.eqb_spec (((len - (4 + 12 * n)) / 4) mod 3) 0) as [Hm|Hm];
      [|destruct Hr as [e He]; congruence].
    destruct Hr as (t' & Ht' & Hvp & Hix & Hn).
    assert (t' = t) as -> by congruence.
    destruct (multiple_of 4 len) as [q Hq]; [discriminate|exact Hl|].
    assert (Hcount : (len - (4 + 12 * n)) / 4 = q - 1 - 3 * n).
    { replace (len - (4 + 12 * n)) with ((q - 1 - 3 * n) * 4) by lia.
      apply N.div_mul. discriminate. }
    rewrite Hcount in Hm.
    destruct (multiple_of 3 _ ltac:(discriminate) Hm) as [m Hm'].
    exists n, m. split; [reflexivity|].
    assert (Hlen' : len = 4 + 12 * n + 12 * m) by lia.
    split; [exact Hlen'|]. split; [exact Hvp|]. split; [|exact Hn].
    rewrite Hix. f_equal. lia. }
  split; [|exact Hnormal]. split.
  - intros [t Ht]. destruct (Hnormal t Ht) as (n & m & Hn & Hm & _). eauto.
  - intros (n & m & Hn & Hm). rewrite Hn in Hr.
    destruct (N.leb_spec (4 + 12 * n) len) as [Hfit|Hfit]; [|lia].
    assert (Hl : len mod 4 = 0).
    { rewrite Hm. replace (4 + 12 * n + 12 * m) with (0 + (1 + 3 * n + 3 * m) * 4)
        by lia. rewrite N.Div0.mod_add. reflexivity. }
    rewrite Hl in Hr. change (0 =? 0) with true in Hr. cbn [andb] in Hr.
    assert (Hcount : ((len - (4 + 12 * n)) / 4) mod 3 = 0).
    { replace (len - (4 + 12 * n)) with ((3 * m) * 4) by lia.
      rewrite N.div_mul by discriminate.
      replace (3 * m) with (0 + m * 3) by lia.
      rewrite N.Div0.mod_add. reflexivity. }
    rewrite Hcount in Hr. change (0 =? 0) with true in Hr.
    destruct Hr as (t & Ht & _). eauto.
Qed.

(** X6: once a fragment has been decoded from a response of [len] bytes
    that holds [n] vertices, [downloadSucceeded] accounts
    [len - 4 + 12 * n] bytes of system memory and as many of GPU memory:
    the positions and indices of the response and the [3 * n] normals. *)
Theorem fragment_memory_accounting response (data' : list byte)
    (t : MeshChunk.Triangles) (buffer own : nat) (chunk : MeshChunk.FragmentChunk) :
  PrecomputedMesh.decodeFragmentChunk response = (data', Normal t) ->
  exists n chunk',
    TypedArray.getUint32 response 0 true = Some n
    /\ MeshChunk.downloadSucceeded (MeshChunk.assign buffer own t chunk)
       = Normal chunk'
    /\ MeshChunk.systemMemoryBytes chunk'
       = TypedArray.bufferLength response - 4 + 12 * n
    /\ MeshChunk.gpuMemoryBytes chunk'
       = TypedArray.bufferLength response - 4 + 12 * n.
Proof.
  intros Hdecode.
  destruct (decodeFragmentChunk_spec response) as [_ Hr].
  rewrite Hdecode in Hr. cbn [snd] in Hr.
  destruct (TypedArray.getUint32 response 0 true) as [n|]; [|discriminate].
  set (len := TypedArray.bufferLength response) in *.
  destruct (N.leb_spec (4 + 12 * n) len) as [Hfit|Hfit]; [|discriminate].
  destruct (len mod 4 =? 0); [|discriminate]. cbn [andb] in Hr.
  destruct (_ =? 0); [|destruct Hr as [e He]; discriminate].
  destruct Hr as (t' & [= <-] & Hvp & Hix & Hn).
  exists n. eexists. split; [reflexivity|].
  unfold MeshChunk.downloadSucceeded, MeshChunk.assign.
  cbn [MeshChunk.vertexPositions MeshChunk.indices MeshChunk.vertexNormals
       MeshChunk.byteLength].
  split; [reflexivity|].
  cbn [MeshChunk.systemMemoryBytes MeshChunk.gpuMemoryBytes].
  rewrite Hvp, Hix, Hn. cbn [TypedArray.byteLength]. lia.
Qed.

End fragment.

(** A fragment of one vertex and one triangle (three times the vertex). *)
Definition example_fragment : list byte :=
  [x01; x00; x00; x00] ++ replicate 12 x00 ++ replicate 12 x00.

Lemma fragment_memory_accounting_witness :
  exists chunk',
    MeshChunk.downloadSucceeded
      (MeshChunk.assign 0 1
         {| MeshChunk.geometry :=
              {| Mesh.vertexPositions := TypedArray.mkView 4 12;
                 Mesh.indices := TypedArray.mkView 16 12 |};
            MeshChunk.normals := replicate 3 0%float |}
         MeshChunk.create)
    = Normal chunk'
    /\ MeshChunk.systemMemoryBytes chunk' = 36%N
    /\ MeshChunk.gpuMemoryBytes chunk' = 36%N.
Proof.
  destruct (fragment_memory_accounting (H := little_endian_host)
              example_fragment example_fragment
              {| MeshChunk.geometry :=
                   {| Mesh.vertexPositions := TypedArray.mkView 4 12;
                      Mesh.indices := TypedArray.mkView 16 12 |};
                 MeshChunk.normals := replicate 3 0%float |}
              0%nat 1%nat MeshChunk.create)
    as (n & chunk' & Hn & Hok & Hsys & Hgpu).
  - vm_compute. reflexivity.
  - injection Hn as <-. exists chunk'. split; [exact Hok|].
    split; [exact Hsys|exact Hgpu].
Defined.

(** ** Serializing a fragment chunk *)

(** X7: [serialize] on a chunk that has its manifest and its three arrays
    ends normally, pushes the buffer of each array exactly once (an array
    that shares the buffer of an earlier one adds nothing), after the
    transfers it was given, and leaves the three arrays of the chunk
    [null]; serializing the chunk again throws a [TypeError] before it
    pushes anything. *)
Theorem serialize_transfers_once (msg0 : list (string * MeshChunk.MessageValue))
    (transfers0 : list nat) (this : MeshChunk.FragmentChunk)
    (key : string) (vp ix vn : MeshChunk.ArrayRef) :
  MeshChunk.manifestChunk this = Some key ->
  MeshChunk.vertexPositions this = Some vp ->
  MeshChunk.indices this = Some ix ->
  MeshChunk.vertexNormals this = Some vn ->
  let s := MeshChunk.serialize msg0 transfers0 this in
  let again := MeshChunk.serialize (MeshChunk.msg s) (MeshChunk.transfers s)
                 (MeshChunk.after s) in
  MeshChunk.thrown s = None
  /\ (exists pushed,
        MeshChunk.transfers s = transfers0 ++ pushed
        /\ NoDup pushed
        /\ forall b, b ∈ pushed <->
             b = MeshChunk.buffer vp \/ b = MeshChunk.buffer ix
             \/ b = MeshChunk.buffer vn)
  /\ MeshChunk.vertexPositions (MeshChunk.after s) = None
  /\ MeshChunk.indices (MeshChunk.after s) = None
  /\ MeshChunk.vertexNormals (MeshChunk.after s) = None
  /\ MeshChunk.thrown again = Some TypeError
  /\ MeshChunk.transfers again = MeshChunk.transfers s.
Proof.
  intros Hkey Hvp Hix Hvn s again.
  unfold again, s, MeshChunk.serialize. rewrite Hkey, Hvp, Hix, Hvn.
  cbn [MeshChunk.thrown MeshChunk.transfers MeshChunk.after MeshChunk.msg
       MeshChunk.manifestChunk MeshChunk.vertexPositions MeshChunk.indices
       MeshChunk.vertexNormals].
  split; [reflexivity|]. split; [|done].
  set (p := MeshChunk.buffer vp). set (i := MeshChunk.buffer ix).
  set (n := MeshChunk.buffer vn).
  exists ([p] ++ (if decide (i <> p) then [i] else [])
              ++ (if decide (n <> p /\ n <> i) then [n] else [])).
  split.
  - destruct (decide (i <> p)), (decide (n <> p /\ n <> i));
      rewrite <- ?app_assoc, ?app_nil_r; reflexivity.
  - destruct (decide (i <> p)) as [Hi|Hi], (decide (n <> p /\ n <> i)) as [Hn|Hn];
      cbn [app]; split;
      try (repeat constructor; set_solver);
      intros b; rewrite ?elem_of_cons, elem_of_nil;
      try apply dec_stable in Hi;
      destruct (decide (n = p)), (decide (n = i)); intuition congruence.
Qed.

Lemma serialize_transfers_once_witness :
  let chunk :=
    MeshChunk.mkFragmentChunk (Some "5") (Some "a")
      (Some {| MeshChunk.buffer := 7; MeshChunk.byteLength := 12 |})
      (Some {| MeshChunk.buffer := 7; MeshChunk.byteLength := 12 |})
      (Some {| MeshChunk.buffer := 8; MeshChunk.byteLength := 12 |})
      0 0 in
  let s := MeshChunk.serialize [] [3] chunk in
  MeshChunk.thrown s = None
  /\ MeshChunk.transfers s = [3; 7; 8]
  /\ MeshChunk.thrown
       (MeshChunk.serialize (MeshChunk.msg s) (MeshChunk.transfers s)
          (MeshChunk.after s)) = Some TypeError.
Proof.
  intros chunk s.
  destruct (serialize_transfers_once [] [3] chunk "5"
              {| MeshChunk.buffer := 7; MeshChunk.byteLength := 12 |}
              {| MeshChunk.buffer := 7; MeshChunk.byteLength := 12 |}
              {| MeshChunk.buffer := 8; MeshChunk.byteLength := 12 |}
              eq_refl eq_refl eq_refl eq_refl)
    as (Hnone & _ & _ & _ & _ & Hagain & _).
  split; [exact Hnone|]. split; [reflexivity|exact Hagain].
Defined.

(** ** Vertex normals: indices out of range *)

Section nan.
Local Open Scope float_scope.

Lemma add_nan_l (x : float) : nan + x = nan.
Proof.
  apply Prim2SF_inj. rewrite add_spec.
  change (Prim2SF nan) with S754_nan. reflexivity.
Qed.

Lemma add_nan_r (x : float) : x + nan = nan.
Proof.
  apply Prim2SF_inj. rewrite add_spec.
  change (Prim2SF nan) with S754_nan. destruct (Prim2SF x); reflexivity.
Qed.

Lemma sub_nan_l (x : float) : nan - x = nan.
Proof.
  apply Prim2SF_inj. rewrite sub_spec.
  change (Prim2SF nan) with S754_nan. reflexivity.
Qed.

Lemma sub_nan_r (x : float) : x - nan = nan.
Proof.
  apply Prim2SF_inj. rewrite sub_spec.
  change (Prim2SF nan) with S754_nan. destruct (Prim2SF x); reflexivity.
Qed.

Lemma mul_nan_l (x : float) : nan * x = nan.
Proof.
  apply Prim2SF_inj. rewrite mul_spec.
  change (Prim2SF nan) with S754_nan. reflexivity.
Qed.

Lemma mul_nan_r (x : float) : x * nan = nan.
Proof.
  apply Prim2SF_inj. rewrite mul_spec.
  change (Prim2SF nan) with S754_nan. destruct (Prim2SF x); reflexivity.
Qed.

Lemma fround_nan : Mesh.fround nan = nan.
Proof. reflexivity. Qed.

Lemma vec3_normalize_nan : Mesh.vec3_normalize (nan, nan, nan) = (nan, nan, nan).
Proof. vm_compute. reflexivity. Qed.

End nan.

(** The triangles of an index array: its complete groups of three. *)
Fixpoint triangles (indices : list N) : list (N * N * N) :=
  match indices with
  | i0 :: i1 :: i2 :: rest => (i0, i1, i2) :: triangles rest
  | _ => []
  end.

(** The index [i] is past the last vertex of [positions]. *)
Definition pastEnd (positions : list float) (i : N) : Prop :=
  (N.of_nat (length positions) <= i * 3)%N.

Section out_of_range.
Local Open Scope float_scope.
Implicit Types (positions : list float) (v k : N).

Lemma element_pastEnd positions i j :
  pastEnd positions i -> Mesh.element positions (Some i) j = nan.
Proof.
  unfold pastEnd, Mesh.element. intros Hi.
  destruct (N.ltb_spec (i * 3 + j) (N.of_nat (length positions)));
    [lia|reflexivity].
Qed.

(** The face normal of a triangle with a corner past the end. *)
Lemma faceNormal_pastEnd positions i0 i1 i2 :
  pastEnd positions i0 \/ pastEnd positions i1 \/ pastEnd positions i2 ->
  Mesh.faceNormal positions (Some i0) (Some i1) (Some i2) = (nan, nan, nan).
Proof.
  intros Hpast. unfold Mesh.faceNormal, Mesh.vec3_cross. cbv zeta.
  destruct Hpast as [H0|[H1|H2]].
  - rewrite !(element_pastEnd _ _ _ H0), !sub_nan_r, !fround_nan.
    rewrite !mul_nan_l, !sub_nan_l, !fround_nan. apply vec3_normalize_nan.
  - rewrite !(element_pastEnd _ _ _ H1), !sub_nan_l, !fround_nan.
    rewrite !mul_nan_l, !sub_nan_l, !fround_nan. apply vec3_normalize_nan.
  - rewrite !(element_pastEnd _ _ _ H2), !sub_nan_l, !fround_nan.
    rewrite !mul_nan_r, !sub_nan_l, !fround_nan. apply vec3_normalize_nan.
Qed.

Lemma component_nan k : component (nan, nan, nan) k = nan.
Proof. destruct k as [|[p|p|]]; reflexivity. Qed.

Lemma addCorner_nan v k index n : addCorner v k index n nan = nan.
Proof.
  unfold addCorner. destruct (decide _); [|reflexivity].
  rewrite add_nan_l. apply fround_nan.
Qed.

Lemma addCorner_poison v k (acc : float) :
  addCorner v k (Some v) (nan, nan, nan) acc = nan.
Proof.
  unfold addCorner. rewrite decide_True by reflexivity.
  rewrite component_nan, add_nan_r. apply fround_nan.
Qed.

Lemma addTriangleAt_nan positions v k i0 i1 i2 :
  addTriangleAt positions v k i0 i1 i2 nan = nan.
Proof. unfold addTriangleAt. rewrite !addCorner_nan. reflexivity. Qed.

Lemma accumulated_nan positions v k : forall indices,
  accumulated positions indices v k nan = nan.
Proof.
  fix IH 1. intros [|i0 [|i1 [|i2 rest]]]; cbn [accumulated];
    rewrite ?addTriangleAt_nan; [reflexivity..|apply IH].
Qed.

Lemma addTriangleAt_poison positions v k i0 i1 i2 acc :
  Mesh.faceNormal positions (Some i0) (Some i1) (Some i2) = (nan, nan, nan) ->
  v = i0 \/ v = i1 \/ v = i2 ->
  addTriangleAt positions v k (Some i0) (Some i1) (Some i2) acc = nan.
Proof.
  intros Hface Hcorner. unfold addTriangleAt. rewrite Hface.
  destruct Hcorner as [-> | [-> | ->]].
  - rewrite (addCorner_poison i0 k), !addCorner_nan. reflexivity.
  - rewrite (addCorner_poison i1 k), !addCorner_nan. reflexivity.
  - apply (addCorner_poison i2 k).
Qed.

Lemma accumulated_poison positions v k i0 i1 i2 : forall indices acc,
  (i0, i1, i2) ∈ triangles indices ->
  Mesh.faceNormal positions (Some i0) (Some i1) (Some i2) = (nan, nan, nan) ->
  v = i0 \/ v = i1 \/ v = i2 ->
  accumulated positions indices v k acc = nan.
Proof.
  fix IH 1. intros [|j0 [|j1 [|j2 rest]]] acc Hin Hface Hcorner;
    cbn [triangles] in Hin; try (apply elem_of_nil in Hin; contradiction).
  cbn [accumulated]. apply elem_of_cons in Hin as [[= <- <- <-]|Hin].
  - rewrite (addTriangleAt_poison _ _ _ _ _ _ _ Hface Hcorner).
    apply accumulated_nan.
  - exact (IH rest _ Hin Hface Hcorner).
Qed.

(** The normal of a vertex: [vec3.normalize] of its three accumulators. *)
Lemma computeVertexNormals_vertex positions (indices : list N) v :
  (v * 3 + 2 < N.of_nat (length positions))%N ->
  vertexNormal (Mesh.computeVertexNormals positions indices) v
  = Some (Mesh.vec3_normalize
            (accumulated positions indices v 0 0,
             accumulated positions indices v 1 0,
             accumulated positions indices v 2 0)).
Proof.
  intros Hv. unfold Mesh.computeVertexNormals.
  apply normalizeAll_vertex. unfold vertexNormal.
  replace (v * 3)%N with (v * 3 + 0)%N at 1 by lia.
  rewrite !accumulate_at by lia. rewrite !zeros_at.
  rewrite !decide_True by lia. reflexivity.
Qed.

(** X8: [computeVertexNormals] does not check the indices against the
    number of vertices.  An index past the last vertex makes it neither
    fail nor write outside the array of normals, which has one entry for
    every entry of the positions; every vertex of a triangle that has such
    a corner gets the normal (NaN, NaN, NaN). *)
Theorem index_past_end_gives_nan positions (indices : list N) (i0 i1 i2 v : N) :
  (i0, i1, i2) ∈ triangles indices ->
  pastEnd positions i0 \/ pastEnd positions i1 \/ pastEnd positions i2 ->
  v = i0 \/ v = i1 \/ v = i2 ->
  (v * 3 + 2 < N.of_nat (length positions))%N ->
  let normals := Mesh.computeVertexNormals positions indices in
  length normals = length positions
  /\ vertexNormal normals v = Some (nan, nan, nan).
Proof.
  intros Hin Hpast Hcorner Hv normals.
  split; [apply computeVertexNormals_length|].
  unfold normals. rewrite (computeVertexNormals_vertex _ _ _ Hv).
  pose proof (faceNormal_pastEnd positions i0 i1 i2 Hpast) as Hface.
  rewrite !(accumulated_poison positions v _ i0 i1 i2 indices _ Hin Hface Hcorner).
  rewrite vec3_normalize_nan. reflexivity.
Qed.

End out_of_range.

(** The triangle of [example_positions] with its last corner replaced by
    the index 9, of which there is no vertex. *)
Lemma index_past_end_gives_nan_witness :
  let normals := Mesh.computeVertexNormals example_positions [0; 1; 9]%N in
  length normals = 12%nat
  /\ vertexNormal normals 0 = Some (nan, nan, nan)%float
  /\ vertexNormal normals 1 = Some (nan, nan, nan)%float
  /\ vertexNormal normals 3 = Some (0, 0, 0)%float.
Proof.
  intros normals.
  assert (Hin : (0, 1, 9)%N ∈ triangles [0; 1; 9]%N) by (left).
  assert (Hpast : pastEnd example_positions 0 \/ pastEnd example_positions 1
                  \/ pastEnd example_positions 9).
  { right. right. unfold pastEnd. simpl. lia. }
  destruct (index_past_end_gives_nan example_positions [0; 1; 9]%N 0 1 9 0
              Hin Hpast) as [Hlen H0]; [auto|reflexivity|].
  destruct (index_past_end_gives_nan example_positions [0; 1; 9]%N 0 1 9 1
              Hin Hpast) as [_ H1]; [auto|reflexivity|].
  split; [exact Hlen|]. split; [exact H0|]. split; [exact H1|].
  vm_compute. reflexivity.
Defined.

(** ** The chunks of the mesh source *)

Lemma append_length (s t : string) :
  String.length (s +:+ t) = String.length s + String.length t.
Proof. induction s as [|a s IH]; simpl; [reflexivity|]. rewrite IH. reflexivity. Qed.

(** Two strings that end alike and are equal begin alike. *)
Lemma append_inj_l (s1 s2 t : string) : s1 +:+ t = s2 +:+ t -> s1 = s2.
Proof.
  revert s2. induction s1 as [|a s1 IH]; intros [|b s2] Heq; simpl in Heq.
  - reflexivity.
  - apply (f_equal String.length) in Heq.
    rewrite ?append_length in Heq. simpl in Heq.
    rewrite ?append_length in Heq. lia.
  - apply (f_equal String.length) in Heq.
    rewrite ?append_length in Heq. simpl in Heq.
    rewrite ?append_length in Heq. lia.
  - injection Heq as -> Heq. f_equal. apply IH, Heq.
Qed.

Section source_chunks.
Context `{Collaborators}.
Implicit Types (this : Scheduler.MeshLayer).


(** X10: a fragment chunk is kept under the key of its manifest chunk
    followed by the fragment id, so the same fragment asked for through
    two manifest chunks (the same object with and without clip bounds) is
    held twice: the two keys differ and each has a chunk.  Asking again
    through either changes nothing. *)
Theorem fragment_chunk_per_manifest (key1 key2 : string)
    (fragmentId : Scheduler.FragmentId) this :
  key1 <> key2 ->
  let this' :=
    Scheduler.getFragmentChunk key2 fragmentId
      (Scheduler.getFragmentChunk key1 fragmentId this) in
  let k1 := Scheduler.fragmentKey key1 fragmentId in
  let k2 := Scheduler.fragmentKey key2 fragmentId in
  k1 <> k2
  /\ (Scheduler.fragmentChunks this' !! k1
      = Some (default (Scheduler.mkFragmentChunk key1 fragmentId)
                      (Scheduler.fragmentChunks this !! k1)))
  /\ (Scheduler.fragmentChunks this' !! k2
      = Some (default (Scheduler.mkFragmentChunk key2 fragmentId)
                      (Scheduler.fragmentChunks this !! k2)))
  /\ Scheduler.getFragmentChunk key1 fragmentId this' = this'
  /\ Scheduler.getFragmentChunk key2 fragmentId this' = this'.
Proof.
  intros Hne this' k1 k2.
  assert (Hk : k1 <> k2).
  { unfold k1, k2, Scheduler.fragmentKey. intros Heq.
    apply append_inj_l in Heq. contradiction. }
  split; [exact Hk|].
  assert (H1 : Scheduler.fragmentChunks this' !! k1
               = Some (default (Scheduler.mkFragmentChunk key1 fragmentId)
                               (Scheduler.fragmentChunks this !! k1))).
  { unfold this', Scheduler.getFragmentChunk. fold k1 k2.
    destruct (Scheduler.fragmentChunks this !! k1) as [f1|] eqn:Hf1.
    - destruct (Scheduler.fragmentChunks this !! k2);
        cbn [Scheduler.set_fragmentChunks Scheduler.fragmentChunks];
        rewrite ?lookup_insert_ne by congruence; exact Hf1.
    - cbn [Scheduler.set_fragmentChunks Scheduler.fragmentChunks].
      rewrite lookup_insert_ne by exact Hk.
      destruct (Scheduler.fragmentChunks this !! k2);
        cbn [Scheduler.set_fragmentChunks Scheduler.fragmentChunks];
        rewrite ?lookup_insert_ne by congruence;
        rewrite lookup_insert_eq; reflexivity. }
  assert (H2 : Scheduler.fragmentChunks this' !! k2
               = Some (default (Scheduler.mkFragmentChunk key2 fragmentId)
                               (Scheduler.fragmentChunks this !! k2))).
  { unfold this', Scheduler.getFragmentChunk. fold k1 k2.
    destruct (Scheduler.fragmentChunks this !! k1) as [f1|] eqn:Hf1.
    - destruct (Scheduler.fragmentChunks this !! k2) as [f2|] eqn:Hf2;
        cbn [Scheduler.set_fragmentChunks Scheduler.fragmentChunks].
      + exact Hf2.
      + apply lookup_insert_eq.
    - cbn [Scheduler.set_fragmentChunks Scheduler.fragmentChunks].
      rewrite lookup_insert_ne by exact Hk.
      destruct (Scheduler.fragmentChunks this !! k2) as [f2|] eqn:Hf2;
        cbn [Scheduler.set_fragmentChunks Scheduler.fragmentChunks].
      + rewrite lookup_insert_ne by exact Hk. exact Hf2.
      + apply lookup_insert_eq. }
  split; [exact H1|]. split; [exact H2|].
  unfold Scheduler.getFragmentChunk. fold k1 k2.
  rewrite H1, H2. done.
Qed.

End source_chunks.

Lemma fragment_chunk_per_manifest_witness :
  let this' :=
    Scheduler.getFragmentChunk "5:0-64" "a"
      (Scheduler.getFragmentChunk "5" "a" example_layer) in
  Scheduler.fragmentChunks this' !! "5/a"
    = Some (Scheduler.mkFragmentChunk "5" "a")
  /\ Scheduler.fragmentChunks this' !! "5:0-64/a"
     = Some (Scheduler.mkFragmentChunk "5:0-64" "a").
Proof.
  intros this'.
  destruct (fragment_chunk_per_manifest (H := example_collaborators)
              "5" "5:0-64" "a" example_layer) as (_ & H1 & H2 & _).
  - discriminate.
  - split; [exact H1|exact H2].
Defined.

(** ** What a priority pass leaves alone *)

Section pass_frame.
Context `{Collaborators}.
Implicit Types (this : Scheduler.MeshLayer) (c : Scheduler.ManifestChunk).

(** What a pass may do to a manifest chunk of the source: nothing, or
    start the fallback on it. *)
Definition kept_or_requesting this c c' : Prop :=
  c' = c
  \/ (Scheduler.state c = Scheduler.FAILED
      /\ Scheduler.chunkedGraph this = true
      /\ c' = Scheduler.setState Scheduler.REQUESTING_CHILDREN c).

(** How the layer after some visits differs from the layer before. *)
Record visited this this' : Prop := {
  v_display : display this' = display this;
  v_batch : Scheduler.requestedChildChunks this'
            = Scheduler.requestedChildChunks this;
  v_timer : Scheduler.lastCallTime this' = Scheduler.lastCallTime this;
  v_now : Scheduler.now this' = Scheduler.now this;
  v_flushes : Scheduler.flushes this' = Scheduler.flushes this;
  v_graph : Scheduler.chunkedGraph this' = Scheduler.chunkedGraph this;
  v_chunks : forall k c, Scheduler.chunks this !! k = Some c ->
      exists c', Scheduler.chunks this' !! k = Some c'
                 /\ kept_or_requesting this c c';
  v_fragments : forall k f, Scheduler.fragmentChunks this !! k = Some f ->
      Scheduler.fragmentChunks this' !! k = Some f;
  v_outstanding : exists new,
      Scheduler.outstanding this' = Scheduler.outstanding this ++ new
      /\ (Scheduler.chunkedGraph this = false -> new = []);
}.

Lemma visited_refl this : visited this this.
Proof.
  split; try reflexivity.
  - intros k c Hc. exists c. split; [exact Hc|left; reflexivity].
  - auto.
  - exists []. rewrite app_nil_r. auto.
Qed.

Lemma visited_trans this1 this2 this3 :
  visited this1 this2 -> visited this2 this3 -> visited this1 this3.
Proof.
  intros [Hd1 Hb1 Ht1 Hn1 Hf1 Hg1 Hc1 Hfr1 (new1 & Ho1 & Hnew1)]
         [Hd2 Hb2 Ht2 Hn2 Hf2 Hg2 Hc2 Hfr2 (new2 & Ho2 & Hnew2)].
  split; try congruence.
  - intros k c Hc. destruct (Hc1 k c Hc) as (c' & Hc' & Hrel1).
    destruct (Hc2 k c' Hc') as (c'' & Hc'' & Hrel2).
    exists c''. split; [exact Hc''|].
    destruct Hrel1 as [->|(Hfailed & Hgraph & ->)].
    + destruct Hrel2 as [->|(Hfailed & Hgraph & ->)]; [left; reflexivity|].
      right. rewrite <- Hg1. done.
    + destruct Hrel2 as [->|(Hfailed' & _)]; [right; done|].
      simpl in Hfailed'. discriminate.
  - auto.
  - exists (new1 ++ new2). rewrite Ho2, Ho1, app_assoc. split; [reflexivity|].
    intros Hg. rewrite (Hnew1 Hg), Hnew2; [reflexivity|congruence].
Qed.

Lemma getFragmentChunk_visited key fragmentId this :
  visited this (Scheduler.getFragmentChunk key fragmentId this).
Proof.
  unfold Scheduler.getFragmentChunk.
  destruct (Scheduler.fragmentChunks this !! _) eqn:Hf; [apply visited_refl|].
  split; try reflexivity.
  - intros k c Hc. exists c. split; [exact Hc|left; reflexivity].
  - intros k f Hk. cbn [Scheduler.set_fragmentChunks Scheduler.fragmentChunks].
    rewrite lookup_insert_ne; [exact Hk|]. congruence.
  - exists []. rewrite app_nil_r. auto.
Qed.

Lemma getFragmentChunks_visited key ids this :
  visited this
    (foldl (fun this fragmentId => Scheduler.getFragmentChunk key fragmentId this)
           this ids).
Proof.
  revert this. induction ids as [|id ids IH]; intros this; simpl.
  - apply visited_refl.
  - eapply visited_trans; [apply getFragmentChunk_visited|apply IH].
Qed.

Lemma set_chunks_insert_visited key c this :
  Scheduler.chunks this !! key = None ->
  visited this (Scheduler.set_chunks (insert key c) this).
Proof.
  intros Hnone. split; try reflexivity.
  - intros k c' Hc'. exists c'. split; [|left; reflexivity].
    cbn [Scheduler.set_chunks Scheduler.chunks].
    rewrite lookup_insert_ne; [exact Hc'|]. congruence.
  - auto.
  - exists []. rewrite app_nil_r. auto.
Qed.

Lemma visit_visited tier base clip o r this :
  visited this (Scheduler.after (Scheduler.visit tier base clip o r this)).
Proof.
  unfold Scheduler.visit, Scheduler.getChunk.
  set (key := getObjectKey o clip).
  destruct (Scheduler.chunks this !! key) as [c|] eqn:Hc.
  - destruct (Scheduler.state c) eqn:Hs; cbn [Scheduler.after];
      try apply visited_refl.
    + destruct (Scheduler.fragmentIds c); cbn [Scheduler.after];
        [apply getFragmentChunks_visited|apply visited_refl].
    + destruct (Scheduler.fragmentIds c); cbn [Scheduler.after];
        [apply getFragmentChunks_visited|apply visited_refl].
    + destruct (Scheduler.fragmentIds c); cbn [Scheduler.after];
        [apply getFragmentChunks_visited|apply visited_refl].
    + destruct (Scheduler.chunkedGraph this) eqn:Hg; cbn [Scheduler.after];
        [|apply visited_refl].
      split; try reflexivity.
      * intros k c' Hc'. cbn [Scheduler.set_outstanding Scheduler.set_chunks
                               Scheduler.chunks].
        destruct (decide (k = key)) as [->|Hne].
        -- rewrite lookup_alter_eq, Hc'. eexists. split; [reflexivity|].
           right. split; [congruence|]. split; [exact Hg|reflexivity].
        -- rewrite lookup_alter_ne by congruence. exists c'.
           split; [exact Hc'|left; reflexivity].
      * auto.
      * eexists. split; [reflexivity|]. congruence.
  - cbn [Scheduler.state Scheduler.after].
    apply set_chunks_insert_visited, Hc.
Qed.

Lemma visitAll_visited tier base clip segments this :
  visited this (Scheduler.after (Scheduler.visitAll tier base clip segments this)).
Proof.
  revert this. induction segments as [|[o r] segments IH]; intros this.
  - apply visited_refl.
  - cbn [Scheduler.visitAll].
    pose proof (visit_visited tier base clip o r this) as Hhead.
    destruct (Scheduler.thrown (Scheduler.visit tier base clip o r this));
      [exact Hhead|].
    cbn [Scheduler.after]. eapply visited_trans; [exact Hhead|apply IH].
Qed.

Lemma pass_visited visibility clip this :
  visited this
    (Scheduler.after (Scheduler.updateChunkPriorities visibility clip this)).
Proof.
  unfold Scheduler.updateChunkPriorities.
  destruct (decide _); [apply visited_refl|apply visitAll_visited].
Qed.

(** X11: a pass leaves the root set, the visible set, the links, the batch
    of child segments and the debounced flush as they are; it removes no
    chunk from the source and changes no fragment chunk; the only change
    it makes to a manifest chunk of the source is the step from [FAILED]
    to [REQUESTING_CHILDREN], with a graph client; and it drops no
    outstanding [getChildren] call.  This holds also of a pass that an
    exception ends. *)
Theorem pass_frame this (visibility : Visibility) (clip : option Bounds) :
  let this' :=
    Scheduler.after (Scheduler.updateChunkPriorities visibility clip this) in
  Scheduler.rootSegments this' = Scheduler.rootSegments this
  /\ Scheduler.visibleSegments3D this' = Scheduler.visibleSegments3D this
  /\ Scheduler.segmentEquivalences this' = Scheduler.segmentEquivalences this
  /\ Scheduler.requestedChildChunks this' = Scheduler.requestedChildChunks this
  /\ Scheduler.lastCallTime this' = Scheduler.lastCallTime this
  /\ (forall k c, Scheduler.chunks this !! k = Some c ->
        Scheduler.chunks this' !! k = Some c
        \/ (Scheduler.state c = Scheduler.FAILED
            /\ Scheduler.chunkedGraph this = true
            /\ Scheduler.chunks this' !! k
               = Some (Scheduler.setState Scheduler.REQUESTING_CHILDREN c)))
  /\ (forall k f, Scheduler.fragmentChunks this !! k = Some f ->
        Scheduler.fragmentChunks this' !! k = Some f)
  /\ (forall q, q ∈ Scheduler.outstanding this -> q ∈ Scheduler.outstanding this').
Proof.
  intros this'.
  destruct (pass_visited visibility clip this)
    as [Hd Hb Ht _ _ _ Hc Hf (new & Ho & _)].
  fold this' in Hd, Hb, Ht, Hc, Hf, Ho. unfold display in Hd.
  injection Hd as HR HV HE.
  repeat (split; [assumption|]). split; [|split; [exact Hf|]].
  - intros k c Hk. destruct (Hc k c Hk) as (c' & Hc' & [->|(Hs & Hg & ->)]);
      [left; exact Hc'|right; done].
  - intros q Hq. rewrite Ho. apply elem_of_app. left. exact Hq.
Qed.

(** X12: without a graph client ([chunkedGraph] is [null]) a pass makes no
    [getChildren] call and changes no manifest chunk of the source: a
    manifest that is [FAILED] stays [FAILED]. *)
Theorem pass_without_graph_client this (visibility : Visibility)
    (clip : option Bounds) :
  Scheduler.chunkedGraph this = false ->
  let this' :=
    Scheduler.after (Scheduler.updateChunkPriorities visibility clip this) in
  Scheduler.outstanding this' = Scheduler.outstanding this
  /\ (forall k c, Scheduler.chunks this !! k = Some c ->
        Scheduler.chunks this' !! k = Some c)
  /\ (forall k, stateOf this k = Some Scheduler.FAILED ->
        stateOf this' k = Some Scheduler.FAILED).
Proof.
  intros Hg this'.
  destruct (pass_visited visibility clip this)
    as [_ _ _ _ _ _ Hc _ (new & Ho & Hnew)].
  fold this' in Hc, Ho.
  assert (Hkeep : forall k c, Scheduler.chunks this !! k = Some c ->
                              Scheduler.chunks this' !! k = Some c).
  { intros k c Hk. destruct (Hc k c Hk) as (c' & Hc' & [->|(_ & Hg' & _)]);
      [exact Hc'|congruence]. }
  split; [rewrite Ho, (Hnew Hg), app_nil_r; reflexivity|].
  split; [exact Hkeep|].
  intros k. unfold stateOf.
  destruct (Scheduler.chunks this !! k) as [c|] eqn:Hk; [|discriminate].
  rewrite (Hkeep k c Hk). done.
Qed.

End pass_frame.

(** The layer of the examples without a graph client, its manifest
    [FAILED]. *)
Definition example_no_graph : Scheduler.MeshLayer (H := example_collaborators) :=
  Scheduler.run example_failed (Scheduler.create false {[5%N]} {[5%N]}).

Lemma pass_without_graph_client_witness :
  let this' :=
    Scheduler.after
      (Scheduler.updateChunkPriorities POSITIVE_INFINITY None example_no_graph) in
  stateOf example_no_graph "5" = Some Scheduler.FAILED
  /\ Scheduler.outstanding this' = []
  /\ stateOf this' "5" = Some Scheduler.FAILED.
Proof.
  intros this'.
  destruct (pass_without_graph_client (H := example_collaborators)
              example_no_graph POSITIVE_INFINITY None eq_refl)
    as (Hout & _ & Hfailed).
  split; [reflexivity|]. split; [exact Hout|].
  apply Hfailed. reflexivity.
Defined.

(** ** The batch of child segments in every state the layer reaches *)

Section batch_invariant.
Context `{Collaborators}.
Implicit Types (this : Scheduler.MeshLayer) (b : Scheduler.Batch).

(** A key that is the decimal string of a root id. *)
Definition rootKey (key : string) : Prop :=
  exists root : Uint64, key = Uint64.toString root.

(** The keys of the batch are the decimal strings of root ids, no key
    comes twice, and while the batch has an entry the debounced flush is
    pending, since a time that has come. *)
Record batch_inv this : Prop := {
  b_keys : Forall rootKey (Scheduler.requestedChildChunks this).*1;
  b_nodup : NoDup (Scheduler.requestedChildChunks this).*1;
  b_pending : Scheduler.requestedChildChunks this <> [] ->
      exists t, Scheduler.lastCallTime this = Some t;
  b_past : forall t, Scheduler.lastCallTime this = Some t ->
      (t <= Scheduler.now this)%N;
}.

Lemma batch_inv_frame this this' :
  Scheduler.requestedChildChunks this' = Scheduler.requestedChildChunks this ->
  Scheduler.lastCallTime this' = Scheduler.lastCallTime this ->
  Scheduler.now this' = Scheduler.now this ->
  batch_inv this -> batch_inv this'.
Proof.
  intros Hb Ht Hn [Hk Hnd Hp Hpast]. split; rewrite ?Hb, ?Ht, ?Hn; assumption.
Qed.

Lemma batch_update_keys k f (m : list (string * Scheduler.Batch)) :
  (Scheduler.batch_update k f m).*1 = m.*1.
Proof.
  unfold Scheduler.batch_update. induction m as [|[k' b] m IH]; [reflexivity|].
  cbn [fmap list_fmap]. rewrite <- IH. f_equal.
  destruct (decide _); reflexivity.
Qed.

(** The loop of the flush completes when every key parses, and it leaves
    the batch and the timer to its caller. *)
Lemma handleEntries_completes entries this :
  Forall rootKey entries.*1 ->
  (Scheduler.handleEntries entries this).2 = Normal tt
  /\ Scheduler.requestedChildChunks (Scheduler.handleEntries entries this).1
     = Scheduler.requestedChildChunks this
  /\ Scheduler.lastCallTime (Scheduler.handleEntries entries this).1
     = Scheduler.lastCallTime this
  /\ Scheduler.now (Scheduler.handleEntries entries this).1 = Scheduler.now this
  /\ Scheduler.flushes (Scheduler.handleEntries entries this).1
     = Scheduler.flushes this.
Proof.
  revert this. induction entries as [|[k b] entries IH]; intros this Hkeys;
    [done|].
  cbn [fmap list_fmap] in Hkeys. apply Forall_cons in Hkeys as [[root Hroot] Hkeys].
  simpl in Hroot. subst k. cbn [Scheduler.handleEntries].
  rewrite parseString_toString.
  destruct (bool_decide (root ∈ Scheduler.rootSegments this)); cbn [negb].
  - destruct (IH (Scheduler.applyBatch root b this) Hkeys)
      as (-> & -> & -> & -> & ->).
    rewrite applyBatch_spec. done.
  - apply IH, Hkeys.
Qed.

(** The flush in a layer whose keys parse: it runs to its end and leaves
    the batch empty. *)
Lemma handleChildChunks_clears this :
  Forall rootKey (Scheduler.requestedChildChunks this).*1 ->
  Scheduler.requestedChildChunks (Scheduler.handleChildChunks this) = []
  /\ Scheduler.lastCallTime (Scheduler.handleChildChunks this)
     = Scheduler.lastCallTime this
  /\ Scheduler.now (Scheduler.handleChildChunks this) = Scheduler.now this
  /\ Scheduler.flushes (Scheduler.handleChildChunks this)
     = S (Scheduler.flushes this).
Proof.
  intros Hkeys. unfold Scheduler.handleChildChunks.
  destruct (handleEntries_completes
              (Scheduler.requestedChildChunks (Scheduler.set_flushes S this))
              (Scheduler.set_flushes S this) Hkeys) as (Hc & _ & Ht & Hn & Hf).
  destruct (Scheduler.handleEntries _ (Scheduler.set_flushes S this))
    as [this' [[]|e]]; [|discriminate].
  cbn [fst snd] in *. cbn. rewrite Ht, Hn, Hf. done.
Qed.

Lemma onChildren_inv q children this :
  batch_inv this -> batch_inv (Scheduler.onChildren q children this).
Proof.
  intros [Hk Hnd Hp Hpast].
  destruct (decide (Scheduler.rootID q ∈ Scheduler.rootSegments this))
    as [Hroot|Hroot].
  - rewrite (onChildren_present q children this Hroot).
    set (k := Uint64.toString (Scheduler.rootID q)).
    split;
      cbn [Scheduler.set_lastCallTime Scheduler.set_requestedChildChunks
           Scheduler.set_chunks Scheduler.requestedChildChunks
           Scheduler.lastCallTime Scheduler.now].
    + rewrite !batch_update_keys.
      destruct (Scheduler.batch_has k _) eqn:Hhas; [exact Hk|].
      unfold Scheduler.batch_set. rewrite Hhas, fmap_app.
      apply Forall_app. split; [exact Hk|]. repeat constructor.
      exists (Scheduler.rootID q). reflexivity.
    + rewrite !batch_update_keys.
      destruct (Scheduler.batch_has k _) eqn:Hhas; [exact Hnd|].
      unfold Scheduler.batch_set. rewrite Hhas, fmap_app.
      apply NoDup_app. split; [exact Hnd|]. split; [|apply NoDup_singleton].
      intros k' Hin [->|[]%elem_of_nil]%elem_of_cons.
      unfold Scheduler.batch_has in Hhas.
      apply bool_decide_eq_false_1 in Hhas. contradiction.
    + eauto.
    + intros t [= <-]. lia.
  - unfold Scheduler.onChildren.
    cbn [Scheduler.set_chunks Scheduler.rootSegments].
    rewrite bool_decide_eq_false_2 by exact Hroot. cbn [negb].
    split; assumption.
Qed.

Lemma exec_batch_inv e this : batch_inv this -> batch_inv (Scheduler.exec e this).
Proof.
  intros Hinv. destruct e as [v clip|i children|i|dt| |k s ids|roots|visible];
    cbn [Scheduler.exec].
  - destruct (pass_visited v clip this) as [_ Hb Ht Hn _ _ _ _ _].
    exact (batch_inv_frame _ _ Hb Ht Hn Hinv).
  - destruct (Scheduler.outstanding this !! i) as [q|]; [|exact Hinv].
    apply onChildren_inv.
    eapply batch_inv_frame; [| | |exact Hinv]; reflexivity.
  - eapply batch_inv_frame; [| | |exact Hinv]; reflexivity.
  - destruct Hinv as [Hk Hnd Hp Hpast]. split; try assumption.
    intros t Ht. specialize (Hpast t Ht). simpl. lia.
  - unfold Scheduler.timerExpired.
    destruct (Scheduler.lastCallTime this) as [t|] eqn:Ht; [|exact Hinv].
    destruct (_ <=? _)%N; [|exact Hinv].
    destruct (handleChildChunks_clears
                (Scheduler.set_lastCallTime (fun _ => None) this))
      as (Hb & Ht' & _); [apply Hinv|].
    split; rewrite ?Hb, ?Ht'; simpl; try done.
    constructor.
  - unfold Scheduler.chunkMoved.
    destruct (Scheduler.chunks this !! k); [|exact Hinv].
    destruct (decide _); [exact Hinv|]. destruct (decide _); [exact Hinv|].
    destruct (_ && _); [exact Hinv|].
    eapply batch_inv_frame; [| | |exact Hinv]; reflexivity.
  - eapply batch_inv_frame; [| | |exact Hinv]; reflexivity.
  - eapply batch_inv_frame; [| | |exact Hinv]; reflexivity.
Qed.

Lemma run_batch_inv events this :
  batch_inv this -> batch_inv (Scheduler.run events this).
Proof.
  revert this. induction events as [|e events IH]; intros this Hinv.
  - exact Hinv.
  - apply IH, exec_batch_inv, Hinv.
Qed.

Lemma create_batch_inv graph roots visible :
  batch_inv (Scheduler.create graph roots visible).
Proof.
  split; simpl; [constructor|constructor|done|discriminate].
Qed.

(** X13: in every state the layer reaches, each key of the batch of child
    segments is the decimal string of a root id and no key comes twice;
    so [Uint64.parseString] never fails in [handleChildChunks], which runs
    to its end, counts as one flush and leaves the batch empty. *)
Theorem flush_always_completes (graph : bool) (roots visible : gset Uint64)
    (events : list Scheduler.Event) :
  let this := Scheduler.run events (Scheduler.create graph roots visible) in
  Forall (fun key => exists root : Uint64,
                       key = Uint64.toString root
                       /\ Uint64.parseString key = Some root)
         (Scheduler.requestedChildChunks this).*1
  /\ NoDup (Scheduler.requestedChildChunks this).*1
  /\ (Scheduler.handleEntries (Scheduler.requestedChildChunks this) this).2
     = Normal tt
  /\ Scheduler.requestedChildChunks (Scheduler.handleChildChunks this) = []
  /\ Scheduler.flushes (Scheduler.handleChildChunks this)
     = S (Scheduler.flushes this).
Proof.
  intros this.
  pose proof (run_batch_inv events _ (create_batch_inv graph roots visible))
    as [Hk Hnd _ _].
  fold this in Hk, Hnd. split.
  { eapply Forall_impl; [exact Hk|]. intros key [root Hroot]. exists root.
    split; [exact Hroot|]. rewrite Hroot. apply parseString_toString. }
  split; [exact Hnd|].
  split; [apply handleEntries_completes, Hk|].
  destruct (handleChildChunks_clears this Hk) as (Hb & _ & _ & Hf). done.
Qed.

(** X14: in every state the layer reaches, a batch that has an entry has
    its flush pending: the debounced function has been called, at a time
    that is not in the future, and has not run since.  No entry waits
    without a flush to come. *)
Theorem batch_has_flush_pending (graph : bool) (roots visible : gset Uint64)
    (events : list Scheduler.Event) :
  let this := Scheduler.run events (Scheduler.create graph roots visible) in
  Scheduler.requestedChildChunks this <> [] ->
  exists t, Scheduler.lastCallTime this = Some t /\ (t <= Scheduler.now this)%N.
Proof.
  intros this Hne.
  pose proof (run_batch_inv events _ (create_batch_inv graph roots visible))
    as [_ _ Hp Hpast].
  fold this in Hp, Hpast. destruct (Hp Hne) as [t Ht]. eauto.
Qed.

End batch_invariant.

(** ** From the answer of [getChildren] to the flush *)

Section answer_to_flush.
Context `{Collaborators}.
Implicit Types (this : Scheduler.MeshLayer) (q : Scheduler.Query).

(** X15: when the answer to an outstanding [getChildren] call arrives while
    the batch is empty and the root of the call is in the root set, and the
    debounce timer expires after the delay has passed, the flush it runs
    puts the children in the place of the segment: the visible set gains
    the children and then loses the segment, every child is linked to the
    root, the batch is empty again and no flush is pending; the call is no
    longer outstanding and its manifest chunk is [FAILED] again. *)
Theorem children_replace_segment this (i : nat) q (children : list Uint64) (dt : N) :
  Scheduler.outstanding this !! i = Some q ->
  Scheduler.rootID q ∈ Scheduler.rootSegments this ->
  Scheduler.requestedChildChunks this = [] ->
  (Scheduler.DEBOUNCE_WAIT <= dt)%N ->
  let this' :=
    Scheduler.run [Scheduler.Children i children; Scheduler.Elapse dt;
                   Scheduler.TimerExpired] this in
  Scheduler.visibleSegments3D this'
  = (list_to_set children ∪ Scheduler.visibleSegments3D this)
    ∖ {[Scheduler.segmentID q]}
  /\ Scheduler.segmentEquivalences this'
     = Scheduler.segmentEquivalences this
       ++ (pair (Scheduler.rootID q) <$> children)
  /\ Scheduler.requestedChildChunks this' = []
  /\ Scheduler.lastCallTime this' = None
  /\ Scheduler.flushes this' = S (Scheduler.flushes this)
  /\ Scheduler.outstanding this' = base.delete i (Scheduler.outstanding this)
  /\ Scheduler.chunks this'
     = alter (Scheduler.setState Scheduler.FAILED) (Scheduler.manifest q)
             (Scheduler.chunks this)
  /\ Scheduler.rootSegments this' = Scheduler.rootSegments this.
Proof.
  intros Hq Hroot Hempty Hdt this'.
  assert (Heq : this'
    = Scheduler.mkLayer
        (alter (Scheduler.setState Scheduler.FAILED) (Scheduler.manifest q)
               (Scheduler.chunks this))
        (Scheduler.fragmentChunks this) (Scheduler.chunkedGraph this)
        (Scheduler.rootSegments this)
        ((list_to_set children ∪ Scheduler.visibleSegments3D this)
         ∖ {[Scheduler.segmentID q]})
        (Scheduler.segmentEquivalences this
         ++ (pair (Scheduler.rootID q) <$> children))
        [] (base.delete i (Scheduler.outstanding this))
        (Scheduler.now this + dt)%N None (S (Scheduler.flushes this))).
  { unfold this', Scheduler.run. cbn [foldl Scheduler.exec]. rewrite Hq.
    set (this1 := Scheduler.set_outstanding (base.delete i) this).
    rewrite (onChildren_present q children this1 Hroot). subst this1.
    destruct this as [c f g r V E m o n t k].
    cbn [Scheduler.requestedChildChunks] in Hempty. subst m.
    cbn [Scheduler.rootSegments] in Hroot.
    unfold Scheduler.timerExpired, Scheduler.handleChildChunks.
    cbv [Scheduler.set_now Scheduler.set_lastCallTime Scheduler.set_outstanding
         Scheduler.set_requestedChildChunks Scheduler.set_chunks
         Scheduler.set_flushes
         Scheduler.lastCallTime Scheduler.now Scheduler.chunks
         Scheduler.fragmentChunks Scheduler.chunkedGraph Scheduler.rootSegments
         Scheduler.visibleSegments3D Scheduler.segmentEquivalences
         Scheduler.requestedChildChunks Scheduler.outstanding Scheduler.flushes].
    destruct (N.leb_spec (n + Scheduler.DEBOUNCE_WAIT) (n + dt)) as [_|Hlt];
      [|lia].
    rewrite batch_has_nil, batch_set_nil, !batch_update_single.
    cbn [Scheduler.handleEntries Scheduler.add Scheduler.delete app].
    rewrite parseString_toString.
    cbn [Scheduler.rootSegments].
    rewrite bool_decide_eq_true_2 by exact Hroot. cbn [negb].
    rewrite applyBatch_spec.
    cbv [Scheduler.set_requestedChildChunks Scheduler.chunks
         Scheduler.fragmentChunks Scheduler.chunkedGraph Scheduler.rootSegments
         Scheduler.visibleSegments3D Scheduler.segmentEquivalences
         Scheduler.requestedChildChunks Scheduler.outstanding Scheduler.flushes
         Scheduler.lastCallTime Scheduler.now].
    unfold visible_after, links_after. cbn [Scheduler.add Scheduler.delete].
    f_equal. set_solver. }
  rewrite Heq. done.
Qed.

End answer_to_flush.

(** The scenario of the examples: the manifest of segment 5 has failed, a
    pass has asked for its children, the answer is [6; 7], and the timer
    expires 100 ms later. *)
Lemma children_replace_segment_witness :
  let this :=
    Scheduler.run
      (example_failed ++ [Scheduler.Recompute POSITIVE_INFINITY None])
      example_layer in
  let this' :=
    Scheduler.run [Scheduler.Children 0 [6%N; 7%N]; Scheduler.Elapse 100;
                   Scheduler.TimerExpired] this in
  Scheduler.visibleSegments3D this' = {[6%N; 7%N]}
  /\ Scheduler.segmentEquivalences this' = [(5%N, 6%N); (5%N, 7%N)]
  /\ Scheduler.requestedChildChunks this' = []
  /\ Scheduler.outstanding this' = []
  /\ stateOf this' "5" = Some Scheduler.FAILED.
Proof.
  intros this this'.
  destruct (children_replace_segment (H := example_collaborators) this 0
              {| Scheduler.manifest := "5"; Scheduler.segmentID := 5%N;
                 Scheduler.rootID := 5%N |} [6%N; 7%N] 100)
    as (Hv & He & Hb & _ & _ & Ho & Hc & _).
  - reflexivity.
  - vm_compute. reflexivity.
  - reflexivity.
  - unfold Scheduler.DEBOUNCE_WAIT. lia.
  - fold this' in Hv, He, Hb, Ho, Hc.
    split; [rewrite Hv; vm_compute; reflexivity|].
    split; [rewrite He; reflexivity|]. split; [exact Hb|].
    split; [rewrite Ho; reflexivity|].
    unfold stateOf. rewrite Hc. reflexivity.
Defined.

Lemma batch_has_flush_pending_witness :
  let this :=
    Scheduler.run
      (example_failed ++ [Scheduler.Recompute POSITIVE_INFINITY None;
                          Scheduler.Elapse 30;
                          Scheduler.Children 0 [6%N; 7%N];
                          Scheduler.Elapse 40])
      example_layer in
  Scheduler.requestedChildChunks this
  = [("5", {| Scheduler.add := [6%N; 7%N]; Scheduler.delete := [5%N] |})]
  /\ exists t, Scheduler.lastCallTime this = Some t
               /\ (t <= Scheduler.now this)%N.
Proof.
  intros this. split; [reflexivity|].
  apply (batch_has_flush_pending (H := example_collaborators)
           true {[5%N]} {[5%N]}
           (example_failed ++ [Scheduler.Recompute POSITIVE_INFINITY None;
                               Scheduler.Elapse 30;
                               Scheduler.Children 0 [6%N; 7%N];
                               Scheduler.Elapse 40])).
  discriminate.
Defined.

(** ** The chunked-graph download: nothing to fetch, and the first failure *)

Section download_more.
Variable decodeSupervoxelArray : list byte -> Completion (list Uint64).
Implicit Types (d : Precomputed.Download) (chunk : Precomputed.ChunkedGraphChunk).

(** X16: a chunk in which no mapping is [null] makes the download send no
    request, and [Promise.all] of no promise is fulfilled without waiting
    for anything; with a mapping that is [null] the returned promise is
    pending when the download returns. *)
Theorem download_nothing_missing (parameters : Precomputed.Parameters)
    (chunkPosition : Z * Z * Z) chunk :
  let requests := Precomputed.download_requests parameters chunkPosition chunk in
  let d := Precomputed.download parameters chunkPosition chunk in
  (requests = [] <-> Forall (fun kv => kv.2 <> None) (Precomputed.mappings chunk))
  /\ (Precomputed.returned d = Some (Fulfilled tt) <-> requests = [])
  /\ (Precomputed.returned d = None <-> requests <> [])
  /\ Precomputed.chunk_now d = chunk.
Proof.
  intros requests d.
  assert (Hreq : requests = [] <->
                 Forall (fun kv => kv.2 <> None) (Precomputed.mappings chunk)).
  { unfold requests. rewrite download_requests_spec. split.
    - intros Hnil%fmap_nil_inv. apply Forall_forall. intros kv Hkv Hnone.
      exact (filter_nil_not_elem_of _ _ kv Hnil Hnone Hkv).
    - intros Hall.
      induction Hall as [|kv l Hkv _ IH]; [reflexivity|].
      rewrite filter_cons_False by exact Hkv. exact IH. }
  split; [exact Hreq|].
  unfold d, Precomputed.download, Precomputed.returned. fold requests.
  cbn [Precomputed.all Precomputed.chunk_now PromiseAll.init PromiseAll.aggregate].
  destruct requests as [|request requests']; cbn [length PromiseAll.then_].
  - split; [done|]. split; [|reflexivity]. split; [discriminate|done].
  - split; [split; discriminate|]. split; [|reflexivity]. done.
Qed.

Lemma answer_keys i a d :
  Precomputed.keys (Precomputed.answer decodeSupervoxelArray i a d)
  = Precomputed.keys d.
Proof.
  unfold Precomputed.answer.
  destruct (PromiseAll.elements (Precomputed.all d) !! i) as [[x|]|];
    try reflexivity.
  destruct (Precomputed.keys d !! i); reflexivity.
Qed.

Lemma after_keys answers d :
  Precomputed.keys (Precomputed.after decodeSupervoxelArray answers d)
  = Precomputed.keys d
  /\ length (PromiseAll.elements
               (Precomputed.all (Precomputed.after decodeSupervoxelArray answers d)))
     = length (PromiseAll.elements (Precomputed.all d)).
Proof.
  revert d. induction answers as [|[i a] answers IH]; intros d; [done|].
  unfold Precomputed.after in *. cbn [foldl].
  destruct (IH (Precomputed.answer decodeSupervoxelArray i a d)) as [-> ->].
  rewrite answer_keys, answer_length. done.
Qed.

(** A promise that is settled stays as it is. *)
Lemma answer_settled i a d r :
  PromiseAll.aggregate (Precomputed.all d) = Some r ->
  PromiseAll.aggregate
    (Precomputed.all (Precomputed.answer decodeSupervoxelArray i a d)) = Some r.
Proof.
  intros Hr. unfold Precomputed.answer.
  destruct (PromiseAll.elements (Precomputed.all d) !! i) as [[x|]|] eqn:Hi;
    try exact Hr.
  destruct (Precomputed.keys d !! i); [|exact Hr].
  cbn [Precomputed.all]. unfold PromiseAll.settle. rewrite Hi.
  cbn [PromiseAll.aggregate]. rewrite Hr. reflexivity.
Qed.

Lemma after_settled answers d r :
  PromiseAll.aggregate (Precomputed.all d) = Some r ->
  PromiseAll.aggregate
    (Precomputed.all (Precomputed.after decodeSupervoxelArray answers d)) = Some r.
Proof.
  revert d. induction answers as [|[i a] answers IH]; intros d Hr; [exact Hr|].
  unfold Precomputed.after in *. cbn [foldl]. apply IH, answer_settled, Hr.
Qed.

(** X17: the promise of a download is settled by the first request that
    fails.  While the promise is pending, the failure of a request that has
    not been answered (of the transport, or an exception of the decoder)
    rejects it with that very error, and no answer that comes later changes
    it. *)
Theorem download_first_rejection (parameters : Precomputed.Parameters)
    (chunkPosition : Z * Z * Z) chunk
    (before later : list (nat * HttpResult)) (i : nat) (a : HttpResult)
    (e : Rejection) :
  let d0 := Precomputed.download parameters chunkPosition chunk in
  let d := Precomputed.after decodeSupervoxelArray before d0 in
  Precomputed.returned d = None ->
  PromiseAll.elements (Precomputed.all d) !! i = Some None ->
  Precomputed.subrequest_outcome decodeSupervoxelArray a = Rejected e ->
  Precomputed.returned
    (Precomputed.after decodeSupervoxelArray (before ++ (i, a) :: later) d0)
  = Some (Rejected e).
Proof.
  intros d0 d Hpending Hi Hfail.
  unfold Precomputed.after. rewrite foldl_app. cbn [foldl].
  fold (Precomputed.after decodeSupervoxelArray before d0). fold d.
  fold (Precomputed.after decodeSupervoxelArray later
          (Precomputed.answer decodeSupervoxelArray i a d)).
  unfold Precomputed.returned.
  rewrite (after_settled later _ (Rejected e)); [reflexivity|].
  assert (Hkey : exists key, Precomputed.keys d !! i = Some key).
  { apply lookup_lt_is_Some.
    destruct (after_keys before d0) as [Hk Hl]. fold d in Hk, Hl.
    rewrite Hk. apply lookup_lt_Some in Hi. rewrite Hl in Hi.
    unfold d0, Precomputed.download in *.
    cbn [Precomputed.keys Precomputed.all PromiseAll.init PromiseAll.elements]
      in *.
    rewrite length_fmap. rewrite length_replicate in Hi. exact Hi. }
  destruct Hkey as [key Hkey].
  unfold Precomputed.answer. rewrite Hi, Hkey, Hfail.
  cbn [Precomputed.all]. unfold PromiseAll.settle. rewrite Hi.
  cbn [PromiseAll.aggregate].
  unfold Precomputed.returned in Hpending.
  destruct (PromiseAll.aggregate (Precomputed.all d)) as [[vs|e']|];
    [discriminate|discriminate|reflexivity].
Qed.

End download_more.

(** The download of the examples: the request for the root 4 fails first
    and the request for the root 1 is answered afterwards. *)
Lemma download_first_rejection_witness :
  Precomputed.returned
    (Precomputed.after (fun _ => Normal [])
       ([] ++ (1, Rejected (HttpError 404)) :: [(0, Fulfilled [])])
       (Precomputed.download example_parameters (0, 64, 128)%Z example_chunk))
  = Some (Rejected (HttpError 404)).
Proof.
  apply (download_first_rejection (fun _ => Normal []) example_parameters
           (0, 64, 128)%Z example_chunk [] [(0, Fulfilled [])] 1
           (Rejected (HttpError 404)) (HttpError 404));
    reflexivity.
Defined.

(** ** Request paths tell chunks and objects apart *)

(** A decimal digit, and a string of digits. *)
Definition digit (c : Ascii.ascii) : bool :=
  (48 <=? Ascii.nat_of_ascii c)%nat && (Ascii.nat_of_ascii c <=? 57)%nat.

Fixpoint digits (s : string) : bool :=
  match s with
  | EmptyString => true
  | String c s => digit c && digits s
  end.

Lemma string_of_uint_digits (u : Decimal.uint) :
  digits (NilEmpty.string_of_uint u) = true.
Proof. induction u; simpl; rewrite ?IHu; reflexivity. Qed.

Lemma decimal_digits (n : N) :
  digits (decimal n) = true /\ decimal n <> "".
Proof.
  unfold decimal, NilZero.string_of_uint.
  destruct (N.to_uint n) eqn:Hu;
    (split; [try reflexivity; apply (string_of_uint_digits (_ _))|discriminate]).
Qed.

Lemma decimal_inj (m n : N) : decimal m = decimal n -> m = n.
Proof. apply toString_inj. Qed.

(** Reading a number up to the first character that is not a digit. *)
Lemma digits_then (d1 d2 : string) (c1 c2 : Ascii.ascii) (r1 r2 : string) :
  digits d1 = true -> digits d2 = true ->
  digit c1 = false -> digit c2 = false ->
  d1 +:+ String c1 r1 = d2 +:+ String c2 r2 ->
  d1 = d2 /\ c1 = c2 /\ r1 = r2.
Proof.
  revert d2. induction d1 as [|a d1 IH]; intros [|b d2] H1 H2 Hc1 Hc2 Heq;
    simpl in *.
  - injection Heq as -> ->. done.
  - injection Heq as -> _. apply andb_true_iff in H2 as [H2 _]. congruence.
  - injection Heq as -> _. apply andb_true_iff in H1 as [H1 _]. congruence.
  - injection Heq as -> Heq.
    apply andb_true_iff in H1 as [_ H1]. apply andb_true_iff in H2 as [_ H2].
    destruct (IH d2 H1 H2 Hc1 Hc2 Heq) as (-> & -> & ->). done.
Qed.

Lemma digits_end (d1 d2 : string) (c1 : Ascii.ascii) (r1 : string) :
  digits d2 = true -> digit c1 = false -> d1 +:+ String c1 r1 <> d2.
Proof.
  revert d2. induction d1 as [|a d1 IH]; intros [|b d2] H2 Hc1 Heq; simpl in *;
    try discriminate.
  - injection Heq as -> _. apply andb_true_iff in H2 as [H2 _]. congruence.
  - injection Heq as -> Heq. apply andb_true_iff in H2 as [_ H2].
    exact (IH d2 H2 Hc1 Heq).
Qed.

(** The sign and the digits of [`${z}`]. *)
Lemma showZ_spec (z : Z) :
  exists d, digits d = true /\ d <> ""
            /\ Precomputed.showZ z = (if (z <? 0)%Z then "-" +:+ d else d)
            /\ d = decimal (Z.abs_N z).
Proof.
  unfold Precomputed.showZ. destruct z as [|p|p].
  - exists (decimal 0). repeat split; try reflexivity; apply decimal_digits.
  - exists (decimal (N.pos p)). repeat split; try reflexivity; apply decimal_digits.
  - exists (decimal (N.pos p)). repeat split; try reflexivity; apply decimal_digits.
Qed.

Lemma digits_head (d : string) :
  digits d = true -> d <> "" -> exists c r, d = String c r /\ digit c = true.
Proof.
  destruct d as [|c r]; [done|]. simpl. intros [Hc _]%andb_true_iff _. eauto.
Qed.

(** A number followed by a delimiter that is neither a digit nor the
    sign determines the number and what follows. *)
Lemma showZ_then (a b : Z) (c1 c2 : Ascii.ascii) (r1 r2 : string) :
  digit c1 = false -> digit c2 = false ->
  Precomputed.showZ a +:+ String c1 r1 = Precomputed.showZ b +:+ String c2 r2 ->
  a = b /\ c1 = c2 /\ r1 = r2.
Proof.
  intros Hc1 Hc2.
  destruct (showZ_spec a) as (da & Hda & Hna & -> & Ha).
  destruct (showZ_spec b) as (db & Hdb & Hnb & -> & Hb).
  destruct (digits_head da Hda Hna) as (ca & ra & Hea & Hca).
  destruct (digits_head db Hdb Hnb) as (cb & rb & Heb & Hcb).
  assert (Habs : da = db -> Z.abs_N a = Z.abs_N b)
    by (intros Heq; apply decimal_inj; congruence).
  destruct (Z.ltb_spec a 0) as [Hsa|Hsa], (Z.ltb_spec b 0) as [Hsb|Hsb];
    intros Heq.
  - simpl in Heq. injection Heq as Heq.
    destruct (digits_then _ _ _ _ _ _ Hda Hdb Hc1 Hc2 Heq) as (Hd & -> & ->).
    specialize (Habs Hd). split; [lia|done].
  - exfalso. rewrite Heb in Heq. simpl in Heq. injection Heq as Heq _.
    rewrite <- Heq in Hcb. discriminate.
  - exfalso. rewrite Hea in Heq. simpl in Heq. injection Heq as Heq _.
    rewrite Heq in Hca. discriminate.
  - destruct (digits_then _ _ _ _ _ _ Hda Hdb Hc1 Hc2 Heq) as (Hd & -> & ->).
    specialize (Habs Hd). split; [lia|done].
Qed.

Lemma showZ_inj (a b : Z) : Precomputed.showZ a = Precomputed.showZ b -> a = b.
Proof.
  intros Heq.
  assert (Heq' : Precomputed.showZ a +:+ "_" = Precomputed.showZ b +:+ "_")
    by congruence.
  apply showZ_then in Heq'; [apply Heq'|reflexivity|reflexivity].
Qed.

(** The bounds string determines the chunk. *)
Lemma boundsString_inj (p s p' s' : Z * Z * Z) :
  Precomputed.boundsString p s = Precomputed.boundsString p' s' ->
  p = p' /\ s = s'.
Proof.
  destruct p as [[p0 p1] p2], s as [[s0 s1] s2].
  destruct p' as [[q0 q1] q2], s' as [[t0 t1] t2].
  unfold Precomputed.boundsString. intros Heq.
  apply showZ_then in Heq as (H0 & _ & Heq); [|reflexivity..].
  apply showZ_then in Heq as (H0' & _ & Heq); [|reflexivity..].
  apply showZ_then in Heq as (H1 & _ & Heq); [|reflexivity..].
  apply showZ_then in Heq as (H1' & _ & Heq); [|reflexivity..].
  apply showZ_then in Heq as (H2 & _ & Heq); [|reflexivity..].
  apply showZ_inj in Heq.
  split; f_equal; try f_equal; lia.
Qed.

(** Two strings that begin alike and are equal end alike. *)
Lemma append_inj_r (s t1 t2 : string) : s +:+ t1 = s +:+ t2 -> t1 = t2.
Proof.
  induction s as [|a s IH]; simpl; intros Heq; [exact Heq|].
  injection Heq as Heq. apply IH, Heq.
Qed.

(** X18: the request of a volume chunk names the chunk: two requests of a
    source are the same only for the same chunk position and size.  So do
    the [leaves] requests of the chunked graph: the request for a root is
    the same for two chunks only when they have the same position and
    size. *)
Theorem chunk_requests_distinct (parameters : Precomputed.Parameters)
    (p s p' s' : Z * Z * Z) :
  (PrecomputedRequests.volumeChunk parameters p s
   = PrecomputedRequests.volumeChunk parameters p' s' -> p = p' /\ s = s')
  /\ (forall chunk chunk' key request,
        (key, request) ∈ Precomputed.download_requests parameters p chunk ->
        (key, request) ∈ Precomputed.download_requests parameters p' chunk' ->
        p = p'
        /\ Precomputed.chunkDataSize chunk = Precomputed.chunkDataSize chunk').
Proof.
  split.
  - unfold PrecomputedRequests.volumeChunk. intros [= Heq].
    apply append_inj_r, append_inj_r in Heq. apply boundsString_inj, Heq.
  - intros chunk chunk' key request Hin Hin'.
    rewrite download_requests_spec in Hin, Hin'.
    apply list_elem_of_fmap in Hin as (kv & [= -> ->] & _).
    apply list_elem_of_fmap in Hin' as (kv' & [= Hkey Heq] & _).
    rewrite <- Hkey in Heq.
    do 4 apply append_inj_r in Heq.
    apply boundsString_inj in Heq as [-> ->]. done.
Qed.


(** ** Skeleton chunks: responses that are too short *)

Section skeleton_bounds.
Context `{Host} `{DataTypes}.
Implicit Types (response : list byte) (infos : list Precomputed.VertexAttributeInfo).
Local Open Scope N_scope.

(** The bytes all the attributes take for [numVertices] vertices. *)
Definition attributeBytes (numVertices : N) infos : N :=
  foldr (fun info total => bytesPerVertex info * numVertices + total) 0 infos.

Lemma getUint32_None response (offset : N) (littleEndian : bool) :
  TypedArray.getUint32 response offset littleEndian = None
  <-> TypedArray.bufferLength response < offset + 4.
Proof.
  unfold TypedArray.getUint32, TypedArray.bufferLength.
  pose proof (length_drop response (N.to_nat offset)) as Hlen.
  destruct (drop (N.to_nat offset) response) as [|b0 [|b1 [|b2 [|b3 rest]]]];
    simpl in Hlen; split; try discriminate; try lia; done.
Qed.

Lemma convertAttribute_length w v response :
  fits v response ->
  length (Precomputed.convertAttribute w v response) = length response.
Proof.
  intros Hfit. rewrite convertAttribute_spec.
  apply modify_length; [exact Hfit|apply converted_length].
Qed.

(** The attribute loop ends normally exactly when the response holds all
    the attributes. *)
Lemma decodeAttributes_fits numVertices infos : forall curOffset attributes response,
  infos <> [] ->
  let r := Precomputed.decodeAttributes numVertices infos curOffset attributes
             response in
  length r.1 = length response
  /\ if curOffset + attributeBytes numVertices infos
        <=? TypedArray.bufferLength response
     then exists views, r.2 = Normal views
     else r.2 = Throw RangeError.
Proof.
  induction infos as [|info infos IH]; intros curOffset attributes response Hne;
    [contradiction|].
  cbn [Precomputed.decodeAttributes attributeBytes foldr].
  fold (attributeBytes numVertices infos). fold (bytesPerVertex info).
  set (totalBytes := bytesPerVertex info * numVertices).
  unfold TypedArray.create.
  rewrite N.mod_1_r. cbn [N.eqb negb]. rewrite N.mul_1_r.
  destruct (N.ltb_spec (TypedArray.bufferLength response) (curOffset + totalBytes))
    as [Hshort|Hfit].
  - cbn [fst snd]. split; [reflexivity|].
    destruct (N.leb_spec (curOffset + (totalBytes + attributeBytes numVertices infos))
                (TypedArray.bufferLength response)); [lia|reflexivity].
  - set (attribute := TypedArray.mkView curOffset totalBytes).
    assert (Hview : fits attribute response).
    { unfold fits, stop, attribute, TypedArray.bufferLength in *. simpl. lia. }
    pose proof (convertAttribute_length (bytesPerVertex info) attribute response
                  Hview) as Hlen.
    set (response1 := Precomputed.convertAttribute _ attribute response) in *.
    destruct infos as [|info' infos'].
    + cbn [Precomputed.decodeAttributes attributeBytes foldr fst snd].
      split; [exact Hlen|].
      destruct (N.leb_spec (curOffset + (totalBytes + 0))
                  (TypedArray.bufferLength response)); [eauto|lia].
    + destruct (IH (curOffset + totalBytes) (attributes ++ [attribute]) response1)
        as [Hlen' Hr]; [discriminate|].
      split; [rewrite Hlen'; exact Hlen|].
      replace (TypedArray.bufferLength response1)
        with (TypedArray.bufferLength response) in Hr
        by (unfold TypedArray.bufferLength; rewrite Hlen; reflexivity).
      rewrite <- N.add_assoc in Hr. exact Hr.
Qed.

(** X20: [decodeSkeletonChunk] throws a [RangeError] on a response shorter
    than its header of 8 bytes, and, when there are vertex attributes, on a
    response shorter than the header, the vertex positions and the
    attributes of all the vertices that the header counts. *)
Theorem skeleton_too_short response infos :
  (TypedArray.bufferLength response < 8 ->
   (Precomputed.decodeSkeletonChunk response infos).2 = Throw RangeError)
  /\ (forall numVertices,
        TypedArray.getUint32 response 0 true = Some numVertices ->
        8 <= TypedArray.bufferLength response ->
        infos <> [] ->
        TypedArray.bufferLength response
        < 8 + 12 * numVertices + attributeBytes numVertices infos ->
        (Precomputed.decodeSkeletonChunk response infos).2 = Throw RangeError).
Proof.
  unfold Precomputed.decodeSkeletonChunk. split.
  - intros Hshort.
    destruct (TypedArray.getUint32 response 0 true) as [n|]; [|reflexivity].
    destruct (TypedArray.getUint32 response 4 true) as [m|] eqn:Hm;
      [|reflexivity].
    exfalso. assert (Hnone : TypedArray.getUint32 response 4 true = None)
      by (apply getUint32_None; lia).
    congruence.
  - intros n Hn Hlong Hne Hshort. rewrite Hn.
    destruct (TypedArray.getUint32 response 4 true) as [m|] eqn:Hm;
      [|reflexivity].
    destruct (decodeAttributes_fits n infos (8 + n * 4 * 3) [] response Hne)
      as [_ Hr].
    destruct (N.leb_spec (8 + n * 4 * 3 + attributeBytes n infos)
                (TypedArray.bufferLength response)) as [Hfit|_]; [lia|].
    destruct (Precomputed.decodeAttributes n infos (8 + n * 4 * 3) [] response)
      as [response1 c]. cbn [snd] in Hr. rewrite Hr. reflexivity.
Qed.

End skeleton_bounds.

(** A skeleton of four vertices with the attributes of the examples, cut
    off in the last attribute. *)
Lemma skeleton_too_short_witness :
  (Precomputed.decodeSkeletonChunk (H := big_endian_host)
     (H0 := example_data_types) (take 110 example_skeleton) example_attributes).2
  = Throw RangeError.
Proof.
  destruct (skeleton_too_short (H := big_endian_host) (H0 := example_data_types)
              (take 110 example_skeleton) example_attributes) as [_ Hshort].
  apply (Hshort 4%N); [reflexivity| | |]; vm_compute; congruence.
Defined.

(** ** The geometry decoder with a given number of primitives *)

Section decode_counted.
Context `{Host}.
Implicit Types (data : list byte).
Local Open Scope N_scope.

(** X21: called with an index offset and a number of primitives,
    [decodeVertexPositionsAndIndices] never throws its error about the
    number of indices (for [verticesPerPrimitive] other than 0): the index
    view is made with [numPrimitives * verticesPerPrimitive] elements.  It
    ends normally when both offsets are multiples of 4 and both views fit
    in the buffer, and throws a [RangeError] otherwise; the buffer keeps
    its length. *)
Theorem decode_counted (verticesPerPrimitive : N) data (endianness : Endianness)
    (vertexByteOffset numVertices indexByteOffset numPrimitives : N) :
  verticesPerPrimitive <> 0 ->
  let len := TypedArray.bufferLength data in
  let r := Mesh.decodeVertexPositionsAndIndices verticesPerPrimitive data
             endianness vertexByteOffset numVertices (Some indexByteOffset)
             (Some numPrimitives) in
  length r.1 = length data
  /\ r.2 =
     if (vertexByteOffset mod 4 =? 0)
        && (vertexByteOffset + 12 * numVertices <=? len)
        && (indexByteOffset mod 4 =? 0)
        && (indexByteOffset + 4 * (numPrimitives * verticesPerPrimitive) <=? len)
     then Normal {| Mesh.vertexPositions :=
                      TypedArray.mkView vertexByteOffset (12 * numVertices);
                    Mesh.indices :=
                      TypedArray.mkView indexByteOffset
                        (4 * (numPrimitives * verticesPerPrimitive)) |}
     else Throw RangeError.
Proof.
  intros Hvpp len r. unfold r, Mesh.decodeVertexPositionsAndIndices.
  rewrite create_counted. fold len.
  replace (numVertices * 3 * 4) with (12 * numVertices) by lia.
  destruct (N.eqb_spec (vertexByteOffset mod 4) 0) as [Halign|Halign];
    [|split; reflexivity].
  destruct (N.leb_spec (vertexByteOffset + 12 * numVertices) len) as [Hfit|Hfit];
    [|split; reflexivity].
  cbn [andb].
  set (vp := TypedArray.mkView vertexByteOffset (12 * numVertices)).
  assert (Hvp : fits vp data).
  { unfold fits, stop, vp, len, TypedArray.bufferLength in *. simpl. lia. }
  pose proof (convertEndian32_length vp endianness data Hvp) as Hlen1.
  set (data1 := Endian.convertEndian32 vp endianness data) in *.
  rewrite create_counted.
  replace (TypedArray.bufferLength data1) with len
    by (unfold TypedArray.bufferLength, len; rewrite Hlen1; reflexivity).
  replace (numPrimitives * verticesPerPrimitive * 4)
    with (4 * (numPrimitives * verticesPerPrimitive)) by lia.
  destruct (N.eqb_spec (indexByteOffset mod 4) 0) as [Halign'|Halign'];
    [|split; [exact Hlen1|reflexivity]].
  destruct (N.leb_spec
              (indexByteOffset + 4 * (numPrimitives * verticesPerPrimitive)) len)
    as [Hfit'|Hfit']; [|split; [exact Hlen1|reflexivity]].
  cbn [andb].
  set (ix := TypedArray.mkView indexByteOffset
               (4 * (numPrimitives * verticesPerPrimitive))).
  assert (Hcount : TypedArray.length32 ix = numPrimitives * verticesPerPrimitive).
  { unfold TypedArray.length32, ix. cbn [TypedArray.byteLength].
    rewrite N.mul_comm. apply N.div_mul. discriminate. }
  rewrite Hcount, N.Div0.mod_mul.
  destruct (N.eqb_spec verticesPerPrimitive 0) as [|_]; [contradiction|].
  cbn [orb negb N.eqb]. split; [|reflexivity]. cbn [fst].
  rewrite convertEndian32_length; [exact Hlen1|].
  unfold fits, stop, ix, len, TypedArray.bufferLength in *. simpl. lia.
Qed.

End decode_counted.

(** Two vertices and one edge, as [decodeSkeletonChunk] asks for them. *)
Lemma decode_counted_witness :
  (Mesh.decodeVertexPositionsAndIndices (H := little_endian_host)
     2 (replicate 40 x00) LITTLE 8 2 (Some 32%N) (Some 1%N)).2
  = Normal {| Mesh.vertexPositions := TypedArray.mkView 8 24;
              Mesh.indices := TypedArray.mkView 32 8 |}.
Proof.
  destruct (decode_counted (H := little_endian_host)
              2 (replicate 40 x00) LITTLE 8 2 32 1) as [_ Hr].
  - discriminate.
  - rewrite Hr. reflexivity.
Defined.

(** ** Chunks are filed under their own key *)

Section filed.
Context `{Collaborators}.
Implicit Types (this : Scheduler.MeshLayer).














End filed.

(** ** A [getChildren] call that is rejected *)

Section stranded.
Context `{Collaborators}.
Implicit Types (this : Scheduler.MeshLayer) (q : Scheduler.Query).

(** The manifest of key [k] is in [REQUESTING_CHILDREN] and no call is
    outstanding for it. *)
Definition stranded (k : string) this : Prop :=
  stateOf this k = Some Scheduler.REQUESTING_CHILDREN
  /\ forall q, q ∈ Scheduler.outstanding this -> Scheduler.manifest q <> k.

(** The event is not a move of the chunk of key [k] by the chunk
    manager. *)
Definition leaves_chunk (k : string) (e : Scheduler.Event) : Prop :=
  match e with
  | Scheduler.ChunkMoved k' _ _ => k' <> k
  | _ => True
  end.

Lemma stranded_frame k this this' :
  Scheduler.chunks this' = Scheduler.chunks this ->
  Scheduler.outstanding this' = Scheduler.outstanding this ->
  stranded k this -> stranded k this'.
Proof.
  intros Hc Ho [Hs Hq]. unfold stranded, stateOf. rewrite Hc, Ho. done.
Qed.

Lemma visit_stranded k tier base clip o r this :
  stranded k this ->
  stranded k (Scheduler.after (Scheduler.visit tier base clip o r this)).
Proof.
  intros [Hs Hq].
  destruct (visit_after tier base clip o r this) as (Hout & Hst & _).
  split.
  - rewrite Hst. destruct (decide _) as [<-|]; [|exact Hs].
    rewrite Hs. destruct (fallback this k); reflexivity.
  - intros q. rewrite Hout.
    intros [Hin|Hin]%elem_of_app; [exact (Hq q Hin)|].
    destruct (fallback this (getObjectKey o clip)) eqn:Hfb;
      [|apply elem_of_nil in Hin; contradiction].
    apply list_elem_of_singleton in Hin as ->. simpl. intros Heq.
    unfold fallback in Hfb. rewrite Heq, Hs in Hfb.
    rewrite bool_decide_eq_false_2 in Hfb by discriminate. discriminate.
Qed.

Lemma visitAll_stranded k tier base clip segments this :
  stranded k this ->
  stranded k (Scheduler.after (Scheduler.visitAll tier base clip segments this)).
Proof.
  revert this. induction segments as [|[o r] segments IH]; intros this Hs.
  - exact Hs.
  - cbn [Scheduler.visitAll].
    pose proof (visit_stranded k tier base clip o r this Hs) as Hhead.
    destruct (Scheduler.thrown (Scheduler.visit tier base clip o r this));
      [exact Hhead|].
    cbn [Scheduler.after]. apply IH, Hhead.
Qed.

Lemma exec_stranded k e this :
  leaves_chunk k e -> stranded k this -> stranded k (Scheduler.exec e this).
Proof.
  intros Hleaves Hstr.
  destruct e as [v clip|i children|i|dt| |k' s ids|roots|visible];
    cbn [Scheduler.exec];
    try (eapply stranded_frame; [| |exact Hstr]; reflexivity).
  - unfold Scheduler.updateChunkPriorities.
    destruct (decide _); [exact Hstr|]. apply visitAll_stranded, Hstr.
  - destruct (Scheduler.outstanding this !! i) as [q|] eqn:Hi; [|exact Hstr].
    destruct (onChildren_frame q children
                (Scheduler.set_outstanding (base.delete i) this)) as [Ho Hc].
    destruct Hstr as [Hs Hq].
    assert (Hne : Scheduler.manifest q <> k).
    { apply Hq. apply list_elem_of_lookup. eauto. }
    split.
    + unfold stateOf. rewrite Hc. simpl.
      rewrite lookup_alter_ne by exact Hne. exact Hs.
    + intros q'. rewrite Ho. simpl. intros Hq'. apply Hq.
      eapply list_elem_of_delete_inv, Hq'.
  - destruct Hstr as [Hs Hq]. split; [exact Hs|].
    intros q'. simpl. intros Hq'. apply Hq.
    eapply list_elem_of_delete_inv, Hq'.
  - eapply stranded_frame; [apply timerExpired_frame..|exact Hstr].
  - simpl in Hleaves. unfold Scheduler.chunkMoved.
    destruct (Scheduler.chunks this !! k') as [c|]; [|exact Hstr].
    destruct (decide _); [exact Hstr|]. destruct (decide _); [exact Hstr|].
    destruct (_ && _); [exact Hstr|].
    destruct Hstr as [Hs Hq]. split; [|exact Hq].
    unfold stateOf. simpl. rewrite lookup_insert_ne by exact Hleaves. exact Hs.
Qed.

Lemma run_stranded k events this :
  Forall (leaves_chunk k) events -> stranded k this ->
  stranded k (Scheduler.run events this).
Proof.
  intros Hall. revert this.
  induction Hall as [|e events He _ IH]; intros this Hstr; [exact Hstr|].
  apply IH, exec_stranded; assumption.
Qed.

(** X23: the call of [getChildren] has a handler for its answer and none
    for its failure.  When the promise of an outstanding call is rejected,
    the manifest chunk of the call stays in [REQUESTING_CHILDREN]; whatever
    happens afterwards (passes, answers to other calls, flushes, changes of
    the display), short of the chunk manager moving that chunk, it is still
    in [REQUESTING_CHILDREN] with no call outstanding for it: no pass asks
    for its children again. *)
Theorem rejected_call_strands_manifest (graph : bool)
    (roots visible : gset Uint64) (events later : list Scheduler.Event)
    (i : nat) q :
  let this := Scheduler.run events (Scheduler.create graph roots visible) in
  Scheduler.outstanding this !! i = Some q ->
  Forall (leaves_chunk (Scheduler.manifest q)) later ->
  let this' := Scheduler.run (Scheduler.ChildrenFailed i :: later) this in
  stateOf this' (Scheduler.manifest q) = Some Scheduler.REQUESTING_CHILDREN
  /\ outstandingFor this' (Scheduler.manifest q) = [].
Proof.
  intros this Hi Hlater this'.
  pose proof (run_inv events _ (create_inv graph roots visible)) as [Hone Hstate].
  fold this in Hone, Hstate.
  assert (Hq : q ∈ Scheduler.outstanding this)
    by (apply list_elem_of_lookup; eauto).
  assert (Hstr : stranded (Scheduler.manifest q)
                   (Scheduler.exec (Scheduler.ChildrenFailed i) this)).
  { split; [exact (Hstate q Hq)|].
    intros q' Hq'. simpl in Hq'.
    exact (delete_other_key _ _ _ _ _ Hone Hi Hq'). }
  destruct (run_stranded _ later _ Hlater Hstr) as [Hs Hnone].
  split; [exact Hs|]. apply filter_none. exact Hnone.
Qed.

End stranded.

(** The call for the children of segment 5 is rejected; the root set
    changes and two more passes run. *)
Lemma rejected_call_strands_manifest_witness :
  let this' :=
    Scheduler.run
      (example_failed
       ++ [Scheduler.Recompute POSITIVE_INFINITY None;
           Scheduler.ChildrenFailed 0;
           Scheduler.Recompute POSITIVE_INFINITY None;
           Scheduler.RootsChanged {[5%N; 6%N]};
           Scheduler.Recompute (finite 1) None])
      example_layer in
  stateOf this' "5" = Some Scheduler.REQUESTING_CHILDREN
  /\ outstandingFor this' "5" = [].
Proof.
  intros this'.
  apply (rejected_call_strands_manifest (H := example_collaborators)
           true {[5%N]} {[5%N]}
           (example_failed ++ [Scheduler.Recompute POSITIVE_INFINITY None])
           [Scheduler.Recompute POSITIVE_INFINITY None;
            Scheduler.RootsChanged {[5%N; 6%N]};
            Scheduler.Recompute (finite 1) None]
           0 {| Scheduler.manifest := "5"; Scheduler.segmentID := 5%N;
                Scheduler.rootID := 5%N |}).
  - reflexivity.
  - repeat constructor.
Defined.

